(** * Empire Conquest and the photo gallery: rules engine and loading strategy

    A shallow embedding of the two applications of the repository:

    - [Empire]: the turn-based city builder (grid model, placement
      validator, adjacency calculator, turn resolver, achievement and
      victory evaluator), and the handlers of its page (clicks, drag and
      drop, the end-of-turn dialog);
    - [Gallery]: the viewport and connection detection of the photo
      gallery that selects the loading strategy, and its paging (page
      navigation and load-more).

    Conventions of the embedding.

    - JavaScript numbers that hold counts, coordinates and resources are
      integers ([Z]); the turn counter, which starts at 1 and is only ever
      incremented, is a [nat].  The few places where the source multiplies by
      a decimal constant ([0.1], [0.2], ... or [/ 144 * 100]) are computed
      over the rationals ([Q]) and brought back with [Math.round] and
      [Math.floor].  The double nearest to such a constant is off by a
      relative error of at most 2^-54, so the double product of an integer
      and the constant rounds to the exact product whenever that product is a
      multiple of one half, and stays on the same side of every rounding
      threshold otherwise: for the magnitudes a game reaches, the exact
      computation and the floating-point one return the same integer.
    - [Math.random()] is an explicit argument: every function that draws
      random numbers receives the draws it makes.  A draw is compared with
      the decimal thresholds, and multiplied by a table length, exactly; the
      double computation can differ only for the draws that are the doubles
      next to a threshold or to a multiple of one over the table length.
    - An asynchronous load of the gallery is one step, from the call to the
      end of its [finally] block: while a load is in flight [isLoading]
      makes every other load return at once.  What the photo service and the
      random sizes and titles give is an explicit argument of each load.
    - The grid is one shared mutable object.  The source never copies a row
      or a cell: [[...grid]] copies the outer array only, and every later
      assignment such as [newGrid[y][x].isRevealed = true] writes into the
      cell objects created by the initialiser.  Consequently every snapshot
      of the game state, including the [gameState.grid] captured by the
      callbacks, reads the same cells.  The embedding therefore threads one
      grid value through each operation, and a read of [gameState.grid] in
      the middle of an update sees the cells as mutated so far.
    - Event handlers are created afresh on every render, so the [gameState]
      captured by a handler and the [prev] passed to its state updater are
      the same state; the embedding has one state argument and keeps track
      of which of the two the source reads where that matters
      (see [nextTurn]).
    - [particleEffects], the colour tables and the other purely visual
      data are left out. *)

From Stdlib Require Import ZArith QArith Qround Lia Lqa String DecimalString.
From stdpp Require Import base list strings numbers.

Open Scope Z_scope.

(** ** JavaScript arithmetic helpers *)

(** [Math.round]: nearest integer, ties towards plus infinity. *)
Definition js_round (q : Q) : Z := Qfloor (q + (1 # 2))%Q.

(** [Math.floor]. *)
Definition js_floor (q : Q) : Z := Qfloor q.

(** An integer multiplied by a decimal constant. *)
Definition scale (z : Z) (q : Q) : Q := (inject_Z z * q)%Q.

Definition Qltb (a b : Q) : bool := negb (Qle_bool b a).

(** Template-literal rendering of an integer. *)
Definition string_of_Z (z : Z) : string := NilZero.string_of_int (Z.to_int z).

(** [String.prototype.includes]. *)
Fixpoint includes (s sub : string) : bool :=
  String.prefix sub s ||
  match s with
  | EmptyString => false
  | String _ rest => includes rest sub
  end.

Module Empire.

(** ** Types *)

Inductive Terrain := grass | forest | mountain | water.
Inductive BuildingType := castle | house | farm | mine | barracks | tower | market.
Inductive Owner := player | enemy.

#[global] Instance Terrain_eq_dec : EqDecision Terrain.
Proof. solve_decision. Defined.
#[global] Instance BuildingType_eq_dec : EqDecision BuildingType.
Proof. solve_decision. Defined.
#[global] Instance Owner_eq_dec : EqDecision Owner.
Proof. solve_decision. Defined.

Record Building := mkBuilding {
  type : BuildingType;
  level : Z;
  owner : Owner;
  income : Z;
  adjacencyBonuses : list string
}.

Record Cell := mkCell {
  cell_x : Z;
  cell_y : Z;
  isRevealed : bool;
  building : option Building;
  terrain : Terrain;
  resources : Z;
  adjacencyBonus : Z
}.

Record ResourceChange := mkRC {
  rc_gold : Z;
  rc_population : Z;
  rc_food : Z;
  rc_military : Z
}.

Inductive EventType :=
  | building_built | resource_bonus | population_growth | military_training
  | trade_success | weather_effect | resource_discovery | bandit_attack
  | seasonal_change | achievement.

Inductive Severity := positive | negative | neutral.

Record TurnEvent := mkEvent {
  ev_type : EventType;
  message : string;
  icon : string;
  severity : option Severity
}.

Record Achievement := mkAchievement {
  id : string;
  name : string;
  description : string;
  ach_icon : string;
  unlocked : bool;
  progress : Z;
  maxProgress : Z;
  reward : option string
}.

Inductive SeasonName := Spring | Summer | Autumn | Winter.

Record SeasonEffects := mkEffects {
  goldBonus : Q;
  foodBonus : Q;
  militaryBonus : Q
}.

Record Season := mkSeason {
  season_name : SeasonName;
  season_icon : string;
  effects : SeasonEffects
}.

Record Player := mkPlayer {
  gold : Z;
  population : Z;
  army : Z;
  food : Z;
  militaryStrength : Z
}.

Inductive TimeOfDay := day | night.
Inductive GamePhase := placement | battle | victory.
Inductive VictoryType := territory | by_resources | buildings.

(** [Cell[][]]: the rows of the grid. *)
Abbreviation Grid := (list (list Cell)).

Record GameState := mkState {
  grid : Grid;
  turn : nat;
  timeOfDay : TimeOfDay;
  isTransitioning : bool;
  gs_player : Player;
  selectedCell : option (Z * Z);
  gamePhase : GamePhase;
  resourceChanges : ResourceChange;
  lastTurnIncome : ResourceChange;
  turnEvents : list TurnEvent;
  showTurnSummary : bool;
  showEndTurnConfirm : bool;
  territoryControlPercentage : Z;
  currentSeason : Season;
  achievements : list Achievement;
  gameWon : bool;
  victoryType : option VictoryType;
  showVictoryScreen : bool;
  isLoading : bool
}.

(** ** Constant tables *)

Definition GRID_SIZE : Z := 12.

Definition SEASONS : list Season :=
  [ mkSeason Spring "🌸" (mkEffects 0.1 0.2 0);
    mkSeason Summer "☀️" (mkEffects 0.2 0.3 0.1);
    mkSeason Autumn "🍂" (mkEffects 0.3 0.1 0.2);
    mkSeason Winter "❄️" (mkEffects 0 (-0.1) 0.3) ].

Definition INITIAL_ACHIEVEMENTS : list Achievement :=
  [ mkAchievement "first_building" "Foundation" "Build your first structure"
      "🏗️" false 0 1 (Some "Unlock: Market building");
    mkAchievement "gold_collector" "Gold Rush" "Accumulate 1000 gold"
      "💰" false 0 1000 (Some "+10% gold income");
    mkAchievement "empire_builder" "Empire Builder" "Control 25% of the territory"
      "🏰" false 0 25 (Some "Unlock: Advanced buildings");
    mkAchievement "all_buildings" "Master Architect" "Build all building types"
      "🏛️" false 0 7 (Some "Victory condition unlocked");
    mkAchievement "population_boom" "Population Boom" "Reach 100 population"
      "👥" false 0 100 (Some "+20% population growth") ].

Record Cost := mkCost {
  cost_gold : Z;
  cost_food : Z;
  cost_population : Z
}.

(** [BUILDING_COSTS] has no entry for the castle: the lookup yields
    [undefined] there, which is [None] here. *)
Definition BUILDING_COSTS (t : BuildingType) : option Cost :=
  match t with
  | castle => None
  | house => Some (mkCost 50 5 0)
  | farm => Some (mkCost 75 0 2)
  | mine => Some (mkCost 100 10 3)
  | barracks => Some (mkCost 150 15 5)
  | tower => Some (mkCost 200 20 3)
  | market => Some (mkCost 120 8 4)
  end.

Record Effects := mkBE {
  produces : ResourceChange;
  consumes : ResourceChange
}.

Definition BUILDING_EFFECTS (t : BuildingType) : Effects :=
  match t with
  | castle => mkBE (mkRC 20 2 0 5) (mkRC 0 0 5 0)
  | house => mkBE (mkRC 5 3 0 0) (mkRC 0 0 2 0)
  | farm => mkBE (mkRC 10 0 20 0) (mkRC 2 1 0 0)
  | mine => mkBE (mkRC 30 0 0 0) (mkRC 0 2 8 0)
  | barracks => mkBE (mkRC 0 0 0 8) (mkRC 10 3 15 0)
  | tower => mkBE (mkRC 0 0 0 12) (mkRC 5 1 8 0)
  | market => mkBE (mkRC 25 1 0 0) (mkRC 0 2 5 0)
  end.

Record PlacementRule := mkRule {
  validTerrain : list Terrain;
  maxDistance : Z;
  minDistance : Z
}.

Definition PLACEMENT_RULES (t : BuildingType) : PlacementRule :=
  match t with
  | castle => mkRule [grass; mountain] 10 0
  | house => mkRule [grass; forest] 3 0
  | farm => mkRule [grass] 5 1
  | mine => mkRule [mountain; forest] 10 0
  | barracks => mkRule [grass; mountain] 4 2
  | tower => mkRule [grass; mountain] 6 1
  | market => mkRule [grass] 3 1
  end.

(** [ADJACENCY_BONUSES[t][n]]; [None] where the inner object has no key. *)
Definition ADJACENCY_BONUSES (t n : BuildingType) : option Z :=
  match t, n with
  | castle, house => Some 10
  | castle, barracks => Some 15
  | castle, tower => Some 20
  | house, house => Some 5
  | house, market => Some 10
  | house, castle => Some 15
  | farm, house => Some 5
  | farm, market => Some 15
  | farm, farm => Some (-5)
  | mine, market => Some 10
  | mine, barracks => Some 5
  | barracks, tower => Some 15
  | barracks, castle => Some 10
  | barracks, barracks => Some 10
  | tower, barracks => Some 10
  | tower, tower => Some 5
  | tower, castle => Some 20
  | market, house => Some 10
  | market, farm => Some 15
  | market, market => Some (-10)
  | _, _ => None
  end.

(** ** Grid access *)

(** The cell object in row [p.1], column [p.2]. *)
Definition cellObj (g : Grid) (p : nat * nat) : option Cell :=
  g !! p.1 ≫= (λ row, row !! p.2).

(** In-place update of the cell object in row [p.1], column [p.2]. *)
Definition updObj (f : Cell → Cell) (p : nat * nat) (g : Grid) : Grid :=
  alter (alter f p.2) p.1 g.

(** [grid[y][x]]; [None] is JavaScript's [undefined] (or the [TypeError] of
    indexing [undefined]). *)
Definition cellAt (g : Grid) (x y : Z) : option Cell :=
  if (0 <=? x) && (0 <=? y)
  then cellObj g (Z.to_nat y, Z.to_nat x)
  else None.

(** An assignment to fields of [grid[y][x]].  Every such assignment of the
    source is made at indices that were tested to be in range. *)
Definition updCell (f : Cell → Cell) (x y : Z) (g : Grid) : Grid :=
  if (0 <=? x) && (0 <=? y)
  then updObj f (Z.to_nat y, Z.to_nat x) g
  else g.

(** The guard [x >= 0 && x < GRID_SIZE && y >= 0 && y < GRID_SIZE]. *)
Definition inBounds (x y : Z) : bool :=
  (0 <=? x) && (x <? GRID_SIZE) && (0 <=? y) && (y <? GRID_SIZE).

(** [cell.building && cell.building.owner === 'player'], with the building. *)
Definition playerBuilding (c : Cell) : option Building :=
  match building c with
  | Some b => if decide (owner b = player) then Some b else None
  | None => None
  end.

Definition isPlayerCell (c : Cell) : bool :=
  match playerBuilding c with Some _ => true | None => false end.

(** [grid.flat()]. *)
Definition flat (g : Grid) : list Cell := concat g.

Definition getBaseIncome (t : BuildingType) : Z :=
  rc_gold (produces (BUILDING_EFFECTS t)).

(** ** Turn resources *)

(** [x || 0] on a number. *)
Definition orZero (z : Z) : Z := if z =? 0 then 0 else z.

(** One iteration of the [forEach] of [calculateTurnResources]. *)
Definition turnResourcesStep (acc : ResourceChange) (c : Cell) : ResourceChange :=
  match playerBuilding c with
  | Some b =>
      let effects := BUILDING_EFFECTS (type b) in
      let bonus := orZero (adjacencyBonus c) in
      let a1 := mkRC (rc_gold acc + (rc_gold (produces effects) + bonus))
                     (rc_population acc + rc_population (produces effects))
                     (rc_food acc + rc_food (produces effects))
                     (rc_military acc + rc_military (produces effects)) in
      mkRC (rc_gold a1 - rc_gold (consumes effects))
           (rc_population a1 - rc_population (consumes effects))
           (rc_food a1 - rc_food (consumes effects))
           (rc_military a1 - rc_military (consumes effects))
  | None => acc
  end.

Definition calculateTurnResources (g : Grid) : ResourceChange :=
  fold_left turnResourcesStep (flat g) (mkRC 5 1 (-2) 0).

(** ** Adjacency *)

(** The loop variables [dy] and [dx] of the 3 x 3 scans. *)
Definition offsets : list Z := [-1; 0; 1].

(** [bonuses[adjCell.building.type] || 0]. *)
Definition bonusFor (t n : BuildingType) : Z :=
  match ADJACENCY_BONUSES t n with
  | Some b => orZero b
  | None => 0
  end.

(** Body of the inner loop of [calculateAdjacencyBonus].  The read of
    [gameState.grid[adjY][adjX]] is guarded by the bounds test; on a
    [GRID_SIZE] x [GRID_SIZE] grid it always finds a cell. *)
Definition adjacencyStep (g : Grid) (x y : Z) (t : BuildingType)
    (dy : Z) (totalBonus : Z) (dx : Z) : Z :=
  if (dx =? 0) && (dy =? 0) then totalBonus
  else
    let adjX := x + dx in
    let adjY := y + dy in
    if inBounds adjX adjY then
      match cellAt g adjX adjY with
      | Some adjCell =>
          match playerBuilding adjCell with
          | Some b => totalBonus + bonusFor t (type b)
          | None => totalBonus
          end
      | None => totalBonus
      end
    else totalBonus.

Definition calculateAdjacencyBonus (g : Grid) (x y : Z) (t : BuildingType) : Z :=
  fold_left
    (λ totalBonus dy, fold_left (adjacencyStep g x y t dy) offsets totalBonus)
    offsets 0.

(** Positions of the cell objects in the order of [grid.flat()]: row by
    row, each row from left to right. *)
Definition positions (g : Grid) : list (nat * nat) :=
  i ← seq 0 (length g);
  (λ j, (i, j)) <$> seq 0 (length (default [] (g !! i))).

(** Body of the [forEach] of [updateAllAdjacencyBonuses], applied to one cell
    object.  [calculateAdjacencyBonus] reads [gameState.grid], whose cells
    are the very objects being updated, hence the grid [g] as it is when
    the cell is visited. *)
Definition refreshCell (g : Grid) (cell : Cell) : Cell :=
  match playerBuilding cell with
  | Some b =>
      let bonus :=
        calculateAdjacencyBonus g (cell_x cell) (cell_y cell) (type b) in
      mkCell (cell_x cell) (cell_y cell) (isRevealed cell)
        (Some (mkBuilding (type b) (level b) (owner b)
                 (getBaseIncome (type b) + bonus) (adjacencyBonuses b)))
        (terrain cell) (resources cell) bonus
  | None => cell
  end.

(** One iteration of that [forEach]: the cell object at [p] is updated in
    place. *)
Definition adjacencyUpdateStep (g : Grid) (p : nat * nat) : Grid :=
  updObj (refreshCell g) p g.

Definition updateAllAdjacencyBonuses (g : Grid) : Grid :=
  fold_left adjacencyUpdateStep (positions g) g.

(** ** Placement *)

Definition calculateDistance (x1 y1 x2 y2 : Z) : Z :=
  Z.max (Z.abs (x1 - x2)) (Z.abs (y1 - y2)).

(** [Math.min(minDistance, distance)] where [None] stands for [Infinity]. *)
Definition minInf (m : option Z) (d : Z) : option Z :=
  match m with
  | None => Some d
  | Some m' => Some (Z.min m' d)
  end.

(** [findNearestBuilding(x, y)]; the optional [buildingType] argument is the
    [bt] below.  The result [None] is the source's [null]. *)
Definition findNearestBuilding (g : Grid) (x y : Z) (bt : option BuildingType)
    : option Z :=
  fold_left
    (λ minDistance cell,
       match playerBuilding cell with
       | Some b =>
           if match bt with
              | None => true
              | Some t => bool_decide (type b = t)
              end
           then minInf minDistance (calculateDistance x y (cell_x cell) (cell_y cell))
           else minDistance
       | None => minDistance
       end)
    (flat g) None.

(** [canAffordBuilding]; [None] is the [TypeError] raised by [cost.gold] when
    [BUILDING_COSTS] has no entry for the type. *)
Definition canAffordBuilding (p : Player) (t : BuildingType) : option bool :=
  match BUILDING_COSTS t with
  | Some cost =>
      Some ((cost_gold cost <=? gold p) && (cost_food cost <=? food p)
            && (cost_population cost <=? population p))
  | None => None
  end.

Definition isWater (t : Terrain) : bool :=
  match t with water => true | _ => false end.

(** [isValidPlacement]; [None] is the [TypeError] raised when [grid[y][x]]
    does not exist. *)
Definition isValidPlacement (g : Grid) (x y : Z) (t : BuildingType) : option bool :=
  match cellAt g x y with
  | None => None
  | Some cell =>
      if negb (isRevealed cell) || bool_decide (is_Some (building cell))
         || isWater (terrain cell)
      then Some false
      else
        let rules := PLACEMENT_RULES t in
        if negb (bool_decide (terrain cell ∈ validTerrain rules)) then Some false
        else if negb (bool_decide (t = castle)) then
          match findNearestBuilding g x y None with
          | None => Some false
          | Some d =>
              if (d <? minDistance rules) || (maxDistance rules <? d)
              then Some false else Some true
          end
        else Some true
  end.

Definition revealCell (c : Cell) : Cell :=
  mkCell (cell_x c) (cell_y c) true (building c) (terrain c) (resources c)
         (adjacencyBonus c).

Definition revealStep (x y : Z) (dy : Z) (g : Grid) (dx : Z) : Grid :=
  let newX := x + dx in
  let newY := y + dy in
  if inBounds newX newY then updCell revealCell newX newY g else g.

Definition revealAdjacentCells (x y : Z) (g : Grid) : Grid :=
  fold_left (λ g' dy, fold_left (revealStep x y dy) offsets g') offsets g.

Definition calculateTerritoryControl (g : Grid) : Z :=
  let totalCells := GRID_SIZE * GRID_SIZE in
  let revealedCells := Z.of_nat (length (filter (λ c, isRevealed c = true) (flat g))) in
  js_round ((inject_Z revealedCells / inject_Z totalCells) * 100)%Q.

(** ** Achievements and victory *)

(** Number of player-owned buildings on the grid. *)
Definition playerBuildingCount (g : Grid) : Z :=
  Z.of_nat (length (filter (λ c, isPlayerCell c = true) (flat g))).

(** [new Set(...)] of the player's building types, as a duplicate-free list. *)
Definition uniqueBuildings (g : Grid) : list BuildingType :=
  remove_dups (omap (λ c, type <$> playerBuilding c) (flat g)).

Definition setProgress (a : Achievement) (p : Z) (u : bool) : Achievement :=
  mkAchievement (id a) (name a) (description a) (ach_icon a) u p
                (maxProgress a) (reward a).

(** The [switch] of [updateAchievements] for one achievement. *)
Definition updateAchievement (g : Grid) (p : Player) (territoryPct : Z)
    (a : Achievement) : Achievement :=
  if String.eqb (id a) "first_building" then
    let buildingCount := playerBuildingCount g in
    setProgress a (Z.min buildingCount 1) (1 <=? buildingCount)
  else if String.eqb (id a) "gold_collector" then
    setProgress a (Z.min (gold p) 1000) (1000 <=? gold p)
  else if String.eqb (id a) "empire_builder" then
    setProgress a (Z.min territoryPct 25) (25 <=? territoryPct)
  else if String.eqb (id a) "all_buildings" then
    let size := Z.of_nat (length (uniqueBuildings g)) in
    setProgress a size (7 <=? size)
  else if String.eqb (id a) "population_boom" then
    setProgress a (Z.min (population p) 100) (100 <=? population p)
  else a.

(** [updateAchievements(newState)] reads the grid, the player, the territory
    percentage and the achievement list of [newState]. *)
Definition updateAchievements (g : Grid) (p : Player) (territoryPct : Z)
    (achs : list Achievement) : list Achievement :=
  updateAchievement g p territoryPct <$> achs.

Record VictoryCheck := mkVictory {
  won : bool;
  vtype : option VictoryType
}.

(** [checkVictoryConditions] evaluated on the state [s] it captured. *)
Definition checkVictoryConditions (s : GameState) : VictoryCheck :=
  let p := gs_player s in
  if 60 <=? territoryControlPercentage s then mkVictory true (Some territory)
  else if (5000 <=? gold p) && (200 <=? population p) && (500 <=? food p)
          && (100 <=? militaryStrength p)
  then mkVictory true (Some by_resources)
  else
    match find (λ a, String.eqb (id a) "all_buildings") (achievements s) with
    | Some masterArchitect =>
        if unlocked masterArchitect then mkVictory true (Some buildings)
        else mkVictory false None
    | None => mkVictory false None
    end.

(** ** Events *)

(** The two [Math.random()] calls [generateRandomEvents] can make: the first
    is [randomChance], the second picks the weather or discovery message. *)
Record Draws := mkDraws {
  randomChance : Q;
  pick : Q
}.

(** [{ type, ...table[Math.floor(Math.random() * table.length)] }].  The
    draws of [Math.random] lie in the interval from 0 (included) to 1
    (excluded), so the index is in range; spreading [undefined] would leave
    the message and the icon unset, which is the empty event below. *)
Definition pickEvent (t : EventType) (table : list (string * string * Severity))
    (r : Q) : TurnEvent :=
  let i := js_floor (r * inject_Z (Z.of_nat (length table)))%Q in
  match (if 0 <=? i then table !! Z.to_nat i else None) with
  | Some (m, ic, sv) => mkEvent t m ic (Some sv)
  | None => mkEvent t "" "" None
  end.

Definition seasonAt (i : nat) : Season :=
  nth i SEASONS (mkSeason Spring "" (mkEffects 0 0 0)).

Definition generateRandomEvents (turn : nat) (season : Season) (d : Draws)
    : list TurnEvent :=
  let randomChance := randomChance d in
  let weather :=
    if Qltb randomChance 0.1 then
      [ pickEvent weather_effect
          [ (season_icon season +:+ " Perfect weather boosts all production by 15%!",
             "🌈", positive);
            ("⛈️ Storms reduce military effectiveness this turn.", "⚡", negative);
            ("🌙 Clear skies improve night operations.", "✨", positive) ]
          (pick d) ]
    else [] in
  let discovery :=
    if Qltb 0.1 randomChance && Qltb randomChance 0.18 then
      [ pickEvent resource_discovery
          [ ("Miners discovered a rich gold vein! +200 gold bonus.", "⛏️", positive);
            ("Fertile lands discovered! +50 food production.", "🌾", positive);
            ("Ancient ruins found! +20 population joins your empire.", "🏛️", positive) ]
          (pick d) ]
    else [] in
  let bandits :=
    if Qltb 0.18 randomChance && Qltb randomChance 0.23 then
      [ mkEvent bandit_attack
          "🏴‍☠️ Bandits attack! Lost some resources but gained military experience."
          "⚔️" (Some negative) ]
    else [] in
  let seasonal :=
    if (turn mod 4 =? 0)%nat && (1 <? turn)%nat then
      let seasonIndex := (((turn - 1) / 4) mod 4)%nat in
      let newSeason := seasonAt seasonIndex in
      [ mkEvent seasonal_change
          (season_icon newSeason +:+ " " +:+
           match season_name newSeason with
           | Spring => "Spring" | Summer => "Summer"
           | Autumn => "Autumn" | Winter => "Winter"
           end +:+ " arrives! New bonuses and visual theme active.")
          (season_icon newSeason) (Some neutral) ]
    else [] in
  weather ++ discovery ++ bandits ++ seasonal.

Definition generateTurnEvents (rc : ResourceChange) (buildingCount : Z)
    : list TurnEvent :=
  (if 2 <? rc_population rc then
     [ mkEvent population_growth
         ("Your population is booming! +" +:+ string_of_Z (rc_population rc)
          +:+ " citizens joined your empire.") "👥" None ]
   else []) ++
  (if 50 <? rc_gold rc then
     [ mkEvent trade_success
         ("Excellent trade routes! Your merchants earned an extra +"
          +:+ string_of_Z (js_floor (scale (rc_gold rc) 0.1)) +:+ " gold.")
         "💰" None ]
   else []) ++
  (if 5 <? rc_military rc then
     [ mkEvent military_training
         ("Your forces grow stronger! Military training yields +"
          +:+ string_of_Z (rc_military rc) +:+ " strength.") "⚔️" None ]
   else []) ++
  (if 5 <? buildingCount then
     [ mkEvent resource_bonus
         "Your well-planned city provides efficiency bonuses to all buildings!"
         "🏗️" None ]
   else []) ++
  (if rc_food rc <? -10 then
     [ mkEvent resource_bonus
         "Food supplies are running low. Consider building more farms."
         "⚠️" None ]
   else []).

(** One iteration of the [forEach] that applies random event effects. *)
Definition eventBonusStep (eventBonuses : ResourceChange) (event : TurnEvent)
    : ResourceChange :=
  match ev_type event with
  | resource_discovery =>
      let b1 := if includes (message event) "gold"
                then mkRC (rc_gold eventBonuses + 200) (rc_population eventBonuses)
                          (rc_food eventBonuses) (rc_military eventBonuses)
                else eventBonuses in
      let b2 := if includes (message event) "food"
                then mkRC (rc_gold b1) (rc_population b1) (rc_food b1 + 50)
                          (rc_military b1)
                else b1 in
      if includes (message event) "population"
      then mkRC (rc_gold b2) (rc_population b2 + 20) (rc_food b2) (rc_military b2)
      else b2
  | bandit_attack =>
      mkRC (rc_gold eventBonuses - 50) (rc_population eventBonuses)
           (rc_food eventBonuses - 20) (rc_military eventBonuses + 5)
  | _ => eventBonuses
  end.

(** ** Turn advance *)

Definition seasonIndex (turn : nat) : nat := ((turn / 4) mod 4)%nat.

(** [seasonalBonuses] of [nextTurn]. *)
Definition seasonalBonuses (rc : ResourceChange) (newSeason : Season)
    : ResourceChange :=
  mkRC (js_round (scale (rc_gold rc) (goldBonus (effects newSeason))))
       (js_round (scale (rc_population rc) 0))
       (js_round (scale (rc_food rc) (foodBonus (effects newSeason))))
       (js_round (scale (rc_military rc) (militaryBonus (effects newSeason)))).

(** [adjustedResourceChanges] of [nextTurn]. *)
Definition adjustedResourceChanges (rc : ResourceChange) (newSeason : Season)
    : ResourceChange :=
  let sb := seasonalBonuses rc newSeason in
  mkRC (rc_gold rc + rc_gold sb)
       (rc_population rc)
       (rc_food rc + rc_food sb)
       (rc_military rc + rc_military sb).

(** [finalResourceChanges] of [nextTurn]. *)
Definition finalResourceChanges (adjusted : ResourceChange)
    (randomEvents : list TurnEvent) : ResourceChange :=
  let eventBonuses := fold_left eventBonusStep randomEvents (mkRC 0 0 0 0) in
  mkRC (rc_gold adjusted + rc_gold eventBonuses)
       (rc_population adjusted + rc_population eventBonuses)
       (rc_food adjusted + rc_food eventBonuses)
       (rc_military adjusted + rc_military eventBonuses).

(** [newPlayer] of [nextTurn]; [Math.floor(military / 2)] is [military / 2]
    on [Z], which rounds towards minus infinity. *)
Definition newPlayer (p : Player) (final : ResourceChange) : Player :=
  mkPlayer (Z.max 0 (gold p + rc_gold final))
           (Z.max 1 (population p + rc_population final))
           (Z.max 0 (army p + rc_military final / 2))
           (Z.max 0 (food p + rc_food final))
           (Z.max 0 (militaryStrength p + rc_military final)).

(** The state updater of [nextTurn].  [calculateTurnResources] and
    [checkVictoryConditions] are closures over [gameState]: the former reads
    the shared grid, the latter reads the territory percentage, the player
    and the achievements of the state in which the handler was created, that
    is of [s], not of [newState]. *)
Definition nextTurn (s : GameState) (d : Draws) : GameState :=
  let resourceChanges := calculateTurnResources (grid s) in
  let newTimeOfDay := match timeOfDay s with day => night | night => day end in
  let buildingCount := playerBuildingCount (grid s) in
  let newSeason := seasonAt (seasonIndex (turn s)) in
  let adjusted := adjustedResourceChanges resourceChanges newSeason in
  let basicEvents := generateTurnEvents adjusted buildingCount in
  let randomEvents := generateRandomEvents (turn s + 1) newSeason d in
  let allEvents := basicEvents ++ randomEvents in
  let final := finalResourceChanges adjusted randomEvents in
  let newPlayer := newPlayer (gs_player s) final in
  let newAchievements :=
    updateAchievements (grid s) newPlayer (territoryControlPercentage s)
      (achievements s) in
  let victoryCheck := checkVictoryConditions s in
  mkState (grid s) (turn s + 1) newTimeOfDay true newPlayer (selectedCell s)
    (if won victoryCheck then victory else gamePhase s)
    final final allEvents true false
    (territoryControlPercentage s) newSeason newAchievements
    (if won victoryCheck then true else gameWon s)
    (if won victoryCheck then vtype victoryCheck else victoryType s)
    (if won victoryCheck then true else showVictoryScreen s)
    false.

(** ** Building placement *)

(** How a call of [placeBuilding] ends: with a state update, with the early
    [return], or with a [TypeError]. *)
Inductive Outcome :=
  | Placed (s' : GameState)
  | Rejected
  | Threw.

Definition newBuilding (t : BuildingType) (adjacencyBonus : Z) : Building :=
  mkBuilding t 1 player (getBaseIncome t + adjacencyBonus) [].

Definition setBuilding (t : BuildingType) (adjacencyBonus : Z) (c : Cell) : Cell :=
  mkCell (cell_x c) (cell_y c) (isRevealed c)
         (Some (newBuilding t adjacencyBonus)) (terrain c) (resources c)
         adjacencyBonus.

(** The grid after the updater of [placeBuilding] has run. *)
Definition placedGrid (g : Grid) (x y : Z) (t : BuildingType)
    (adjacencyBonus : Z) : Grid :=
  let newGrid := revealAdjacentCells x y g in
  let newGrid := updCell (setBuilding t adjacencyBonus) x y newGrid in
  updateAllAdjacencyBonuses newGrid.

Definition placeBuilding (s : GameState) (x y : Z) (t : BuildingType) : Outcome :=
  match isValidPlacement (grid s) x y t with
  | None => Threw
  | Some false => Rejected
  | Some true =>
      match canAffordBuilding (gs_player s) t with
      | None => Threw
      | Some false => Rejected
      | Some true =>
          match BUILDING_COSTS t with
          | None => Threw
          | Some cost =>
              let adjacencyBonus := calculateAdjacencyBonus (grid s) x y t in
              let newGrid := placedGrid (grid s) x y t adjacencyBonus in
              let newTerritoryControl := calculateTerritoryControl newGrid in
              let p := gs_player s in
              let newPlayer :=
                mkPlayer (gold p - cost_gold cost)
                         (population p - cost_population cost
                          + (if bool_decide (t = house) then 2 else 0))
                         (army p)
                         (food p - cost_food cost)
                         (militaryStrength p) in
              Placed
                (mkState newGrid (turn s) (timeOfDay s) (isTransitioning s)
                   newPlayer (selectedCell s) (gamePhase s) (resourceChanges s)
                   (lastTurnIncome s) (turnEvents s) (showTurnSummary s)
                   (showEndTurnConfirm s) newTerritoryControl (currentSeason s)
                   (updateAchievements newGrid newPlayer newTerritoryControl
                      (achievements s))
                   (gameWon s) (victoryType s) (showVictoryScreen s)
                   (isLoading s))
          end
      end
  end.

(** The game state once the call has ended. *)
Definition stateAfter (s : GameState) (o : Outcome) : GameState :=
  match o with
  | Placed s' => s'
  | Rejected | Threw => s
  end.

(** ** Initial state *)

(** The cell built by the initialiser from its two random draws. *)
Definition initialCell (rnd : nat → nat → Q * Q) (y x : nat) : Cell :=
  let terrainRand := (rnd y x).1 in
  let terrain :=
    if Qltb terrainRand 0.1 then water
    else if Qltb terrainRand 0.3 then forest
    else if Qltb terrainRand 0.4 then mountain
    else grass in
  mkCell (Z.of_nat x) (Z.of_nat y) false None terrain
         (js_floor ((rnd y x).2 * 20)%Q + 10) 0.

Definition initialGrid (rnd : nat → nat → Q * Q) : Grid :=
  let grid :=
    (λ y, (λ x, initialCell rnd y x) <$> seq 0 (Z.to_nat GRID_SIZE))
      <$> seq 0 (Z.to_nat GRID_SIZE) in
  let centerX := GRID_SIZE / 2 in
  let centerY := GRID_SIZE / 2 in
  let grid :=
    updCell (λ c, mkCell (cell_x c) (cell_y c) (isRevealed c)
                    (Some (mkBuilding castle 1 player 20 []))
                    (terrain c) (resources c) (adjacencyBonus c))
            centerX centerY grid in
  revealAdjacentCells centerX centerY grid.

Definition initialState (rnd : nat → nat → Q * Q) : GameState :=
  mkState (initialGrid rnd) 1 day false (mkPlayer 300 10 5 50 5) None placement
    (mkRC 0 0 0 0) (mkRC 0 0 0 0) [] false false
    (js_round ((9 / inject_Z (GRID_SIZE * GRID_SIZE)) * 100)%Q)
    (seasonAt 0) INITIAL_ACHIEVEMENTS false None false false.

(** ** Sequences of operations *)

Inductive Action :=
  | Place (x y : Z) (t : BuildingType)
  | EndTurn (d : Draws).

Definition step (s : GameState) (a : Action) : GameState :=
  match a with
  | Place x y t => stateAfter s (placeBuilding s x y t)
  | EndTurn d => nextTurn s d
  end.

Definition run (s : GameState) (actions : list Action) : GameState :=
  fold_left step actions s.

(** ** Clicks, drag and drop *)

Record DragState := mkDrag {
  isDragging : bool;
  draggedBuilding : option BuildingType;
  dragOverCell : option (Z * Z)
}.

(** The component state that the input handlers read and write: the game
    state and the [placingBuilding] and [dragState] hooks. *)
Record Ui := mkUi {
  ui_game : GameState;
  placingBuilding : option BuildingType;
  dragState : DragState
}.

Definition handleDragStart (t : BuildingType) (u : Ui) : Ui :=
  mkUi (ui_game u) (placingBuilding u) (mkDrag true (Some t) None).

Definition handleDragEnd (u : Ui) : Ui :=
  mkUi (ui_game u) (placingBuilding u) (mkDrag false None None).

Definition handleDragOver (x y : Z) (u : Ui) : Ui :=
  mkUi (ui_game u) (placingBuilding u)
    (mkDrag (isDragging (dragState u)) (draggedBuilding (dragState u)) (Some (x, y))).

Definition handleDragLeave (u : Ui) : Ui :=
  mkUi (ui_game u) (placingBuilding u)
    (mkDrag (isDragging (dragState u)) (draggedBuilding (dragState u)) None).

(** [isValidPlacement(x, y, t) && canAffordBuilding(t)], evaluated from left
    to right; [None] when one of the two throws. *)
Definition validAndAffordable (s : GameState) (x y : Z) (t : BuildingType)
    : option bool :=
  match isValidPlacement (grid s) x y t with
  | None => None
  | Some false => Some false
  | Some true => canAffordBuilding (gs_player s) t
  end.

(** [handleDrop] for the building type read from the drag data.  [None] is a
    [TypeError] raised by the test: the handler stops there and neither the
    game nor the drag state is written. *)
Definition handleDrop (t : BuildingType) (x y : Z) (u : Ui) : option Ui :=
  match validAndAffordable (ui_game u) x y t with
  | None => None
  | Some ok =>
      let game :=
        if ok then stateAfter (ui_game u) (placeBuilding (ui_game u) x y t)
        else ui_game u in
      Some (handleDragEnd (mkUi game (placingBuilding u) (dragState u)))
  end.

Definition selectCell (s : GameState) (x y : Z) : GameState :=
  mkState (grid s) (turn s) (timeOfDay s) (isTransitioning s) (gs_player s)
    (Some (x, y)) (gamePhase s) (resourceChanges s) (lastTurnIncome s)
    (turnEvents s) (showTurnSummary s) (showEndTurnConfirm s)
    (territoryControlPercentage s) (currentSeason s) (achievements s)
    (gameWon s) (victoryType s) (showVictoryScreen s) (isLoading s).

(** [handleCellClick]; [None] is a [TypeError], which leaves everything as
    it was. *)
Definition handleCellClick (x y : Z) (u : Ui) : option Ui :=
  match placingBuilding u with
  | Some t =>
      match validAndAffordable (ui_game u) x y t with
      | None => None
      | Some true =>
          Some (mkUi (stateAfter (ui_game u) (placeBuilding (ui_game u) x y t))
                     None (dragState u))
      | Some false => Some u
      end
  | None =>
      match cellAt (grid (ui_game u)) x y with
      | None => None
      | Some cell =>
          if negb (isRevealed cell) then Some u
          else Some (mkUi (selectCell (ui_game u) x y) (placingBuilding u)
                          (dragState u))
      end
  end.

(** [getPlacementFeedback]: the highlight classes of a cell; [None] is a
    [TypeError]. *)
Definition getPlacementFeedback (u : Ui) (cell : Cell) : option string :=
  match (match draggedBuilding (dragState u) with
         | Some t => Some t
         | None => placingBuilding u
         end) with
  | None => Some ""
  | Some buildingToValidate =>
      if negb (isRevealed cell) || bool_decide (is_Some (building cell))
         || isWater (terrain cell)
      then Some ""
      else
        match validAndAffordable (ui_game u) (cell_x cell) (cell_y cell)
                buildingToValidate with
        | None => None
        | Some isValid =>
            let isDragOver :=
              match dragOverCell (dragState u) with
              | Some (ox, oy) => (ox =? cell_x cell) && (oy =? cell_y cell)
              | None => false
              end in
            if isDragOver then
              Some (if isValid
                    then "bg-green-400 bg-opacity-50 ring-2 ring-green-300"
                    else "bg-red-400 bg-opacity-50 ring-2 ring-red-300")
            else if bool_decide (is_Some (placingBuilding u))
                    || isDragging (dragState u)
            then Some (if isValid then "bg-green-400 bg-opacity-40"
                       else "bg-red-400 bg-opacity-30")
            else Some ""
        end
  end.

(** [confirmEndTurn], [cancelEndTurn] and [closeTurnSummary]. *)
Definition setEndTurnConfirm (b : bool) (s : GameState) : GameState :=
  mkState (grid s) (turn s) (timeOfDay s) (isTransitioning s) (gs_player s)
    (selectedCell s) (gamePhase s) (resourceChanges s) (lastTurnIncome s)
    (turnEvents s) (showTurnSummary s) b
    (territoryControlPercentage s) (currentSeason s) (achievements s)
    (gameWon s) (victoryType s) (showVictoryScreen s) (isLoading s).

Definition confirmEndTurn : GameState → GameState := setEndTurnConfirm true.
Definition cancelEndTurn : GameState → GameState := setEndTurnConfirm false.

Definition closeTurnSummary (s : GameState) : GameState :=
  mkState (grid s) (turn s) (timeOfDay s) (isTransitioning s) (gs_player s)
    (selectedCell s) (gamePhase s) (resourceChanges s) (lastTurnIncome s)
    (turnEvents s) false (showEndTurnConfirm s)
    (territoryControlPercentage s) (currentSeason s) (achievements s)
    (gameWon s) (victoryType s) (showVictoryScreen s) (isLoading s).

(** ** The events of the page

    The events that reach a handler of the component.  The palette starts a
    drag only for a building that the player can pay
    ([canAfford && handleDragStart(e, buildingType)]); the building type of a
    drop is the one read from the drag data.  A handler that throws leaves
    every state hook as it was.  The buttons call their handlers whether or
    not the page currently shows them, so the sequences of events considered
    here include all those that the rendered page allows. *)
Inductive UiEvent :=
  | CellClick (x y : Z)
  | PaletteDragStart (t : BuildingType)
  | PaletteDragEnd
  | CellDragOver (x y : Z)
  | CellDragLeave
  | CellDrop (t : BuildingType) (x y : Z)
  | CancelPlacing
  | EndTurnButton
  | ConfirmButton (d : Draws)
  | CancelButton
  | CloseSummary.

Definition withGame (f : GameState → GameState) (u : Ui) : Ui :=
  mkUi (f (ui_game u)) (placingBuilding u) (dragState u).

Definition uiStep (u : Ui) (e : UiEvent) : Ui :=
  match e with
  | CellClick x y => default u (handleCellClick x y u)
  | PaletteDragStart t =>
      match canAffordBuilding (gs_player (ui_game u)) t with
      | Some true => handleDragStart t u
      | _ => u
      end
  | PaletteDragEnd => handleDragEnd u
  | CellDragOver x y => handleDragOver x y u
  | CellDragLeave => handleDragLeave u
  | CellDrop t x y => default u (handleDrop t x y u)
  | CancelPlacing => mkUi (ui_game u) None (dragState u)
  | EndTurnButton => withGame confirmEndTurn u
  | ConfirmButton d => withGame (λ s, nextTurn s d) u
  | CancelButton => withGame cancelEndTurn u
  | CloseSummary => withGame closeTurnSummary u
  end.

(** The hooks as [useState] initialises them. *)
Definition initialUi (rnd : nat → nat → Q * Q) : Ui :=
  mkUi (initialState rnd) None (mkDrag false None None).

Definition uiRun (u : Ui) (events : list UiEvent) : Ui :=
  fold_left uiStep events u.

(** ** Specification-side definitions

    The definitions below follow the wording of the specification; the
    theorems compare them with the functions above. *)

Definition sumZ (l : list Z) : Z := foldr Z.add 0 l.

(** Sum of [f] over the cells that hold a player-owned building. *)
Definition sumOverPlayerBuildings (f : Cell → Building → Z) (g : Grid) : Z :=
  sumZ (omap (λ c, f c <$> playerBuilding c) (flat g)).

(** Production minus consumption of a building type for one resource. *)
Definition net (resource : ResourceChange → Z) (t : BuildingType) : Z :=
  resource (produces (BUILDING_EFFECTS t)) - resource (consumes (BUILDING_EFFECTS t)).

(** Base delta plus the net effect of every player-owned building, the stored
    adjacency bonus of the cell going to gold only. *)
Definition turnResourcesSpec (g : Grid) : ResourceChange :=
  mkRC (5 + sumOverPlayerBuildings (λ c b, net rc_gold (type b) + adjacencyBonus c) g)
       (1 + sumOverPlayerBuildings (λ _ b, net rc_population (type b)) g)
       (-2 + sumOverPlayerBuildings (λ _ b, net rc_food (type b)) g)
       (0 + sumOverPlayerBuildings (λ _ b, net rc_military (type b)) g).

(** A grid as the initialiser builds it: [GRID_SIZE] rows of [GRID_SIZE]
    cells, each cell recording its own column and row. *)
Definition wellFormed (g : Grid) : Prop :=
  length g = Z.to_nat GRID_SIZE ∧
  Forall (λ row, length row = Z.to_nat GRID_SIZE) g ∧
  ∀ p c, cellObj g p = Some c →
    cell_x c = Z.of_nat p.2 ∧ cell_y c = Z.of_nat p.1.

(** The type of the player-owned building at [(x, y)], if there is one. *)
Definition playerTypeAt (g : Grid) (x y : Z) : option BuildingType :=
  cellAt g x y ≫= (λ c, type <$> playerBuilding c).

(** The eight directions [(dx, dy)]. *)
Definition directions : list (Z * Z) :=
  [(-1, -1); (0, -1); (1, -1); (-1, 0); (1, 0); (-1, 1); (0, 1); (1, 1)].

(** The in-bounds cells adjacent to [(x, y)]. *)
Definition neighbours (x y : Z) : list (Z * Z) :=
  filter (λ p, inBounds p.1 p.2 = true) ((λ d, (x + d.1, y + d.2)) <$> directions).

(** The entry [ADJACENCY_BONUSES[t][n]], 0 when the pair has no entry. *)
Definition adjacencyEntry (t n : BuildingType) : Z :=
  match ADJACENCY_BONUSES t n with
  | Some v => v
  | None => 0
  end.

(** What the cell at [p] contributes to the bonus of a building of type [t]:
    the entry for its building when it holds a player-owned one. *)
Definition contribution (g : Grid) (t : BuildingType) (p : Z * Z) : Z :=
  match playerTypeAt g p.1 p.2 with
  | Some n => adjacencyEntry t n
  | None => 0
  end.

(** Sum of the entries over the neighbours that hold a player-owned building. *)
Definition adjacencySum (g : Grid) (x y : Z) (t : BuildingType) : Z :=
  sumZ (contribution g t <$> neighbours x y).

(** [d] is the Chebyshev distance from [(x, y)] to the nearest player-owned
    building. *)
Definition isNearestDistance (g : Grid) (x y : Z) (d : Z) : Prop :=
  (∃ c, c ∈ flat g ∧ isPlayerCell c = true
        ∧ d = Z.max (Z.abs (x - cell_x c)) (Z.abs (y - cell_y c))) ∧
  (∀ c, c ∈ flat g → isPlayerCell c = true →
        d ≤ Z.max (Z.abs (x - cell_x c)) (Z.abs (y - cell_y c))).

(** The conditions under which the specification allows a placement. *)
Definition placementAllowed (s : GameState) (x y : Z) (t : BuildingType) : Prop :=
  ∃ cell cost,
    cellAt (grid s) x y = Some cell ∧
    isRevealed cell = true ∧
    building cell = None ∧
    terrain cell ≠ water ∧
    terrain cell ∈ validTerrain (PLACEMENT_RULES t) ∧
    (t ≠ castle →
       ∃ d, isNearestDistance (grid s) x y d ∧
            minDistance (PLACEMENT_RULES t) ≤ d ≤ maxDistance (PLACEMENT_RULES t)) ∧
    BUILDING_COSTS t = Some cost ∧
    cost_gold cost ≤ gold (gs_player s) ∧
    cost_food cost ≤ food (gs_player s) ∧
    cost_population cost ≤ population (gs_player s).

(** The five resource totals of the player are non-negative. *)
Definition nonNegative (p : Player) : Prop :=
  0 ≤ gold p ∧ 0 ≤ food p ∧ 0 ≤ population p ∧ 0 ≤ militaryStrength p ∧ 0 ≤ army p.

(** Number of revealed cells. *)
Definition revealedCount (g : Grid) : Z :=
  Z.of_nat (length (filter (λ c, isRevealed c = true) (flat g))).

(** round(100 times the number of revealed cells divided by 144). *)
Definition territorySpec (g : Grid) : Z :=
  js_round (100 * inject_Z (revealedCount g) / 144)%Q.

(** The three victory conditions. *)
Definition territoryVictory (s : GameState) : Prop :=
  60 ≤ territoryControlPercentage s.

Definition resourceVictory (s : GameState) : Prop :=
  5000 ≤ gold (gs_player s) ∧ 200 ≤ population (gs_player s) ∧
  500 ≤ food (gs_player s) ∧ 100 ≤ militaryStrength (gs_player s).

(** The [all_buildings] achievement is unlocked. *)
Definition allBuildingsUnlocked (s : GameState) : Prop :=
  ∃ a, find (λ a, String.eqb (id a) "all_buildings") (achievements s) = Some a
       ∧ unlocked a = true.

(** The stored [all_buildings] flag agrees with the grid of the state. *)
Definition architectInSync (s : GameState) : Prop :=
  ∃ a, find (λ a, String.eqb (id a) "all_buildings") (achievements s) = Some a
       ∧ unlocked a = (7 <=? Z.of_nat (length (uniqueBuildings (grid s)))).

(** The player owns a building of type [t]. *)
Definition hasBuilt (g : Grid) (t : BuildingType) : Prop :=
  ∃ c b, c ∈ flat g ∧ playerBuilding c = Some b ∧ type b = t.

(** A grid in the middle of the [forEach] of [updateAllAdjacencyBonuses]
    started on [g0]: every cell object is either still as in [g0] or already
    refreshed. *)
Definition partlyRefreshed (g0 g : Grid) : Prop :=
  Forall2 (Forall2 (λ c0 c, c = c0 ∨ c = refreshCell g0 c0)) g0 g.

(** The cell object at [q] has been refreshed. *)
Definition refreshedAt (g0 : Grid) (q : nat * nat) (g : Grid) : Prop :=
  option_Forall2 (λ c0 c, c = refreshCell g0 c0) (cellObj g0 q) (cellObj g q).

(** A cell is no less revealed in [g'] than in [g], position by position. *)
Definition revealedLe (g g' : Grid) : Prop :=
  Forall2 (Forall2 (λ c c', isRevealed c = true → isRevealed c' = true)) g g'.

(** A cell taken into account by [findNearestBuilding]: it holds a
    player-owned building, of the requested type when one is requested. *)
Definition countsFor (bt : option BuildingType) (c : Cell) : bool :=
  match playerBuilding c with
  | Some b =>
      match bt with
      | None => true
      | Some t => bool_decide (type b = t)
      end
  | None => false
  end.

(** Some player-owned building stands on [(x, y)] or next to it. *)
Definition nearBuilding (g : Grid) (x y : Z) : Prop :=
  ∃ bx by', is_Some (playerTypeAt g bx by') ∧ calculateDistance x y bx by' ≤ 1.

(** Every revealed cell has a player-owned building on it or next to it. *)
Definition revealedNearBuildings (g : Grid) : Prop :=
  ∀ x y c, cellAt g x y = Some c → isRevealed c = true → nearBuilding g x y.

(** The list has the identifiers and targets of [INITIAL_ACHIEVEMENTS], in
    the same order. *)
Definition sameCatalogue (achs : list Achievement) : Prop :=
  (λ a, (id a, maxProgress a)) <$> achs
  = (λ a, (id a, maxProgress a)) <$> INITIAL_ACHIEVEMENTS.

(** The list of events holds one of type [t]. *)
Definition hasEvent (t : EventType) (events : list TurnEvent) : Prop :=
  ∃ e, e ∈ events ∧ ev_type e = t.

(** Number of turn advances in a sequence of operations. *)
Fixpoint endTurns (actions : list Action) : nat :=
  match actions with
  | [] => 0
  | EndTurn _ :: rest => S (endTurns rest)
  | Place _ _ _ :: rest => endTurns rest
  end.

(** The [first_building] achievement is unlocked, with its progress full. *)
Definition firstBuildingUnlocked (s : GameState) : Prop :=
  ∃ a, find (λ a, String.eqb (id a) "first_building") (achievements s) = Some a
       ∧ unlocked a = true ∧ progress a = 1.

(** The other time of day. *)
Definition otherTime (t : TimeOfDay) : TimeOfDay :=
  match t with day => night | night => day end.

(** What the random event of a turn adds to the resources: one of the
    three discoveries, the toll of the bandits, or nothing. *)
Definition randomBonus (d : Draws) : ResourceChange :=
  if Qltb 0.1 (randomChance d) && Qltb (randomChance d) 0.18 then
    match js_floor (pick d * 3)%Q with
    | 0 => mkRC 200 0 0 0
    | 1 => mkRC 0 0 50 0
    | _ => mkRC 0 20 0 0
    end
  else if Qltb 0.18 (randomChance d) && Qltb (randomChance d) 0.23
  then mkRC (-50) 0 (-20) 5
  else mkRC 0 0 0 0.

(** A game state without the fields that only the page's dialogs and the
    selection use: [selectedCell], [showTurnSummary], [showEndTurnConfirm]. *)
Definition forgetUi (s : GameState) : GameState :=
  mkState (grid s) (turn s) (timeOfDay s) (isTransitioning s) (gs_player s)
    None (gamePhase s) (resourceChanges s) (lastTurnIncome s)
    (turnEvents s) false false
    (territoryControlPercentage s) (currentSeason s) (achievements s)
    (gameWon s) (victoryType s) (showVictoryScreen s) (isLoading s).


(** The drag flags agree: a building is recorded exactly while dragging. *)
Definition dragConsistent (ds : DragState) : Prop :=
  isDragging ds = true ↔ is_Some (draggedBuilding ds).

(** The selected cell, when there is one, is a revealed cell of the grid. *)
Definition selectionRevealed (s : GameState) : Prop :=
  ∀ x y, selectedCell s = Some (x, y) →
         ∃ c, cellAt (grid s) x y = Some c ∧ isRevealed c = true.

(** The four fields that record a victory say the same thing, and the phase
    is [placement] until then. *)
Definition victoryFlagsAgree (s : GameState) : Prop :=
  (gameWon s = true ↔ showVictoryScreen s = true) ∧
  (gameWon s = true ↔ gamePhase s = victory) ∧
  (gameWon s = false ↔ gamePhase s = placement) ∧
  (gameWon s = true ↔ is_Some (victoryType s)).

(** The two green highlight classes of [getPlacementFeedback]. *)
Definition isGreen (classes : string) : Prop :=
  classes = "bg-green-400 bg-opacity-50 ring-2 ring-green-300"
  ∨ classes = "bg-green-400 bg-opacity-40".

(** ** Sample data *)

(** Draws that make every cell grass with 20 resources. *)
Definition allGrass : nat → nat → Q * Q := λ _ _, (0.5%Q, 0.5%Q).

Definition sampleState : GameState := initialState allGrass.

(** Draws without a random event, and draws with a gold discovery. *)
Definition quietDraws : Draws := mkDraws 0.5 0.5.
Definition otherQuietDraws : Draws := mkDraws 0.9 0.2.
Definition discoveryDraws : Draws := mkDraws 0.15 0.1.

(** The page while a house is dragged, and the cell west of the castle. *)
Definition draggingHouse : Ui :=
  uiStep (initialUi allGrass) (PaletteDragStart house).

Definition westOfCastle : Cell :=
  default (initialCell allGrass 6 5) (cellAt (grid sampleState) 5 6).

(** Draws with a food discovery. *)
Definition fertileDraws : Draws := mkDraws 0.15 0.5.

(** Sixty-three turns: 24 without a random event, 26 with a gold discovery,
    13 with a food discovery. *)
Definition longReign : list Action :=
  replicate 24 (EndTurn quietDraws) ++ replicate 26 (EndTurn discoveryDraws)
  ++ replicate 13 (EndTurn fertileDraws).

End Empire.

Module Gallery.

(** ** Connection and viewport detection of the photo gallery *)

Inductive EffectiveType := conn_4g | conn_3g | conn_2g | conn_slow_2g.

#[global] Instance EffectiveType_eq_dec : EqDecision EffectiveType.
Proof. solve_decision. Defined.

(** [ConnectionInfo]; every field is optional in the source. *)
Record ConnectionInfo := mkConnection {
  effectiveType : option EffectiveType;
  saveData : option bool;
  downlink : option Q;
  rtt : option Q
}.

(** The three places where the browser may expose the connection. *)
Record NavigatorWithConnection := mkNavigator {
  connection : option ConnectionInfo;
  mozConnection : option ConnectionInfo;
  webkitConnection : option ConnectionInfo
}.

Inductive Speed := fast | slow.
Inductive LoadingStrategy := infinite_scroll | load_more | pagination.

(** What the detection reads from the browser: [window.innerWidth],
    [window.innerHeight], [containerRef.current?.offsetWidth] and
    [navigator]. *)
Record Browser := mkBrowser {
  innerWidth : Z;
  innerHeight : Z;
  containerWidth : option Z;
  navigator : NavigatorWithConnection
}.

(** The component state written by the detection. *)
Record LayoutState := mkLayout {
  isPortrait : bool;
  columnCount : Z;
  viewportWidth : Z;
  viewportHeight : Z;
  connectionSpeed : Speed;
  isSlowConnection : bool;
  loadingStrategy : LoadingStrategy
}.

(** [a || b] on optional objects. *)
Definition orElse {A} (a b : option A) : option A :=
  match a with Some _ => a | None => b end.

Definition slowTypes : list EffectiveType := [conn_slow_2g; conn_2g; conn_3g].

(** [isSlowConnectionDetected] of [detectConnectionSpeed].  A number is
    truthy when it is not zero, which matters for [downlink]. *)
Definition isSlowConnectionDetected (c : ConnectionInfo) : bool :=
  let isSlowType :=
    match effectiveType c with
    | Some e => bool_decide (e ∈ slowTypes)
    | None => false
    end in
  let isSaveDataEnabled :=
    match saveData c with Some true => true | _ => false end in
  let isSlowDownlink :=
    match downlink c with
    | Some dl => negb (Qeq_bool dl 0) && Qltb dl 1.5
    | None => false
    end in
  let isHighRTT :=
    match rtt c with
    | Some r => negb (Qeq_bool r 0) && Qltb 300 r
    | None => false
    end in
  isSlowType || isSaveDataEnabled || isSlowDownlink || isHighRTT.

(** The value returned by [detectConnectionSpeed]. *)
Definition detectedSpeed (nav : NavigatorWithConnection) : Speed :=
  match orElse (connection nav) (orElse (mozConnection nav) (webkitConnection nav)) with
  | Some c => if isSlowConnectionDetected c then slow else fast
  | None => fast
  end.

(** [detectConnectionSpeed]: the state it writes and the speed it returns. *)
Definition detectConnectionSpeed (nav : NavigatorWithConnection) (st : LayoutState)
    : LayoutState * Speed :=
  let speed := detectedSpeed nav in
  (mkLayout (isPortrait st) (columnCount st) (viewportWidth st) (viewportHeight st)
     speed (match speed with slow => true | fast => false end)
     (loadingStrategy st),
   speed).

Definition columnsFor (containerWidth : Z) : Z :=
  if 1536 <=? containerWidth then 6
  else if 1280 <=? containerWidth then 5
  else if 1024 <=? containerWidth then 4
  else if 768 <=? containerWidth then 3
  else if 640 <=? containerWidth then 2
  else 1.

Definition updateViewportInfo (b : Browser) (st : LayoutState) : LayoutState :=
  let width := innerWidth b in
  let height := innerHeight b in
  let portrait := width <? height in
  let columns :=
    match containerWidth b with
    | Some w => columnsFor w
    | None => columnCount st
    end in
  let st1 := mkLayout portrait columns width height (connectionSpeed st)
               (isSlowConnection st) (loadingStrategy st) in
  let '(st2, speed) := detectConnectionSpeed (navigator b) st1 in
  let isDesktop := negb portrait in
  let isFastConnection := match speed with fast => true | slow => false end in
  let strategy :=
    if isDesktop then
      if isFastConnection then infinite_scroll else load_more
    else pagination in
  mkLayout (isPortrait st2) (columnCount st2) (viewportWidth st2)
    (viewportHeight st2) (connectionSpeed st2) (isSlowConnection st2) strategy.

(** The state of the component before the first detection. *)
Definition initialLayout (b : Browser) : LayoutState :=
  mkLayout (innerWidth b <? innerHeight b) 4 (innerWidth b) (innerHeight b)
    fast false infinite_scroll.

(** ** Sample data *)

Definition fastConnection : ConnectionInfo :=
  mkConnection (Some conn_4g) (Some false) (Some 10%Q) (Some 50%Q).

Definition slowConnection : ConnectionInfo :=
  mkConnection (Some conn_3g) None None None.

Definition desktopFast : Browser :=
  mkBrowser 1920 1080 (Some 1600) (mkNavigator (Some fastConnection) None None).

Definition desktopSlow : Browser :=
  mkBrowser 1920 1080 (Some 1600) (mkNavigator None (Some slowConnection) None).

Definition phone : Browser :=
  mkBrowser 390 844 (Some 390) (mkNavigator (Some fastConnection) None None).

(** ** Photos and paging *)

Record Photo := mkPhoto {
  photo_id : string;
  url : string;
  width : Z;
  height : Z;
  title : string;
  color : string;
  loaded : bool
}.

Definition ITEMS_PER_PAGE : Z := 20.

(** The paging hooks of the component. *)
Record Pager := mkPager {
  photos : list Photo;
  currentPage : Z;
  isLoading : bool;
  hasError : bool;
  totalPages : Z;
  allPhotos : list Photo
}.

(** The hooks as [useState] initialises them. *)
Definition initialPager : Pager := mkPager [] 1 false false 1 [].

(** [Array.prototype.slice(start, end)] on integer arguments: a negative
    index counts from the end, and both are clamped to the array. *)
Definition slice {A} (start stop : Z) (l : list A) : list A :=
  let len := Z.of_nat (length l) in
  let clamp i := if i <? 0 then Z.max (len + i) 0 else Z.min i len in
  take (Z.to_nat (clamp stop - clamp start)) (drop (Z.to_nat (clamp start)) l).

(** What the photo service and the random choices of [generatePhotos] give
    for one call: the photos built from the answer for a page, or [None]
    when the request fails.  A load never asks twice for the same page, so
    one such function per load describes every behaviour. *)
Definition Server := Z → option (list Photo).

(** [generatePhotos(page)]: the photos it resolves to, and whether it called
    [setHasError(true)].  A failure is caught inside and gives no photos. *)
Definition generatePhotos (server : Server) (page : Z) : list Photo * bool :=
  match server page with
  | Some l => (l, false)
  | None => ([], true)
  end.

Definition updateLoadedFlag (photoId : string) (p : Photo) : Photo :=
  if bool_decide (photo_id p = photoId)
  then mkPhoto (photo_id p) (url p) (width p) (height p) (title p) (color p) true
  else p.

Definition handleImageLoad (strategy : LoadingStrategy) (photoId : string)
    (st : Pager) : Pager :=
  mkPager (updateLoadedFlag photoId <$> photos st) (currentPage st)
    (isLoading st) (hasError st) (totalPages st)
    (match strategy with
     | pagination => updateLoadedFlag photoId <$> allPhotos st
     | _ => allPhotos st
     end).

(** [loadMorePhotos], from the call to the end of its [finally] block. *)
Definition loadMorePhotos (server : Server) (st : Pager) : Pager :=
  if isLoading st then st
  else
    let '(newPhotos, failed) := generatePhotos server (currentPage st) in
    mkPager (photos st ++ newPhotos) (currentPage st + 1) false failed
      (totalPages st) (allPhotos st).

(** [loadPage], from the call to the end of its [finally] block. *)
Definition loadPage (server : Server) (page : Z) (st : Pager) : Pager :=
  if isLoading st then st
  else
    let startIndex := (page - 1) * ITEMS_PER_PAGE in
    let endIndex := startIndex + ITEMS_PER_PAGE in
    let newTotalPages := Z.max (totalPages st) (page + 2) in
    if Z.of_nat (length (allPhotos st)) <? endIndex then
      let currentMaxPage := Z.of_nat (length (allPhotos st)) / ITEMS_PER_PAGE in
      let pagesToFetch := seqZ (currentMaxPage + 1) (page - currentMaxPage) in
      let newPhotosArrays := generatePhotos server <$> pagesToFetch in
      let flattenedNewPhotos := concat (fst <$> newPhotosArrays) in
      let updatedAllPhotos := allPhotos st ++ flattenedNewPhotos in
      mkPager (slice startIndex endIndex updatedAllPhotos) page false
        (existsb snd newPhotosArrays) newTotalPages updatedAllPhotos
    else
      mkPager (slice startIndex endIndex (allPhotos st)) page false false
        newTotalPages (allPhotos st).

Definition goToNextPage (server : Server) (st : Pager) : Pager :=
  if currentPage st <? totalPages st then loadPage server (currentPage st + 1) st
  else st.

Definition goToPreviousPage (server : Server) (st : Pager) : Pager :=
  if 1 <? currentPage st then loadPage server (currentPage st - 1) st
  else st.

Definition goToPage (server : Server) (page : Z) (st : Pager) : Pager :=
  if (1 <=? page) && (page <=? totalPages st) then loadPage server page st
  else st.

(** The numbered buttons drawn by [renderPageNumbers]. *)
Definition pageNumbers (st : Pager) : list Z :=
  let startPage := Z.max 1 (currentPage st - 2) in
  let endPage := Z.min (totalPages st) (currentPage st + 2) in
  seqZ startPage (endPage - startPage + 1).

(** What happens on the page while it paginates: the three ways to change
    page, and an image that has finished loading. *)
Inductive PagerCall :=
  | NextPage (server : Server)
  | PreviousPage (server : Server)
  | GoToPage (page : Z) (server : Server)
  | ImageLoaded (photoId : string).

Definition pagerStep (st : Pager) (c : PagerCall) : Pager :=
  match c with
  | NextPage server => goToNextPage server st
  | PreviousPage server => goToPreviousPage server st
  | GoToPage page server => goToPage server page st
  | ImageLoaded photoId => handleImageLoad pagination photoId st
  end.

Definition pagerRun (st : Pager) (calls : list PagerCall) : Pager :=
  fold_left pagerStep calls st.

(** ** Specification-side definitions *)

(** The paging state is settled and its page number is one of the pages. *)
Definition inRange (st : Pager) : Prop :=
  isLoading st = false ∧ 1 ≤ currentPage st ≤ totalPages st ∧
  (length (photos st) ≤ 20)%nat.

Definition ids (l : list Photo) : list string := photo_id <$> l.

(** The service answers every page from the first on with a full page. *)
Definition fullPages (server : Server) : Prop :=
  ∀ p, 1 ≤ p → ∃ l, server p = Some l ∧ length l = 20%nat.

(** The service asked by a call, if it asks one. *)
Definition serverOf (c : PagerCall) : option Server :=
  match c with
  | NextPage server | PreviousPage server | GoToPage _ server => Some server
  | ImageLoaded _ => None
  end.

(** A call that asks a service gets the answers of [server]. *)
Definition asks (server : Server) (c : PagerCall) : Prop :=
  ∀ s, serverOf c = Some s → ∀ p, s p = server p.

(** Calls of [loadMorePhotos], one service per call. *)
Definition loadMoreRun (st : Pager) (servers : list Server) : Pager :=
  fold_left (λ st server, loadMorePhotos server st) servers st.

(** The answer for a page, nothing when the request fails. *)
Definition answer (server : Server) (p : Z) : list Photo :=
  (generatePhotos server p).1.

(** The paging state holds the answers of [server] for the pages 1 to [k] and
    shows the answer for the current page, up to the [loaded] flags. *)
Definition holdsPages (server : Server) (k : Z) (st : Pager) : Prop :=
  isLoading st = false ∧ 1 ≤ currentPage st ≤ k ∧
  ids (allPhotos st) = ids (concat (answer server <$> seqZ 1 k)) ∧
  ids (photos st) = ids (answer server (currentPage st)).

(** ** Sample data *)

Definition samplePhoto (p i : Z) : Photo :=
  mkPhoto (string_of_Z ((p - 1) * 20 + i)) "u" 600 400 "Ocean Waves" "bg-blue-500" false.

(** A service with full pages up to page 3 and failures after that. *)
Definition sampleServer : Server :=
  λ p, if p <=? 3 then Some (samplePhoto p <$> seqZ 0 20) else None.

(** A service that always answers with a full page. *)
Definition endlessServer : Server :=
  λ p, Some (samplePhoto p <$> seqZ 0 20).

End Gallery.

(** * Properties of the rules engine *)

Module EmpireFacts.
Import Empire.

(** ** Arithmetic helpers *)

Lemma orZero_id z : orZero z = z.
Proof. unfold orZero. destruct (Z.eqb_spec z 0); congruence. Qed.

(** [Math.round] rounds a tie upwards, also below zero. *)
Example js_round_ties :
  js_round 2.5 = 3 ∧ js_round (-2.5) = -2 ∧ js_round (-0.5) = 0 ∧
  js_round (scale (-7) 0.2) = -1 ∧ js_round (scale 25 0.1) = 3.
Proof. repeat split; reflexivity. Qed.

Example includes_samples :
  includes "Miners discovered a rich gold vein! +200 gold bonus." "gold" = true ∧
  includes "Fertile lands discovered! +50 food production." "gold" = false ∧
  includes "abc" "" = true ∧ includes "" "a" = false.
Proof. repeat split; reflexivity. Qed.

(** The first turn of the sample state: the castle alone yields 25 gold,
    3 population, -7 food and 5 military; Spring adds round(2.5) = 3 gold and
    round(-1.4) = -1 food. *)
Example first_turn_of_sample :
  calculateTurnResources (grid sampleState) = mkRC 25 3 (-7) 5 ∧
  resourceChanges (nextTurn sampleState quietDraws) = mkRC 28 3 (-8) 5 ∧
  gs_player (nextTurn sampleState quietDraws) = mkPlayer 328 13 7 42 10 ∧
  season_name (currentSeason (nextTurn sampleState quietDraws)) = Spring ∧
  turn (nextTurn sampleState quietDraws) = 2%nat.
Proof. vm_compute. repeat split; reflexivity. Qed.

(** A house placed next to the castle: both buildings then earn the bonus of
    their neighbour (15 for the house, 10 for the castle). *)
Example house_next_to_castle :
  let s' := stateAfter sampleState (placeBuilding sampleState 5 6 house) in
  (income <$> (cellAt (grid s') 5 6 ≫= building)) = Some 20 ∧
  (income <$> (cellAt (grid s') 6 6 ≫= building)) = Some 30 ∧
  gs_player s' = mkPlayer 250 12 5 45 5 ∧
  territoryControlPercentage s' = 8 ∧
  placeBuilding sampleState 5 6 barracks = Rejected ∧
  placeBuilding sampleState 5 6 castle = Threw ∧
  placeBuilding sampleState 12 6 house = Threw ∧
  placeBuilding sampleState 2 2 house = Rejected.
Proof. vm_compute. repeat split; reflexivity. Qed.

(** ** Turn resources *)

Lemma sumZ_omap_cons {A} (f : A → option Z) (a : A) (l : list A) :
  sumZ (omap f (a :: l)) =
  match f a with
  | Some z => z + sumZ (omap f l)
  | None => sumZ (omap f l)
  end.
Proof. cbn. destruct (f a); reflexivity. Qed.

Lemma turnResources_fold (l : list Cell) (acc : ResourceChange) :
  fold_left turnResourcesStep l acc =
  mkRC (rc_gold acc
        + sumZ (omap (λ c, (λ b, net rc_gold (type b) + adjacencyBonus c)
                             <$> playerBuilding c) l))
       (rc_population acc
        + sumZ (omap (λ c, (λ b, net rc_population (type b))
                             <$> playerBuilding c) l))
       (rc_food acc
        + sumZ (omap (λ c, (λ b, net rc_food (type b)) <$> playerBuilding c) l))
       (rc_military acc
        + sumZ (omap (λ c, (λ b, net rc_military (type b))
                             <$> playerBuilding c) l)).
Proof.
  revert acc. induction l as [|c l IH]; intros acc.
  - destruct acc; cbn. f_equal; lia.
  - cbn [fold_left]. rewrite IH, !sumZ_omap_cons. unfold turnResourcesStep.
    destruct (playerBuilding c) as [b|]; cbn [fmap option_fmap option_map];
      [|reflexivity].
    rewrite orZero_id. unfold net. cbn [rc_gold rc_population rc_food rc_military].
    f_equal; lia.
Qed.

(** C1.  For every grid, [calculateTurnResources] returns the base delta
    (gold +5, population +1, food -2, military 0) plus, for every
    player-owned building, the production minus the consumption of its type
    from [BUILDING_EFFECTS], the adjacency bonus stored in the cell being
    added to the gold delta only. *)
Theorem calculateTurnResources_aggregates (s : GameState) :
  calculateTurnResources (grid s) = turnResourcesSpec (grid s).
Proof.
  unfold calculateTurnResources, turnResourcesSpec, sumOverPlayerBuildings.
  apply turnResources_fold.
Qed.

(** ** The grid as a store of cell objects *)

Lemma cellObj_updObj f p q g :
  cellObj (updObj f p g) q =
  if decide (p = q) then f <$> cellObj g q else cellObj g q.
Proof.
  destruct p as [i j], q as [i' j']. unfold cellObj, updObj. cbn [fst snd].
  rewrite list_lookup_alter.
  destruct (decide (i = i')) as [->|Hi].
  - destruct (g !! i') as [row|]; cbn.
    + rewrite list_lookup_alter.
      destruct (decide (j = j')) as [->|Hj].
      * rewrite decide_True by reflexivity. reflexivity.
      * rewrite decide_False by congruence. reflexivity.
    + destruct (decide _); reflexivity.
  - rewrite decide_False by congruence. reflexivity.
Qed.

Lemma cellAt_updCell f x y g x' y' :
  cellAt (updCell f x y g) x' y' =
  if decide (x = x' ∧ y = y') then f <$> cellAt g x' y' else cellAt g x' y'.
Proof.
  unfold cellAt, updCell.
  destruct ((0 <=? x) && (0 <=? y)) eqn:Hxy.
  - destruct ((0 <=? x') && (0 <=? y')) eqn:Hxy'.
    + rewrite cellObj_updObj.
      apply andb_true_iff in Hxy as [?%Z.leb_le ?%Z.leb_le].
      apply andb_true_iff in Hxy' as [?%Z.leb_le ?%Z.leb_le].
      destruct (decide (x = x' ∧ y = y')) as [[-> ->]|Hne].
      * rewrite decide_True by reflexivity. reflexivity.
      * rewrite decide_False; [reflexivity|].
        intros [= Hy Hx]. apply Hne. split; lia.
    + destruct (decide _); reflexivity.
  - destruct (decide (x = x' ∧ y = y')) as [[<- <-]|Hne]; [|reflexivity].
    rewrite Hxy. reflexivity.
Qed.

Lemma updObj_ext f f' p g :
  (∀ c, cellObj g p = Some c → f c = f' c) → updObj f p g = updObj f' p g.
Proof.
  intros Hff. unfold updObj. apply list_alter_ext; [|reflexivity].
  intros row Hrow. apply list_alter_ext; [|reflexivity].
  intros c Hc. apply Hff. unfold cellObj. rewrite Hrow. exact Hc.
Qed.

(** ** Adjacency *)

Lemma bonusFor_entry t n : bonusFor t n = adjacencyEntry t n.
Proof.
  unfold bonusFor, adjacencyEntry.
  destruct (ADJACENCY_BONUSES t n); [apply orZero_id|reflexivity].
Qed.

Lemma adjacencyStep_spec g x y t dy acc dx :
  adjacencyStep g x y t dy acc dx =
  acc + (if (dx =? 0) && (dy =? 0) then 0
         else if inBounds (x + dx) (y + dy)
              then contribution g t (x + dx, y + dy) else 0).
Proof.
  unfold adjacencyStep, contribution, playerTypeAt. cbn [fst snd].
  destruct ((dx =? 0) && (dy =? 0)); [lia|].
  destruct (inBounds (x + dx) (y + dy)); [|lia].
  destruct (cellAt g (x + dx) (y + dy)) as [c|]; cbn; [|lia].
  destruct (playerBuilding c) as [b|]; cbn; [|lia].
  rewrite bonusFor_entry. reflexivity.
Qed.

Lemma sumZ_filter {A} (P : A → Prop) `{!∀ a, Decision (P a)} (f : A → Z) l :
  sumZ (f <$> filter P l) = sumZ ((λ a, if decide (P a) then f a else 0) <$> l).
Proof.
  induction l as [|a l IH]; [reflexivity|].
  rewrite filter_cons, fmap_cons.
  destruct (decide (P a)); [rewrite fmap_cons|]; unfold sumZ in *;
    cbn [foldr]; rewrite IH; [reflexivity | lia].
Qed.

Lemma calculateAdjacencyBonus_sum g x y t :
  calculateAdjacencyBonus g x y t = adjacencySum g x y t.
Proof.
  unfold calculateAdjacencyBonus, adjacencySum, neighbours, offsets, directions.
  rewrite (sumZ_filter (λ p : Z * Z, inBounds p.1 p.2 = true)).
  cbn [fold_left]. rewrite !adjacencyStep_spec.
  cbn [fmap list_fmap sumZ foldr fst snd Z.eqb andb].
  repeat match goal with
         | |- context [decide (?b = true)] => destruct (decide (b = true)) as [->|?%not_true_is_false]
         end;
  repeat match goal with H : _ = false |- _ => rewrite H; clear H end; lia.
Qed.

Lemma neighbours_at_most_8 x y : (length (neighbours x y) ≤ 8)%nat.
Proof.
  unfold neighbours. etrans; [apply length_filter|].
  rewrite length_fmap. reflexivity.
Qed.

(** ** Relating two grids cell by cell *)

Lemma Forall2_grid_lookup (P : Cell → Cell → Prop) (g g' : Grid) p :
  Forall2 (Forall2 P) g g' → option_Forall2 P (cellObj g p) (cellObj g' p).
Proof.
  intros H. unfold cellObj.
  destruct (proj1 (Forall2_lookup _ _ _) H p.1) as [row row' Hrow|]; cbn.
  - by apply Forall2_lookup.
  - constructor.
Qed.

Lemma Forall2_grid_strengthen (P Q : Cell → Cell → Prop) (g g' : Grid) :
  Forall2 (Forall2 Q) g g' →
  (∀ p c c', cellObj g p = Some c → cellObj g' p = Some c' → Q c c' → P c c') →
  Forall2 (Forall2 P) g g'.
Proof.
  intros H HPQ. apply Forall2_same_length_lookup.
  split; [by eapply Forall2_length|].
  intros i row row' Hr Hr'.
  pose proof (Forall2_lookup_lr _ _ _ _ _ _ H Hr Hr') as Hrr.
  apply Forall2_same_length_lookup. split; [by eapply Forall2_length|].
  intros j c c' Hc Hc'. apply (HPQ (i, j)).
  - unfold cellObj. cbn. rewrite Hr. exact Hc.
  - unfold cellObj. cbn. rewrite Hr'. exact Hc'.
  - by eapply Forall2_lookup_lr.
Qed.

Lemma Forall2_grid_refl (P : Cell → Cell → Prop) (g : Grid) :
  (∀ c, P c c) → Forall2 (Forall2 P) g g.
Proof.
  intros HP. induction g as [|row g IH]; constructor; [|exact IH].
  induction row; constructor; auto.
Qed.

Lemma Forall2_grid_updObj_r (P : Cell → Cell → Prop) f p (g g' : Grid) :
  (∀ c c', P c c' → P c (f c')) →
  Forall2 (Forall2 P) g g' → Forall2 (Forall2 P) g (updObj f p g').
Proof.
  intros Hf H. unfold updObj. apply Forall2_alter_r; [exact H|].
  intros row row' _ _ Hrow. apply Forall2_alter_r; [exact Hrow|].
  intros c c' _ _. apply Hf.
Qed.

Lemma Forall2_eq_fmap {A} (f : A → A) (l k : list A) :
  Forall2 (λ a b, b = f a) l k → k = f <$> l.
Proof. induction 1; cbn; congruence. Qed.

Lemma cellObj_positions (g : Grid) p c :
  cellObj g p = Some c → p ∈ positions g.
Proof.
  destruct p as [i j]. unfold cellObj, positions. cbn [fst snd].
  destruct (g !! i) as [row|] eqn:Hrow; [cbn|discriminate]. intros Hc.
  apply list_elem_of_bind. exists i. split.
  - rewrite Hrow. cbn. apply list_elem_of_fmap. exists j. split; [reflexivity|].
    apply elem_of_seq. apply lookup_lt_Some in Hc. lia.
  - apply elem_of_seq. apply lookup_lt_Some in Hrow. lia.
Qed.

(** ** Refreshing the adjacency bonuses *)

Lemma playerBuilding_Some c b :
  playerBuilding c = Some b → building c = Some b ∧ owner b = player.
Proof.
  unfold playerBuilding. destruct (building c) as [b'|]; [|discriminate].
  destruct (decide (owner b' = player)); [|discriminate].
  intros [= <-]. auto.
Qed.

Lemma refreshCell_fields G c :
  cell_x (refreshCell G c) = cell_x c ∧ cell_y (refreshCell G c) = cell_y c ∧
  isRevealed (refreshCell G c) = isRevealed c.
Proof. unfold refreshCell. destruct (playerBuilding c); auto. Qed.

Lemma refreshCell_type G c :
  type <$> playerBuilding (refreshCell G c) = type <$> playerBuilding c.
Proof.
  unfold refreshCell. destruct (playerBuilding c) as [b|] eqn:Hb.
  - apply playerBuilding_Some in Hb as [_ Hown].
    unfold playerBuilding. cbn -[calculateAdjacencyBonus getBaseIncome].
    rewrite decide_True by exact Hown. reflexivity.
  - rewrite Hb. reflexivity.
Qed.

Lemma calculateAdjacencyBonus_ext g g' :
  (∀ x y, playerTypeAt g x y = playerTypeAt g' x y) →
  ∀ x y t, calculateAdjacencyBonus g x y t = calculateAdjacencyBonus g' x y t.
Proof.
  intros Hsame x y t. rewrite !calculateAdjacencyBonus_sum.
  unfold adjacencySum. f_equal. apply list_fmap_ext. intros _ p _.
  unfold contribution. rewrite Hsame. reflexivity.
Qed.

Lemma refreshCell_ext g g' :
  (∀ x y, playerTypeAt g x y = playerTypeAt g' x y) →
  ∀ c, refreshCell g c = refreshCell g' c.
Proof.
  intros Hsame c. unfold refreshCell.
  destruct (playerBuilding c); [|reflexivity].
  rewrite (calculateAdjacencyBonus_ext g g' Hsame). reflexivity.
Qed.

Lemma refreshCell_Some G c b :
  playerBuilding c = Some b →
  refreshCell G c =
  mkCell (cell_x c) (cell_y c) (isRevealed c)
    (Some (mkBuilding (type b) (level b) (owner b)
             (getBaseIncome (type b)
              + calculateAdjacencyBonus G (cell_x c) (cell_y c) (type b))
             (adjacencyBonuses b)))
    (terrain c) (resources c)
    (calculateAdjacencyBonus G (cell_x c) (cell_y c) (type b)).
Proof. intros Hb. unfold refreshCell. rewrite Hb. reflexivity. Qed.

Lemma refreshCell_None G c : playerBuilding c = None → refreshCell G c = c.
Proof. intros Hb. unfold refreshCell. rewrite Hb. reflexivity. Qed.

Lemma refreshCell_idem G c : refreshCell G (refreshCell G c) = refreshCell G c.
Proof.
  destruct (playerBuilding c) as [b|] eqn:Hb.
  - pose proof (playerBuilding_Some _ _ Hb) as [_ Hown].
    rewrite (refreshCell_Some G c b Hb).
    match goal with
    | |- refreshCell G (mkCell _ _ _ (Some ?b') _ _ _) = _ =>
        rewrite (refreshCell_Some G _ b')
    end.
    + reflexivity.
    + unfold playerBuilding. cbn [building owner].
      rewrite decide_True by exact Hown. reflexivity.
  - rewrite !(refreshCell_None G c Hb). reflexivity.
Qed.

Section RefreshAll.

(** The grid at the start of [updateAllAdjacencyBonuses]. *)
Variable g0 : Grid.

Local Abbreviation partly := (partlyRefreshed g0).
Local Abbreviation doneAt := (refreshedAt g0).

Lemma partly_same_buildings g :
  partly g → ∀ x y, playerTypeAt g x y = playerTypeAt g0 x y.
Proof.
  intros Hg x y. unfold playerTypeAt, cellAt.
  destruct ((0 <=? x) && (0 <=? y)); [|reflexivity].
  destruct (Forall2_grid_lookup _ _ _ (Z.to_nat y, Z.to_nat x) Hg)
    as [c0 c [->| ->]|]; cbn; [reflexivity| |reflexivity].
  apply refreshCell_type.
Qed.

Lemma partly_step g p : partly g → partly (adjacencyUpdateStep g p).
Proof.
  intros Hg. unfold adjacencyUpdateStep.
  rewrite (updObj_ext _ (refreshCell g0)).
  - apply Forall2_grid_updObj_r; [|exact Hg].
    intros c0 c [->| ->]; right; [reflexivity|apply refreshCell_idem].
  - intros c _. apply refreshCell_ext, partly_same_buildings, Hg.
Qed.

Lemma doneAt_step g p q :
  partly g → p = q ∨ doneAt q g → doneAt q (adjacencyUpdateStep g p).
Proof.
  intros Hg Hq. unfold doneAt, adjacencyUpdateStep.
  rewrite (updObj_ext _ (refreshCell g0))
    by (intros c _; apply refreshCell_ext, partly_same_buildings, Hg).
  rewrite cellObj_updObj.
  destruct (decide (p = q)) as [->|Hne].
  - destruct (Forall2_grid_lookup _ _ _ q Hg) as [c0 c [->| ->]|]; cbn;
      constructor; [reflexivity|apply refreshCell_idem].
  - destruct Hq as [?|Hq]; [congruence|exact Hq].
Qed.

Lemma refresh_fold ps g :
  partly g →
  partly (fold_left adjacencyUpdateStep ps g) ∧
  ∀ q, q ∈ ps ∨ doneAt q g → doneAt q (fold_left adjacencyUpdateStep ps g).
Proof.
  revert g. induction ps as [|p ps IH]; intros g Hg; cbn [fold_left].
  - split; [exact Hg|]. intros q [Hq|Hq]; [|exact Hq].
    by apply elem_of_nil in Hq.
  - destruct (IH _ (partly_step g p Hg)) as [Hpartly Hdone].
    split; [exact Hpartly|]. intros q Hq. apply Hdone.
    destruct Hq as [Hq|Hq].
    + apply elem_of_cons in Hq as [->|Hq]; [|by left].
      right. apply doneAt_step; [exact Hg|by left].
    + right. apply doneAt_step; [exact Hg|by right].
Qed.

(** Although the cells are refreshed one after the other on the shared
    grid, the outcome is that of refreshing every cell against the grid at
    the start. *)
Lemma updateAllAdjacencyBonuses_map :
  updateAllAdjacencyBonuses g0 = fmap (M:=list) (refreshCell g0) <$> g0.
Proof.
  assert (Hstart : partly g0) by (apply Forall2_grid_refl; auto).
  destruct (refresh_fold (positions g0) g0 Hstart) as [Hpartly Hdone].
  fold (updateAllAdjacencyBonuses g0) in Hpartly, Hdone.
  apply Forall2_eq_fmap.
  eapply Forall2_impl; [intros row row' Hrow; apply Forall2_eq_fmap, Hrow|].
  apply (Forall2_grid_strengthen _ _ _ _ Hpartly).
  intros q c0 c Hc0 Hc _.
  assert (Hq : doneAt q (updateAllAdjacencyBonuses g0)).
  { apply Hdone. left. by eapply cellObj_positions. }
  unfold doneAt in Hq. rewrite Hc0, Hc in Hq. by inversion Hq.
Qed.

End RefreshAll.

Lemma cellObj_fmap f (g : Grid) p :
  cellObj (fmap (M:=list) f <$> g) p = f <$> cellObj g p.
Proof.
  unfold cellObj. rewrite list_lookup_fmap.
  destruct (g !! p.1) as [row|]; cbn; [|reflexivity].
  apply list_lookup_fmap.
Qed.

Lemma cellAt_fmap f (g : Grid) x y :
  cellAt (fmap (M:=list) f <$> g) x y = f <$> cellAt g x y.
Proof.
  unfold cellAt. destruct ((0 <=? x) && (0 <=? y)); [|reflexivity].
  apply cellObj_fmap.
Qed.

Lemma playerTypeAt_refresh g x y :
  playerTypeAt (updateAllAdjacencyBonuses g) x y = playerTypeAt g x y.
Proof.
  rewrite updateAllAdjacencyBonuses_map. unfold playerTypeAt.
  rewrite cellAt_fmap. destruct (cellAt g x y); cbn; [|reflexivity].
  apply refreshCell_type.
Qed.

(** ** Well-formed grids *)

Lemma cellAt_Some_nonneg g x y c : cellAt g x y = Some c → 0 ≤ x ∧ 0 ≤ y.
Proof.
  unfold cellAt. destruct ((0 <=? x) && (0 <=? y)) eqn:H; [|discriminate].
  apply andb_true_iff in H as [?%Z.leb_le ?%Z.leb_le]. auto.
Qed.

Lemma wellFormed_coords g x y c :
  wellFormed g → cellAt g x y = Some c → cell_x c = x ∧ cell_y c = y.
Proof.
  intros (_ & _ & Hcoords) Hc.
  destruct (cellAt_Some_nonneg _ _ _ _ Hc) as [Hx Hy].
  unfold cellAt in Hc. destruct ((0 <=? x) && (0 <=? y)); [|discriminate].
  apply Hcoords in Hc. cbn in Hc. lia.
Qed.

Lemma wellFormed_updObj f p g :
  (∀ c, cell_x (f c) = cell_x c ∧ cell_y (f c) = cell_y c) →
  wellFormed g → wellFormed (updObj f p g).
Proof.
  intros Hf (Hlen & Hrows & Hcoords). split; [|split].
  - unfold updObj. by rewrite length_alter.
  - unfold updObj. apply Forall_alter; [exact Hrows|].
    intros row _ Hrow. by rewrite length_alter.
  - intros q c. rewrite cellObj_updObj.
    destruct (decide (p = q)) as [_|_]; [|apply Hcoords].
    destruct (cellObj g q) as [c0|] eqn:Hc0; [|discriminate].
    intros [= <-]. destruct (Hf c0) as [-> ->]. by apply Hcoords.
Qed.

Lemma wellFormed_updCell f x y g :
  (∀ c, cell_x (f c) = cell_x c ∧ cell_y (f c) = cell_y c) →
  wellFormed g → wellFormed (updCell f x y g).
Proof.
  intros Hf Hg. unfold updCell.
  destruct ((0 <=? x) && (0 <=? y)); [by apply wellFormed_updObj|exact Hg].
Qed.

Lemma fold_offsets_invariant {A} (P : A → Prop) (f : Z → A → Z → A) (a : A) :
  (∀ dy a' dx, P a' → P (f dy a' dx)) →
  P a → P (fold_left (λ a' dy, fold_left (f dy) offsets a') offsets a).
Proof. intros Hf Ha. cbn. auto 12. Qed.

Lemma wellFormed_reveal x y g :
  wellFormed g → wellFormed (revealAdjacentCells x y g).
Proof.
  unfold revealAdjacentCells. apply fold_offsets_invariant.
  intros dy g' dx Hg'. unfold revealStep.
  destruct (inBounds (x + dx) (y + dy)); [|exact Hg'].
  by apply wellFormed_updCell.
Qed.

Lemma wellFormed_fmap f g :
  (∀ c, cell_x (f c) = cell_x c ∧ cell_y (f c) = cell_y c) →
  wellFormed g → wellFormed (fmap (M:=list) f <$> g).
Proof.
  intros Hf (Hlen & Hrows & Hcoords). split; [|split].
  - by rewrite length_fmap.
  - apply Forall_fmap. eapply Forall_impl; [|exact Hrows].
    intros row Hrow. cbn. by rewrite length_fmap.
  - intros q c. rewrite cellObj_fmap.
    destruct (cellObj g q) as [c0|] eqn:Hc0; [|discriminate].
    intros [= <-]. destruct (Hf c0) as [-> ->]. by apply Hcoords.
Qed.

Lemma wellFormed_placedGrid g x y t bonus :
  wellFormed g → wellFormed (placedGrid g x y t bonus).
Proof.
  intros Hg. unfold placedGrid. rewrite updateAllAdjacencyBonuses_map.
  apply wellFormed_fmap; [intros c; split; apply refreshCell_fields|].
  apply wellFormed_updCell; [by intros c|].
  by apply wellFormed_reveal.
Qed.

(** ** Income after a placement *)

Lemma placeBuilding_Placed s x y t s' :
  placeBuilding s x y t = Placed s' →
  ∃ cost,
    isValidPlacement (grid s) x y t = Some true ∧
    canAffordBuilding (gs_player s) t = Some true ∧
    BUILDING_COSTS t = Some cost ∧
    grid s' = placedGrid (grid s) x y t (calculateAdjacencyBonus (grid s) x y t) ∧
    gs_player s' =
      mkPlayer (gold (gs_player s) - cost_gold cost)
               (population (gs_player s) - cost_population cost
                + (if bool_decide (t = house) then 2 else 0))
               (army (gs_player s))
               (food (gs_player s) - cost_food cost)
               (militaryStrength (gs_player s)) ∧
    territoryControlPercentage s' = calculateTerritoryControl (grid s') ∧
    achievements s' =
      updateAchievements (grid s') (gs_player s') (territoryControlPercentage s')
        (achievements s) ∧
    gamePhase s' = gamePhase s ∧ gameWon s' = gameWon s ∧
    victoryType s' = victoryType s ∧ showVictoryScreen s' = showVictoryScreen s ∧
    turn s' = turn s.
Proof.
  unfold placeBuilding.
  destruct (isValidPlacement (grid s) x y t) as [[]|]; try discriminate.
  destruct (canAffordBuilding (gs_player s) t) as [[]|]; try discriminate.
  destruct (BUILDING_COSTS t) as [cost|]; try discriminate.
  intros [= <-]. exists cost. cbn [grid gs_player territoryControlPercentage
    achievements gamePhase gameWon victoryType showVictoryScreen turn].
  repeat split; reflexivity.
Qed.

Lemma income_after_refresh g x y c b :
  wellFormed g →
  cellAt (updateAllAdjacencyBonuses g) x y = Some c →
  playerBuilding c = Some b →
  income b = getBaseIncome (type b)
             + calculateAdjacencyBonus (updateAllAdjacencyBonuses g) x y (type b).
Proof.
  intros Hg Hc Hb.
  rewrite (calculateAdjacencyBonus_ext _ g (playerTypeAt_refresh g)).
  rewrite updateAllAdjacencyBonuses_map, cellAt_fmap in Hc.
  destruct (cellAt g x y) as [c0|] eqn:Hc0; [|discriminate].
  injection Hc as <-.
  destruct (wellFormed_coords _ _ _ _ Hg Hc0) as [<- <-].
  destruct (playerBuilding c0) as [b0|] eqn:Hb0.
  - rewrite (refreshCell_Some g c0 b0 Hb0) in Hb.
    apply playerBuilding_Some in Hb as [[= <-] _]. reflexivity.
  - rewrite (refreshCell_None g c0 Hb0) in Hb. congruence.
Qed.

(** C3.  On a well-formed grid, [calculateAdjacencyBonus(x, y, t)] is the sum,
    over the at most eight in-bounds cells adjacent to [(x, y)] that hold a
    player-owned building, of the entry of [ADJACENCY_BONUSES] for [t] and the
    neighbour's type (0 when there is no entry); and after every placement
    the income of each player building is the base gold production of its
    type plus this bonus. *)
Theorem adjacency_bonus_is_neighbour_sum (s : GameState) :
  wellFormed (grid s) →
  (∀ x y t,
     calculateAdjacencyBonus (grid s) x y t = adjacencySum (grid s) x y t
     ∧ (length (neighbours x y) ≤ 8)%nat) ∧
  (∀ x y t s', placeBuilding s x y t = Placed s' →
     ∀ cx cy c b, cellAt (grid s') cx cy = Some c → playerBuilding c = Some b →
       income b = getBaseIncome (type b) + adjacencySum (grid s') cx cy (type b)).
Proof.
  intros Hg. split.
  - intros x y t. split; [apply calculateAdjacencyBonus_sum|apply neighbours_at_most_8].
  - intros x y t s' Hplaced cx cy c b Hc Hb.
    apply placeBuilding_Placed in Hplaced as (cost & _ & _ & _ & Hgrid & _).
    rewrite <- calculateAdjacencyBonus_sum.
    rewrite Hgrid in Hc |- *. unfold placedGrid in Hc |- *.
    apply (income_after_refresh _ _ _ c); [|exact Hc|exact Hb].
    apply wellFormed_updCell; [by intros ?|]. by apply wellFormed_reveal.
Qed.

(** ** Placement *)

Lemma isPlayerCell_true c : isPlayerCell c = true ↔ ∃ b, playerBuilding c = Some b.
Proof.
  unfold isPlayerCell. destruct (playerBuilding c) as [b|]; split.
  - eauto.
  - reflexivity.
  - discriminate.
  - intros [? [=]].
Qed.

(** The fold of [findNearestBuilding], started from any running minimum. *)
Lemma findNearest_fold x y (l : list Cell) (m : option Z) :
  match
    fold_left
      (λ minDistance cell,
         match playerBuilding cell with
         | Some b => minInf minDistance
                       (calculateDistance x y (cell_x cell) (cell_y cell))
         | None => minDistance
         end) l m
  with
  | None => m = None ∧ ∀ c, c ∈ l → isPlayerCell c = false
  | Some d =>
      (m = Some d ∨
       ∃ c, c ∈ l ∧ isPlayerCell c = true
            ∧ d = calculateDistance x y (cell_x c) (cell_y c)) ∧
      (∀ m', m = Some m' → d ≤ m') ∧
      (∀ c, c ∈ l → isPlayerCell c = true →
            d ≤ calculateDistance x y (cell_x c) (cell_y c))
  end.
Proof.
  revert m. induction l as [|c l IH]; intros m; cbn [fold_left].
  - destruct m as [d|].
    + split; [by left|]. split; [intros ? [= <-]; lia|].
      intros c Hc. by apply elem_of_nil in Hc.
    + split; [reflexivity|]. intros c Hc. by apply elem_of_nil in Hc.
  - destruct (playerBuilding c) as [b|] eqn:Hb.
    + assert (Hpc : isPlayerCell c = true) by (apply isPlayerCell_true; eauto).
      specialize (IH (minInf m (calculateDistance x y (cell_x c) (cell_y c)))).
      destruct (fold_left _ l _) as [d|].
      * destruct IH as (Hwit & Hle & Hall). split; [|split].
        -- destruct Hwit as [Hm|(c' & Hc' & Hp' & Hd)].
           ++ destruct m as [m'|]; cbn in Hm; injection Hm as Hm.
              ** destruct (Z.min_spec m' (calculateDistance x y (cell_x c) (cell_y c)))
                   as [[_ Hmin]|[_ Hmin]]; rewrite Hmin in Hm.
                 --- left. congruence.
                 --- right. exists c. split; [apply elem_of_cons; by left|]. auto.
              ** right. exists c. split; [apply elem_of_cons; by left|]. auto.
           ++ right. exists c'. split; [apply elem_of_cons; by right|]. auto.
        -- intros m' ->. cbn in Hle. specialize (Hle _ eq_refl). lia.
        -- intros c' Hc' Hp'. apply elem_of_cons in Hc' as [->|Hc']; [|by apply Hall].
           destruct m as [m'|]; cbn in Hle; specialize (Hle _ eq_refl); lia.
      * destruct IH as [Hm _]. destruct m; discriminate.
    + assert (Hpc : isPlayerCell c = false) by (unfold isPlayerCell; by rewrite Hb).
      specialize (IH m). destruct (fold_left _ l m) as [d|].
      * destruct IH as (Hwit & Hle & Hall). split; [|split]; [|exact Hle|].
        -- destruct Hwit as [Hm|(c' & Hc' & Hp' & Hd)]; [by left|].
           right. exists c'. split; [apply elem_of_cons; by right|]. auto.
        -- intros c' Hc' Hp'. apply elem_of_cons in Hc' as [->|Hc']; [congruence|].
           by apply Hall.
      * destruct IH as [Hm Hall]. split; [exact Hm|].
        intros c' Hc'. apply elem_of_cons in Hc' as [->|Hc']; [exact Hpc|by apply Hall].
Qed.

(** [findNearestBuilding(x, y)] is the Chebyshev distance to the nearest
    player-owned building, and [null] exactly when there is none. *)
Lemma findNearestBuilding_spec g x y d :
  findNearestBuilding g x y None = Some d ↔ isNearestDistance g x y d.
Proof.
  unfold findNearestBuilding, isNearestDistance.
  pose proof (findNearest_fold x y (flat g) None) as H.
  unfold calculateDistance in *.
  destruct (fold_left _ (flat g) None) as [d'|]; split.
  - intros [= <-]. destruct H as ([?|Hwit] & _ & Hall); [discriminate|]. auto.
  - intros [(c & Hc & Hp & Hd) Hmin]. f_equal.
    destruct H as ([?|(c' & Hc' & Hp' & Hd')] & _ & Hall); [discriminate|].
    specialize (Hall c Hc Hp). specialize (Hmin c' Hc' Hp'). lia.
  - discriminate.
  - intros [(c & Hc & Hp & _) _]. destruct H as [_ H]. rewrite (H c Hc) in Hp.
    discriminate.
Qed.

Lemma isWater_false t : isWater t = false ↔ t ≠ water.
Proof. destruct t; cbn; split; congruence. Qed.

Lemma isValidPlacement_true g x y t :
  isValidPlacement g x y t = Some true ↔
  ∃ cell,
    cellAt g x y = Some cell ∧ isRevealed cell = true ∧ building cell = None ∧
    terrain cell ≠ water ∧ terrain cell ∈ validTerrain (PLACEMENT_RULES t) ∧
    (t ≠ castle →
       ∃ d, isNearestDistance g x y d ∧
            minDistance (PLACEMENT_RULES t) ≤ d ≤ maxDistance (PLACEMENT_RULES t)).
Proof.
  unfold isValidPlacement. split.
  - destruct (cellAt g x y) as [cell|]; [|discriminate].
    destruct (isRevealed cell) eqn:Hrev; cbn [negb orb]; [|discriminate].
    destruct (building cell) as [b|] eqn:Hb.
    { rewrite bool_decide_true by eauto. discriminate. }
    rewrite bool_decide_false by (intros [? [=]]). cbn [orb].
    destruct (isWater (terrain cell)) eqn:Hw; [discriminate|].
    apply isWater_false in Hw.
    destruct (bool_decide (terrain cell ∈ validTerrain (PLACEMENT_RULES t)))
      eqn:Hterr; cbn [negb]; [|discriminate].
    apply bool_decide_eq_true in Hterr.
    destruct (bool_decide (t = castle)) eqn:Hcastle; cbn [negb].
    + apply bool_decide_eq_true in Hcastle. intros _. exists cell.
      repeat split; auto. congruence.
    + destruct (findNearestBuilding g x y None) as [d|] eqn:Hd; [|discriminate].
      destruct ((d <? minDistance (PLACEMENT_RULES t))
                || (maxDistance (PLACEMENT_RULES t) <? d)) eqn:Hrange;
        [discriminate|].
      intros _. exists cell. repeat split; auto. intros _. exists d.
      apply orb_false_iff in Hrange as [?%Z.ltb_ge ?%Z.ltb_ge].
      split; [by apply findNearestBuilding_spec|lia].
  - intros (cell & -> & -> & Hb & Hw & Hterr & Hdist). cbn [negb orb].
    rewrite Hb. rewrite bool_decide_false by (intros [? [=]]). cbn [orb].
    apply isWater_false in Hw. rewrite Hw.
    rewrite bool_decide_true by exact Hterr. cbn [negb].
    destruct (bool_decide (t = castle)) eqn:Hcastle; cbn [negb]; [reflexivity|].
    apply bool_decide_eq_false in Hcastle.
    destruct (Hdist Hcastle) as (d & Hd%findNearestBuilding_spec & Hrange).
    rewrite Hd.
    replace (d <? minDistance (PLACEMENT_RULES t)) with false
      by (symmetry; apply Z.ltb_ge; lia).
    replace (maxDistance (PLACEMENT_RULES t) <? d) with false
      by (symmetry; apply Z.ltb_ge; lia).
    reflexivity.
Qed.

Lemma canAffordBuilding_true p t :
  canAffordBuilding p t = Some true ↔
  ∃ cost, BUILDING_COSTS t = Some cost ∧ cost_gold cost ≤ gold p ∧
          cost_food cost ≤ food p ∧ cost_population cost ≤ population p.
Proof.
  unfold canAffordBuilding. split.
  - destruct (BUILDING_COSTS t) as [cost|]; [|discriminate].
    intros [= H]. exists cost.
    apply andb_true_iff in H as [[?%Z.leb_le ?%Z.leb_le]%andb_true_iff ?%Z.leb_le].
    auto.
  - intros (cost & -> & Hg & Hf & Hp). f_equal.
    rewrite !andb_true_iff, !Z.leb_le. auto.
Qed.

Lemma placeBuilding_Placed_iff s x y t :
  (∃ s', placeBuilding s x y t = Placed s') ↔
  isValidPlacement (grid s) x y t = Some true ∧
  canAffordBuilding (gs_player s) t = Some true.
Proof.
  split.
  - intros [s' H]. apply placeBuilding_Placed in H as (cost & ? & ? & _). auto.
  - intros [Hv Ha]. unfold placeBuilding. rewrite Hv, Ha.
    apply canAffordBuilding_true in Ha as (cost & -> & _). eauto.
Qed.

Lemma placementAllowed_iff s x y t :
  placementAllowed s x y t ↔ ∃ s', placeBuilding s x y t = Placed s'.
Proof.
  rewrite placeBuilding_Placed_iff, isValidPlacement_true, canAffordBuilding_true.
  unfold placementAllowed. split.
  - intros (cell & cost & H1 & H2 & H3 & H4 & H5 & H6 & H7 & H8 & H9 & H10).
    split; [exists cell|exists cost]; auto 10.
  - intros [(cell & H1 & H2 & H3 & H4 & H5 & H6) (cost & H7 & H8 & H9 & H10)].
    exists cell, cost. auto 12.
Qed.

Lemma cellAt_reveal_is_Some x y g x' y' :
  is_Some (cellAt g x' y') → is_Some (cellAt (revealAdjacentCells x y g) x' y').
Proof.
  intros Hc. unfold revealAdjacentCells.
  apply (fold_offsets_invariant (λ g', is_Some (cellAt g' x' y'))); [|exact Hc].
  intros dy g' dx Hg'. unfold revealStep.
  destruct (inBounds (x + dx) (y + dy)); [|exact Hg'].
  rewrite cellAt_updCell. destruct (decide _); [|exact Hg'].
  by apply fmap_is_Some.
Qed.

Lemma placedGrid_building g x y t bonus :
  is_Some (cellAt g x y) →
  ∃ c b, cellAt (placedGrid g x y t bonus) x y = Some c ∧
         building c = Some b ∧ type b = t ∧ owner b = player.
Proof.
  intros Hc. unfold placedGrid.
  rewrite updateAllAdjacencyBonuses_map, cellAt_fmap, cellAt_updCell.
  rewrite decide_True by auto.
  destruct (cellAt_reveal_is_Some x y g x y Hc) as [c1 ->]. cbn [fmap option_fmap option_map].
  eexists _, _. split; [reflexivity|].
  erewrite (refreshCell_Some _ _ (newBuilding t bonus)) by reflexivity.
  cbn [building type owner newBuilding]. auto.
Qed.

(** C2.  [placeBuilding(x, y, type)] adds a building at [(x, y)] only if the
    cell is revealed, holds no building, is not water, has a terrain listed in
    [PLACEMENT_RULES[type].validTerrain], lies (for every type but the castle)
    at a Chebyshev distance from the nearest player-owned building that exists
    and is within [minDistance] and [maxDistance], and the player's gold, food
    and population cover [BUILDING_COSTS[type]]; when any of these conditions
    fails the game state is unchanged.  When they all hold, the building is
    added. *)
Theorem placeBuilding_gated (s : GameState) (x y : Z) (t : BuildingType) :
  (∀ s', placeBuilding s x y t = Placed s' → placementAllowed s x y t) ∧
  (¬ placementAllowed s x y t → stateAfter s (placeBuilding s x y t) = s) ∧
  (placementAllowed s x y t →
     ∃ s' c b, placeBuilding s x y t = Placed s' ∧
               cellAt (grid s') x y = Some c ∧ building c = Some b ∧
               type b = t ∧ owner b = player).
Proof.
  split; [|split].
  - intros s' H. apply placementAllowed_iff. eauto.
  - intros Hno. destruct (placeBuilding s x y t) as [s'| |] eqn:H; [|reflexivity..].
    destruct Hno. apply placementAllowed_iff. eauto.
  - intros Hok. pose proof Hok as (cell & _ & Hcell & _).
    apply placementAllowed_iff in Hok as [s' Hs']. exists s'.
    pose proof (placeBuilding_Placed _ _ _ _ _ Hs') as (_ & _ & _ & _ & Hgrid & _).
    destruct (placedGrid_building (grid s) x y t
                (calculateAdjacencyBonus (grid s) x y t)) as (c & b & H);
      [by rewrite Hcell|].
    exists c, b. rewrite Hgrid. auto.
Qed.

(** ** Seasons *)

(** Rounding an integer scaled by a number of tenths, in integer arithmetic. *)
Lemma js_round_tenths (z : Z) (k : Z) :
  js_round (scale z (k # 10)) = (z * k + 5) / 10.
Proof.
  unfold js_round, scale, Qfloor, Qplus, Qmult, inject_Z. cbn [Qnum Qden].
  replace (z * k * Z.pos 2 + 1 * Z.pos (1 * 10)) with ((z * k + 5) * 2) by lia.
  change (Z.pos (1 * 10 * 2)) with (10 * 2).
  apply Z.div_mul_cancel_r; lia.
Qed.

Lemma seasonIndex_block k :
  seasonIndex (4 * k) = (k mod 4)%nat ∧ seasonIndex (4 * k + 1) = (k mod 4)%nat ∧
  seasonIndex (4 * k + 2) = (k mod 4)%nat ∧ seasonIndex (4 * k + 3) = (k mod 4)%nat.
Proof.
  unfold seasonIndex.
  assert (H : ∀ r, (r < 4)%nat → ((4 * k + r) / 4 = k)%nat).
  { intros r Hr. symmetry. apply (Nat.div_unique _ 4 k r); lia. }
  rewrite <- (Nat.add_0_r (4 * k)) at 1.
  rewrite !H by lia. auto.
Qed.

Lemma seasonIndex_period n : seasonIndex (n + 16) = seasonIndex n.
Proof.
  unfold seasonIndex.
  replace (n + 16)%nat with (n + 4 * 4)%nat by lia.
  rewrite Nat.div_add by lia.
  replace (n / 4 + 4)%nat with (n / 4 + 1 * 4)%nat by lia.
  apply Nat.Div0.mod_add.
Qed.

Lemma season_names :
  season_name <$> SEASONS = [Spring; Summer; Autumn; Winter].
Proof. reflexivity. Qed.

(** C4.  On each turn advance the active season is
    [SEASONS[floor(turn / 4) mod 4]]; the table cycles through Spring, Summer,
    Autumn and Winter, a season covers the four turns [4k .. 4k + 3] and the
    cycle repeats after sixteen turns; the gold, food and military deltas of
    the turn are each increased by the rounded product of the delta and the
    season's factor, and the population delta is not modified by the
    season. *)
Theorem seasons_modify_turn_deltas (s : GameState) (d : Draws) :
  let season := seasonAt ((turn s / 4) mod 4) in
  let rc := calculateTurnResources (grid s) in
  let events := generateRandomEvents (turn s + 1) season d in
  let eventBonuses := fold_left eventBonusStep events (mkRC 0 0 0 0) in
  let delta := resourceChanges (nextTurn s d) in
  currentSeason (nextTurn s d) = season ∧
  SEASONS !! ((turn s / 4) mod 4)%nat = Some season ∧
  season_name <$> SEASONS = [Spring; Summer; Autumn; Winter] ∧
  (∀ k, seasonIndex (4 * k) = (k mod 4)%nat ∧ seasonIndex (4 * k + 1) = (k mod 4)%nat ∧
        seasonIndex (4 * k + 2) = (k mod 4)%nat ∧ seasonIndex (4 * k + 3) = (k mod 4)%nat) ∧
  (∀ n, seasonIndex (n + 16) = seasonIndex n) ∧
  rc_gold delta =
    rc_gold rc + js_round (scale (rc_gold rc) (goldBonus (effects season)))
    + rc_gold eventBonuses ∧
  rc_food delta =
    rc_food rc + js_round (scale (rc_food rc) (foodBonus (effects season)))
    + rc_food eventBonuses ∧
  rc_military delta =
    rc_military rc
    + js_round (scale (rc_military rc) (militaryBonus (effects season)))
    + rc_military eventBonuses ∧
  rc_population delta = rc_population rc + rc_population eventBonuses.
Proof.
  cbv zeta. split; [reflexivity|]. split.
  - assert (Hlt : ((turn s / 4) mod 4 < 4)%nat) by (apply Nat.mod_upper_bound; lia).
    unfold seasonAt.
    destruct ((turn s / 4) mod 4)%nat as [|[|[|[|n]]]]; try reflexivity. lia.
  - split; [reflexivity|]. split; [apply seasonIndex_block|].
    split; [apply seasonIndex_period|].
    repeat split; reflexivity.
Qed.

(** ** Random events *)

Lemma Qltb_false_of_le a b : (b <= a)%Q → Qltb a b = false.
Proof.
  intros H. unfold Qltb. apply negb_false_iff. by apply Qle_bool_iff.
Qed.

(** With a first draw of at least 0.23 no weather, discovery or bandit event
    is generated, whatever the draws are otherwise. *)
Lemma generateRandomEvents_quiet turn season d1 d2 :
  (0.23 <= randomChance d1)%Q → (0.23 <= randomChance d2)%Q →
  generateRandomEvents turn season d1 = generateRandomEvents turn season d2.
Proof.
  intros H1 H2. unfold generateRandomEvents. cbv zeta.
  assert (Hq : ∀ d, (0.23 <= randomChance d)%Q →
               Qltb (randomChance d) 0.1 = false ∧
               Qltb (randomChance d) 0.18 = false ∧
               Qltb (randomChance d) 0.23 = false).
  { intros d Hd. repeat split; apply Qltb_false_of_le;
      (eapply Qle_trans; [|exact Hd]); by apply Qle_bool_iff. }
  destruct (Hq d1 H1) as (-> & -> & ->). destruct (Hq d2 H2) as (-> & -> & ->).
  rewrite !andb_false_r. reflexivity.
Qed.

(** ** Resources never go negative *)

Lemma nextTurn_clamps s d :
  0 ≤ gold (gs_player (nextTurn s d)) ∧ 0 ≤ food (gs_player (nextTurn s d)) ∧
  0 ≤ militaryStrength (gs_player (nextTurn s d)) ∧
  0 ≤ army (gs_player (nextTurn s d)) ∧ 1 ≤ population (gs_player (nextTurn s d)).
Proof.
  change (gs_player (nextTurn s d)) with
    (newPlayer (gs_player s)
       (finalResourceChanges
          (adjustedResourceChanges (calculateTurnResources (grid s))
             (seasonAt (seasonIndex (turn s))))
          (generateRandomEvents (turn s + 1) (seasonAt (seasonIndex (turn s))) d))).
  unfold newPlayer. cbn [gold food militaryStrength army population]. lia.
Qed.

Lemma placeBuilding_covered s x y t s' :
  placeBuilding s x y t = Placed s' →
  ∃ cost, BUILDING_COSTS t = Some cost ∧
    cost_gold cost ≤ gold (gs_player s) ∧ cost_food cost ≤ food (gs_player s) ∧
    cost_population cost ≤ population (gs_player s) ∧
    gold (gs_player s') = gold (gs_player s) - cost_gold cost ∧
    food (gs_player s') = food (gs_player s) - cost_food cost ∧
    population (gs_player s') =
      population (gs_player s) - cost_population cost + (if bool_decide (t = house) then 2 else 0) ∧
    militaryStrength (gs_player s') = militaryStrength (gs_player s) ∧
    army (gs_player s') = army (gs_player s).
Proof.
  intros H. apply placeBuilding_Placed in H as (cost & _ & Hafford & Hcost & _ & -> & _).
  apply canAffordBuilding_true in Hafford as (cost' & Hcost' & Hg & Hf & Hp).
  assert (cost' = cost) as -> by congruence.
  exists cost. cbn [gold food population militaryStrength army]. auto 10.
Qed.

Lemma step_nonNegative s a :
  nonNegative (gs_player s) → nonNegative (gs_player (step s a)).
Proof.
  intros (Hg & Hf & Hp & Hm & Ha). destruct a as [x y t|d]; cbn [step].
  - destruct (placeBuilding s x y t) as [s'| |] eqn:Hplace; cbn [stateAfter];
      [|by repeat split..].
    apply placeBuilding_covered in Hplace
      as (cost & _ & ? & ? & ? & Hg' & Hf' & Hp' & Hm' & Ha').
    unfold nonNegative. rewrite Hg', Hf', Hp', Hm', Ha'.
    destruct (bool_decide (t = house)); repeat split; lia.
  - pose proof (nextTurn_clamps s d). unfold nonNegative. intuition lia.
Qed.

Lemma run_nonNegative s actions :
  nonNegative (gs_player s) → nonNegative (gs_player (run s actions)).
Proof.
  revert s. induction actions as [|a actions IH]; intros s Hs; [exact Hs|].
  cbn [run fold_left]. apply IH, step_nonNegative, Hs.
Qed.

(** C9.  Starting from the initial state (300 gold, 10 population, 50 food,
    5 military strength, 5 army), after every sequence of building placements
    and turn advances the player's gold, food, population, military strength
    and army are non-negative; a turn advance clamps gold, food, military
    strength and army at 0 and population at 1, and a placement deducts only
    costs that the player's gold, food and population cover. *)
Theorem resources_never_negative (rnd : nat → nat → Q * Q) (actions : list Action) :
  gs_player (initialState rnd) = mkPlayer 300 10 5 50 5 ∧
  nonNegative (gs_player (run (initialState rnd) actions)) ∧
  (∀ s d,
     0 ≤ gold (gs_player (nextTurn s d)) ∧ 0 ≤ food (gs_player (nextTurn s d)) ∧
     0 ≤ militaryStrength (gs_player (nextTurn s d)) ∧
     0 ≤ army (gs_player (nextTurn s d)) ∧
     1 ≤ population (gs_player (nextTurn s d))) ∧
  (∀ s x y t s', placeBuilding s x y t = Placed s' →
     ∃ cost, BUILDING_COSTS t = Some cost ∧
       cost_gold cost ≤ gold (gs_player s) ∧ cost_food cost ≤ food (gs_player s) ∧
       cost_population cost ≤ population (gs_player s) ∧
       gold (gs_player s') = gold (gs_player s) - cost_gold cost ∧
       food (gs_player s') = food (gs_player s) - cost_food cost ∧
       population (gs_player s') =
         population (gs_player s) - cost_population cost
         + (if bool_decide (t = house) then 2 else 0) ∧
       militaryStrength (gs_player s') = militaryStrength (gs_player s) ∧
       army (gs_player s') = army (gs_player s)).
Proof.
  split; [reflexivity|]. split; [|split].
  - apply run_nonNegative. unfold nonNegative. cbn. lia.
  - apply nextTurn_clamps.
  - apply placeBuilding_covered.
Qed.

(** ** Achievements *)

Lemma setProgress_id a p u : id (setProgress a p u) = id a.
Proof. reflexivity. Qed.

Lemma updateAchievement_id g p t a : id (updateAchievement g p t a) = id a.
Proof.
  unfold updateAchievement.
  repeat match goal with |- context [if ?b then _ else _] => destruct b end;
    reflexivity.
Qed.

Lemma updateAchievement_idem g p t a :
  updateAchievement g p t (updateAchievement g p t a) = updateAchievement g p t a.
Proof.
  unfold updateAchievement at 2.
  destruct (String.eqb (id a) "first_building") eqn:H1;
    [unfold updateAchievement; rewrite setProgress_id, H1; reflexivity|].
  destruct (String.eqb (id a) "gold_collector") eqn:H2;
    [unfold updateAchievement; rewrite setProgress_id, H1, H2; reflexivity|].
  destruct (String.eqb (id a) "empire_builder") eqn:H3;
    [unfold updateAchievement; rewrite setProgress_id, H1, H2, H3; reflexivity|].
  destruct (String.eqb (id a) "all_buildings") eqn:H4;
    [unfold updateAchievement; rewrite setProgress_id, H1, H2, H3, H4; reflexivity|].
  destruct (String.eqb (id a) "population_boom") eqn:H5;
    unfold updateAchievement; rewrite ?setProgress_id, H1, H2, H3, H4, H5; reflexivity.
Qed.

Lemma updateAchievements_idem g p t achs :
  updateAchievements g p t (updateAchievements g p t achs)
  = updateAchievements g p t achs.
Proof.
  unfold updateAchievements. rewrite <- list_fmap_compose.
  apply list_fmap_ext. intros _ a _. apply updateAchievement_idem.
Qed.

Lemma find_updateAchievements g p t k achs :
  find (λ a, String.eqb (id a) k) (updateAchievements g p t achs)
  = updateAchievement g p t <$> find (λ a, String.eqb (id a) k) achs.
Proof.
  unfold updateAchievements. induction achs as [|a achs IH]; [reflexivity|].
  rewrite fmap_cons. cbn [find]. rewrite updateAchievement_id.
  destruct (String.eqb (id a) k); [reflexivity|exact IH].
Qed.

Lemma updateAchievement_all_buildings g p t a :
  id a = "all_buildings" →
  unlocked (updateAchievement g p t a)
  = (7 <=? Z.of_nat (length (uniqueBuildings g))).
Proof. intros Hid. unfold updateAchievement. rewrite Hid. reflexivity. Qed.

Lemma architectInSync_update g p t achs s' :
  is_Some (find (λ a, String.eqb (id a) "all_buildings") achs) →
  grid s' = g → achievements s' = updateAchievements g p t achs →
  architectInSync s'.
Proof.
  intros [a Ha] Hg Hachs. unfold architectInSync.
  rewrite Hachs, find_updateAchievements, Ha, Hg. cbn.
  eexists. split; [reflexivity|].
  apply updateAchievement_all_buildings.
  apply find_some in Ha as [_ Ha]. by apply String.eqb_eq.
Qed.

Lemma architectInSync_initial rnd : architectInSync (initialState rnd).
Proof. eexists. split; reflexivity. Qed.

Lemma architectInSync_step s a : architectInSync s → architectInSync (step s a).
Proof.
  intros Hs. pose proof Hs as (a0 & Ha0 & _).
  destruct a as [x y t|d]; cbn [step].
  - destruct (placeBuilding s x y t) as [s'| |] eqn:Hplace; cbn [stateAfter];
      [|exact Hs..].
    apply placeBuilding_Placed in Hplace
      as (cost & _ & _ & _ & _ & _ & _ & Hachs & _).
    eapply architectInSync_update; [|reflexivity|exact Hachs]. by rewrite Ha0.
  - eapply (architectInSync_update (grid s)); [|reflexivity..]. by rewrite Ha0.
Qed.

Lemma architectInSync_run s actions :
  architectInSync s → architectInSync (run s actions).
Proof.
  revert s. induction actions as [|a actions IH]; intros s Hs; [exact Hs|].
  cbn [run fold_left]. apply IH, architectInSync_step, Hs.
Qed.

Lemma hasBuilt_unique g t : hasBuilt g t ↔ t ∈ uniqueBuildings g.
Proof.
  unfold hasBuilt, uniqueBuildings.
  rewrite elem_of_remove_dups, list_elem_of_omap. split.
  - intros (c & b & Hc & Hb & <-). exists c. by rewrite Hb.
  - intros (c & Hc & Hb).
    destruct (playerBuilding c) as [b|] eqn:Hpb; [|discriminate].
    injection Hb as <-. eauto.
Qed.

Lemma all_types_built g :
  7 ≤ Z.of_nat (length (uniqueBuildings g)) ↔ ∀ t, hasBuilt g t.
Proof.
  pose (allTypes := [castle; house; farm; mine; barracks; tower; market]).
  assert (Hall : ∀ t, t ∈ allTypes)
    by (intros []; apply (bool_decide_unpack _); vm_compute; exact I).
  assert (Hnd : NoDup allTypes)
    by (apply (bool_decide_unpack _); vm_compute; exact I).
  split.
  - intros Hlen t. apply hasBuilt_unique.
    assert (Hsub : uniqueBuildings g ⊆+ allTypes).
    { apply NoDup_submseteq; [apply NoDup_remove_dups|auto]. }
    apply submseteq_length_Permutation in Hsub; [|cbn; lia].
    rewrite Hsub. apply Hall.
  - intros Hbuilt.
    assert (Hsub : allTypes ⊆+ uniqueBuildings g).
    { apply NoDup_submseteq; [exact Hnd|]. intros t _. by apply hasBuilt_unique. }
    apply submseteq_length in Hsub. cbn in Hsub. lia.
Qed.

(** ** Victory *)

Lemma allBuildingsUnlocked_bool s :
  allBuildingsUnlocked s ↔
  match find (λ a, String.eqb (id a) "all_buildings") (achievements s) with
  | Some a => unlocked a
  | None => false
  end = true.
Proof.
  unfold allBuildingsUnlocked.
  destruct (find _ (achievements s)) as [a|]; split.
  - intros (a' & [= <-] & Hu). exact Hu.
  - eauto.
  - intros (a' & [=] & _).
  - discriminate.
Qed.

(** C5.  The victory evaluator reports a win exactly when the territory
    control percentage is at least 60, or the player has at least 5000 gold,
    200 population, 500 food and 100 military strength at once, or the
    [all_buildings] achievement is unlocked; the reported type is territory,
    resources or buildings respectively, the earlier condition taking
    priority.  In every state reached from the initial state the
    [all_buildings] achievement is unlocked exactly when the player has built
    all seven building types. *)
Theorem victory_exactly_three_conditions :
  (∀ s,
     let v := checkVictoryConditions s in
     (won v = true ↔ territoryVictory s ∨ resourceVictory s ∨ allBuildingsUnlocked s) ∧
     (vtype v = Some territory ↔ territoryVictory s) ∧
     (vtype v = Some by_resources ↔ ¬ territoryVictory s ∧ resourceVictory s) ∧
     (vtype v = Some buildings ↔
        ¬ territoryVictory s ∧ ¬ resourceVictory s ∧ allBuildingsUnlocked s) ∧
     (vtype v = None ↔ won v = false)) ∧
  (∀ rnd actions,
     let s := run (initialState rnd) actions in
     allBuildingsUnlocked s ↔ ∀ t, hasBuilt (grid s) t).
Proof.
  split.
  - intros s. cbv zeta. rewrite allBuildingsUnlocked_bool.
    unfold checkVictoryConditions, territoryVictory, resourceVictory.
    destruct (Z.leb_spec 60 (territoryControlPercentage s)).
    { cbn. intuition (try lia; try discriminate; auto). }
    destruct (Z.leb_spec 5000 (gold (gs_player s)));
    destruct (Z.leb_spec 200 (population (gs_player s)));
    destruct (Z.leb_spec 500 (food (gs_player s)));
    destruct (Z.leb_spec 100 (militaryStrength (gs_player s)));
    cbn [andb];
    try (destruct (find _ (achievements s)) as [a|]; [destruct (unlocked a)|]);
    cbn; intuition (try lia; try discriminate; auto).
  - intros rnd actions. cbv zeta.
    destruct (architectInSync_run _ actions (architectInSync_initial rnd))
      as (a & Ha & Hu).
    rewrite allBuildingsUnlocked_bool, Ha, Hu, Z.leb_le.
    apply all_types_built.
Qed.

(** C6 (amended).  After every turn advance and every successful placement the
    achievement progress of the resulting state is the one recomputed from
    that resulting state.  A placement does not evaluate the win conditions:
    it leaves [gameWon], [victoryType], [showVictoryScreen] and [gamePhase]
    as they were. *)
Theorem achievements_recomputed_after_every_change (s : GameState) :
  (∀ d,
     let s' := nextTurn s d in
     achievements s' =
       updateAchievements (grid s') (gs_player s') (territoryControlPercentage s')
         (achievements s')) ∧
  (∀ x y t s', placeBuilding s x y t = Placed s' →
     achievements s' =
       updateAchievements (grid s') (gs_player s') (territoryControlPercentage s')
         (achievements s') ∧
     gameWon s' = gameWon s ∧ victoryType s' = victoryType s ∧
     showVictoryScreen s' = showVictoryScreen s ∧ gamePhase s' = gamePhase s).
Proof.
  split.
  - intros d. cbv zeta.
    change (achievements (nextTurn s d)) with
      (updateAchievements (grid (nextTurn s d)) (gs_player (nextTurn s d))
         (territoryControlPercentage (nextTurn s d)) (achievements s)).
    symmetry. apply updateAchievements_idem.
  - intros x y t s' Hplace.
    apply placeBuilding_Placed in Hplace
      as (cost & _ & _ & _ & _ & _ & _ & Hachs & Hphase & Hwon & Htype & Hscreen & _).
    split; [|auto].
    rewrite Hachs at 2. rewrite updateAchievements_idem. exact Hachs.
Qed.

(** C7 (amended).  The turn step is a function of the state and of the random
    draws of [generateRandomEvents]: whenever the first draw of both
    evaluations is at least 0.23, so that no random event fires, two
    evaluations from the same state produce the same resource totals, the
    same turn events and the same resulting state. *)
Theorem nextTurn_deterministic_without_random_events
    (s : GameState) (d1 d2 : Draws) :
  (0.23 <= randomChance d1)%Q → (0.23 <= randomChance d2)%Q →
  nextTurn s d1 = nextTurn s d2.
Proof.
  intros H1 H2. unfold nextTurn. cbv zeta.
  rewrite (generateRandomEvents_quiet _ _ d1 d2 H1 H2). reflexivity.
Qed.

(** ** Revealed cells *)

Lemma revealedLe_updCell g g' f x y :
  (∀ c, isRevealed c = true → isRevealed (f c) = true) →
  revealedLe g g' → revealedLe g (updCell f x y g').
Proof.
  intros Hf H. unfold updCell.
  destruct ((0 <=? x) && (0 <=? y)); [|exact H].
  apply Forall2_grid_updObj_r; [|exact H]. intros c c' Hcc Hc. auto.
Qed.

Lemma revealedLe_reveal g g' x y :
  revealedLe g g' → revealedLe g (revealAdjacentCells x y g').
Proof.
  intros H. unfold revealAdjacentCells.
  apply (fold_offsets_invariant (revealedLe g)); [|exact H].
  intros dy g'' dx Hg''. unfold revealStep.
  destruct (inBounds (x + dx) (y + dy)); [|exact Hg''].
  by apply revealedLe_updCell.
Qed.

Lemma revealedLe_refresh g g' :
  revealedLe g g' → revealedLe g (updateAllAdjacencyBonuses g').
Proof.
  intros H. rewrite updateAllAdjacencyBonuses_map. unfold revealedLe.
  apply Forall2_fmap_r. eapply Forall2_impl; [|exact H].
  intros row row' Hrow. cbn. apply Forall2_fmap_r.
  eapply Forall2_impl; [|exact Hrow].
  intros c c' Hcc Hc. cbn.
  destruct (refreshCell_fields g' c') as (_ & _ & ->). auto.
Qed.

Lemma revealedLe_placedGrid g x y t bonus :
  revealedLe g (placedGrid g x y t bonus).
Proof.
  unfold placedGrid.
  apply revealedLe_refresh, revealedLe_updCell; [by intros c|].
  apply revealedLe_reveal, Forall2_grid_refl. auto.
Qed.

Lemma revealedLe_step s a : revealedLe (grid s) (grid (step s a)).
Proof.
  destruct a as [x y t|d]; cbn [step].
  - destruct (placeBuilding s x y t) as [s'| |] eqn:Hplace; cbn [stateAfter];
      [|apply Forall2_grid_refl; auto..].
    apply placeBuilding_Placed in Hplace as (cost & _ & _ & _ & -> & _).
    apply revealedLe_placedGrid.
  - apply Forall2_grid_refl. auto.
Qed.

Lemma revealedLe_cellAt g g' x y c :
  revealedLe g g' → cellAt g x y = Some c → isRevealed c = true →
  ∃ c', cellAt g' x y = Some c' ∧ isRevealed c' = true.
Proof.
  intros H. unfold cellAt. destruct ((0 <=? x) && (0 <=? y)); [|discriminate].
  destruct (Forall2_grid_lookup _ _ _ (Z.to_nat y, Z.to_nat x) H) as [c0 c' Hcc|];
    [|discriminate].
  intros [= <-] Hc. eauto.
Qed.

Lemma revealedLe_cellAt_r g g' x y c' :
  revealedLe g g' → cellAt g' x y = Some c' →
  ∃ c, cellAt g x y = Some c ∧ (isRevealed c = true → isRevealed c' = true).
Proof.
  intros H. unfold cellAt. destruct ((0 <=? x) && (0 <=? y)); [|discriminate].
  destruct (Forall2_grid_lookup _ _ _ (Z.to_nat y, Z.to_nat x) H) as [c0 c Hcc|];
    [|discriminate].
  intros [= <-]. eauto.
Qed.

Lemma Forall2_concat_rows (P : Cell → Cell → Prop) (g g' : Grid) :
  Forall2 (Forall2 P) g g' → Forall2 P (concat g) (concat g').
Proof. induction 1; cbn; [constructor|by apply Forall2_app]. Qed.

Lemma revealed_filter_le (l l' : list Cell) :
  Forall2 (λ c c', isRevealed c = true → isRevealed c' = true) l l' →
  (length (filter (λ c, isRevealed c = true) l)
   ≤ length (filter (λ c, isRevealed c = true) l'))%nat.
Proof.
  induction 1 as [|c c' l l' Hcc _ IH]; [reflexivity|].
  rewrite !filter_cons.
  destruct (decide (isRevealed c = true)) as [Hc|Hc].
  - rewrite decide_True by auto. cbn. lia.
  - destruct (decide (isRevealed c' = true)); cbn; lia.
Qed.

Lemma revealedCount_le g g' : revealedLe g g' → revealedCount g ≤ revealedCount g'.
Proof.
  intros H. unfold revealedCount, flat.
  apply Nat2Z.inj_le, revealed_filter_le, Forall2_concat_rows, H.
Qed.

(** The percentage in integer arithmetic. *)
Lemma calculateTerritoryControl_Z g :
  calculateTerritoryControl g = (revealedCount g * 200 + 144) / 288.
Proof.
  unfold calculateTerritoryControl. fold (revealedCount g).
  generalize (revealedCount g) as n. intros n.
  unfold js_round, Qfloor, GRID_SIZE, Qdiv, Qinv, inject_Z.
  change (12 * 12) with 144. unfold Qplus, Qmult. cbn [Qnum Qden].
  change (Z.pos (1 * 144 * 1 * 2)) with 288.
  change (Z.pos (1 * 144 * 1)) with 144. f_equal. lia.
Qed.

Lemma territorySpec_Z g : territorySpec g = (revealedCount g * 200 + 144) / 288.
Proof.
  unfold territorySpec. generalize (revealedCount g) as n. intros n.
  unfold js_round, Qfloor, Qdiv, Qinv, inject_Z. unfold Qplus, Qmult.
  cbn [Qnum Qden].
  change (Z.pos (1 * 1 * 144 * 2)) with 288.
  change (Z.pos (1 * 1 * 144)) with 144. f_equal. lia.
Qed.

Lemma calculateTerritoryControl_spec g :
  calculateTerritoryControl g = territorySpec g.
Proof. by rewrite calculateTerritoryControl_Z, territorySpec_Z. Qed.

Lemma calculateTerritoryControl_mono g g' :
  revealedLe g g' → calculateTerritoryControl g ≤ calculateTerritoryControl g'.
Proof.
  intros H%revealedCount_le. rewrite !calculateTerritoryControl_Z.
  apply Z.div_le_mono; lia.
Qed.

(** The stored percentage is the one computed from the grid. *)
Lemma territory_in_sync_step s a :
  territoryControlPercentage s = calculateTerritoryControl (grid s) →
  territoryControlPercentage (step s a) = calculateTerritoryControl (grid (step s a)).
Proof.
  intros Hs. destruct a as [x y t|d]; cbn [step]; [|exact Hs].
  destruct (placeBuilding s x y t) as [s'| |] eqn:Hplace; cbn [stateAfter];
    [|exact Hs..].
  by apply placeBuilding_Placed in Hplace as (cost & _ & _ & _ & _ & _ & -> & _).
Qed.

Lemma territory_in_sync_run s actions :
  territoryControlPercentage s = calculateTerritoryControl (grid s) →
  territoryControlPercentage (run s actions)
  = calculateTerritoryControl (grid (run s actions)).
Proof.
  revert s. induction actions as [|a actions IH]; intros s Hs; [exact Hs|].
  cbn [run fold_left]. apply IH, territory_in_sync_step, Hs.
Qed.

Lemma territory_in_sync_initial rnd :
  territoryControlPercentage (initialState rnd)
  = calculateTerritoryControl (grid (initialState rnd)).
Proof. reflexivity. Qed.

Lemma revealedLe_trans g1 g2 g3 :
  revealedLe g1 g2 → revealedLe g2 g3 → revealedLe g1 g3.
Proof.
  unfold revealedLe. intros H12 H23.
  assert (Transitive (λ c c' : Cell, isRevealed c = true → isRevealed c' = true))
    by (intros c1 c2 c3; auto).
  by etrans.
Qed.

Lemma revealedLe_run s actions : revealedLe (grid s) (grid (run s actions)).
Proof.
  revert s. induction actions as [|a actions IH]; intros s.
  - apply Forall2_grid_refl. auto.
  - cbn [run fold_left].
    eapply revealedLe_trans; [apply revealedLe_step|apply IH].
Qed.

Lemma revealStep_cases x y dy dx g nx ny :
  (∀ c, cellAt g nx ny = Some c → isRevealed c = true)
  ∨ (x + dx = nx ∧ y + dy = ny ∧ inBounds nx ny = true) →
  ∀ c, cellAt (revealStep x y dy g dx) nx ny = Some c → isRevealed c = true.
Proof.
  intros H c. unfold revealStep.
  destruct H as [H|(<- & <- & ->)].
  - destruct (inBounds (x + dx) (y + dy)); [|apply H].
    rewrite cellAt_updCell. destruct (decide _); [|apply H].
    destruct (cellAt g nx ny); [|discriminate]. by intros [= <-].
  - rewrite cellAt_updCell, decide_True by auto.
    destruct (cellAt g (x + dx) (y + dy)); [|discriminate]. by intros [= <-].
Qed.

Lemma revealAdjacentCells_reveals x y g nx ny c :
  inBounds nx ny = true → calculateDistance x y nx ny ≤ 1 →
  cellAt (revealAdjacentCells x y g) nx ny = Some c → isRevealed c = true.
Proof.
  intros Hin Hdist. unfold calculateDistance in Hdist.
  unfold revealAdjacentCells, offsets. cbn [fold_left]. revert c.
  assert (Hx : nx = x + -1 ∨ nx = x + 0 ∨ nx = x + 1) by lia.
  assert (Hy : ny = y + -1 ∨ ny = y + 0 ∨ ny = y + 1) by lia.
  destruct Hx as [Hx|[Hx|Hx]], Hy as [Hy|[Hy|Hy]];
    repeat (apply revealStep_cases;
            first [ right; split; [symmetry; exact Hx|];
                    split; [symmetry; exact Hy|exact Hin]
                  | left ]).
Qed.

Lemma wellFormed_cellAt g x y :
  wellFormed g → inBounds x y = true → is_Some (cellAt g x y).
Proof.
  intros (Hlen & Hrows & _). unfold inBounds, GRID_SIZE in *.
  intros [[[Hx0 Hx]%andb_true_iff Hy0]%andb_true_iff Hy]%andb_true_iff.
  unfold cellAt. rewrite Hx0, Hy0. cbn [andb]. unfold cellObj. cbn [fst snd].
  apply Z.leb_le in Hx0, Hy0. apply Z.ltb_lt in Hx, Hy.
  destruct (lookup_lt_is_Some_2 g (Z.to_nat y)) as [row Hrow]; [lia|].
  rewrite Hrow. cbn. apply lookup_lt_is_Some_2.
  rewrite (Forall_lookup_1 _ _ _ _ Hrows Hrow). lia.
Qed.

Lemma wellFormed_initialGrid rnd : wellFormed (initialGrid rnd).
Proof.
  unfold initialGrid. apply wellFormed_reveal.
  apply wellFormed_updCell; [by intros c|].
  split; [|split].
  - by rewrite length_fmap, length_seq.
  - apply Forall_fmap, Forall_forall. intros y _. cbn.
    by rewrite length_fmap, length_seq.
  - intros [i j] c. unfold cellObj. cbn [fst snd].
    rewrite list_lookup_fmap.
    destruct (seq 0 (Z.to_nat GRID_SIZE) !! i) as [y|] eqn:Hy; [|discriminate].
    apply lookup_seq in Hy as [-> _]. cbn.
    rewrite list_lookup_fmap.
    destruct (seq 0 (Z.to_nat GRID_SIZE) !! j) as [x|] eqn:Hx; [|discriminate].
    apply lookup_seq in Hx as [-> _]. cbn. intros [= <-]. cbn. auto.
Qed.

Lemma wellFormed_step s a : wellFormed (grid s) → wellFormed (grid (step s a)).
Proof.
  intros Hs. destruct a as [x y t|d]; cbn [step]; [|exact Hs].
  destruct (placeBuilding s x y t) as [s'| |] eqn:Hplace; cbn [stateAfter];
    [|exact Hs..].
  apply placeBuilding_Placed in Hplace as (cost & _ & _ & _ & -> & _).
  by apply wellFormed_placedGrid.
Qed.

Lemma wellFormed_run s actions :
  wellFormed (grid s) → wellFormed (grid (run s actions)).
Proof.
  revert s. induction actions as [|a actions IH]; intros s Hs; [exact Hs|].
  cbn [run fold_left]. apply IH, wellFormed_step, Hs.
Qed.

(** C10.  No operation sets a revealed cell back to unrevealed; a successful
    placement at [(x, y)] reveals every in-bounds cell within Chebyshev
    distance 1 of [(x, y)]; and along every sequence of operations from the
    initial state the territory control percentage, which is
    round(100 times the number of revealed cells divided by 144), never
    decreases. *)
Theorem reveal_is_monotone :
  (∀ s a x y c,
     cellAt (grid s) x y = Some c → isRevealed c = true →
     ∃ c', cellAt (grid (step s a)) x y = Some c' ∧ isRevealed c' = true) ∧
  (∀ s x y t s',
     wellFormed (grid s) → placeBuilding s x y t = Placed s' →
     ∀ nx ny, inBounds nx ny = true → calculateDistance x y nx ny ≤ 1 →
       ∃ c, cellAt (grid s') nx ny = Some c ∧ isRevealed c = true) ∧
  (∀ rnd actions more,
     let s := run (initialState rnd) actions in
     wellFormed (grid s) ∧
     territoryControlPercentage s = territorySpec (grid s) ∧
     territoryControlPercentage s ≤ territoryControlPercentage (run s more)).
Proof.
  split; [|split].
  - intros s a x y c. apply revealedLe_cellAt, revealedLe_step.
  - intros s x y t s' Hwf Hplace nx ny Hin Hdist.
    apply placeBuilding_Placed in Hplace as (cost & _ & _ & _ & -> & _).
    destruct (wellFormed_cellAt _ nx ny
                (wellFormed_placedGrid _ x y t
                   (calculateAdjacencyBonus (grid s) x y t) Hwf) Hin)
      as [c Hc].
    exists c. split; [exact Hc|].
    unfold placedGrid in Hc.
    apply (revealedLe_cellAt_r (revealAdjacentCells x y (grid s))) in Hc
      as (c1 & Hc1 & Hrev).
    + apply Hrev. by eapply revealAdjacentCells_reveals.
    + apply revealedLe_refresh, revealedLe_updCell; [by intros ?|].
      apply Forall2_grid_refl. auto.
  - intros rnd actions more. cbv zeta.
    pose proof (territory_in_sync_run _ actions (territory_in_sync_initial rnd))
      as Hsync.
    split; [apply wellFormed_run, wellFormed_initialGrid|].
    split; [by rewrite Hsync, calculateTerritoryControl_spec|].
    rewrite (territory_in_sync_run _ more Hsync), Hsync.
    apply calculateTerritoryControl_mono, revealedLe_run.
Qed.

(** ** Concrete runs *)

(** The sample grid is [GRID_SIZE] x [GRID_SIZE] with matching coordinates. *)
Lemma sampleState_wellFormed : wellFormed (grid sampleState).
Proof. apply wellFormed_initialGrid. Qed.

(** Placing a house next to the castle of the sample state: the house and
    the castle both get their base income plus the neighbour sum. *)
Lemma adjacency_bonus_sample :
  let s' := stateAfter sampleState (placeBuilding sampleState 5 6 house) in
  wellFormed (grid sampleState) ∧
  placeBuilding sampleState 5 6 house = Placed s' ∧
  calculateAdjacencyBonus (grid sampleState) 5 6 house
    = adjacencySum (grid sampleState) 5 6 house ∧
  ∀ cx cy c b, cellAt (grid s') cx cy = Some c → playerBuilding c = Some b →
    income b = getBaseIncome (type b) + adjacencySum (grid s') cx cy (type b).
Proof.
  cbv zeta. split; [exact sampleState_wellFormed|].
  split; [vm_compute; reflexivity|].
  split.
  - apply (proj1 (adjacency_bonus_is_neighbour_sum sampleState sampleState_wellFormed)).
  - apply (proj2 (adjacency_bonus_is_neighbour_sum sampleState sampleState_wellFormed)
             5 6 house).
    vm_compute. reflexivity.
Defined.

(** A castle can never be placed, a house next to the castle can. *)
Lemma placement_sample :
  stateAfter sampleState (placeBuilding sampleState 5 6 castle) = sampleState ∧
  placementAllowed sampleState 5 6 house ∧
  ∃ s' c b, placeBuilding sampleState 5 6 house = Placed s' ∧
            cellAt (grid s') 5 6 = Some c ∧ building c = Some b ∧
            type b = house ∧ owner b = player.
Proof.
  assert (Hhouse : placementAllowed sampleState 5 6 house).
  { apply (proj1 (placeBuilding_gated sampleState 5 6 house)
             (stateAfter sampleState (placeBuilding sampleState 5 6 house))).
    vm_compute. reflexivity. }
  split; [|split].
  - apply (proj1 (proj2 (placeBuilding_gated sampleState 5 6 castle))).
    intros (cell & cost & _ & _ & _ & _ & _ & _ & Hcost & _). discriminate Hcost.
  - exact Hhouse.
  - apply (proj2 (proj2 (placeBuilding_gated sampleState 5 6 house))). exact Hhouse.
Defined.

(** C6 (counterexample).  After 63 turns from the sample state the player has
    199 population and more than enough of everything else; placing a house
    lifts the population to 201, so the resulting state meets the resource
    victory condition, yet the game is not in the victory phase. *)
Lemma placement_does_not_enter_victory :
  let s := run sampleState longReign in
  let s' := stateAfter s (placeBuilding s 5 6 house) in
  placeBuilding s 5 6 house = Placed s' ∧
  gs_player s' = mkPlayer 7278 201 179 545 384 ∧
  checkVictoryConditions s' = mkVictory true (Some by_resources) ∧
  gamePhase s' = placement ∧ gameWon s' = false.
Proof. vm_compute. repeat split; reflexivity. Qed.

(** The evaluation made by a turn advance reads the state before the turn:
    from the same state, a turn advance leads to a state that meets the
    resource condition without entering the victory phase. *)
Example turn_advance_evaluates_previous_state :
  let s := run sampleState longReign in
  let s' := nextTurn s quietDraws in
  won (checkVictoryConditions s) = false ∧
  won (checkVictoryConditions s') = true ∧
  gamePhase s' = placement ∧ gameWon s' = false.
Proof. vm_compute. repeat split; reflexivity. Qed.

Lemma achievements_recomputed_sample :
  let s' := stateAfter sampleState (placeBuilding sampleState 5 6 house) in
  placeBuilding sampleState 5 6 house = Placed s' ∧
  achievements s' =
    updateAchievements (grid s') (gs_player s') (territoryControlPercentage s')
      (achievements s') ∧
  gameWon s' = gameWon sampleState ∧ victoryType s' = victoryType sampleState ∧
  showVictoryScreen s' = showVictoryScreen sampleState ∧
  gamePhase s' = gamePhase sampleState.
Proof.
  cbv zeta.
  assert (H : placeBuilding sampleState 5 6 house
              = Placed (stateAfter sampleState (placeBuilding sampleState 5 6 house)))
    by (vm_compute; reflexivity).
  split; [exact H|].
  exact (proj2 (achievements_recomputed_after_every_change sampleState) 5 6 house _ H).
Defined.

(** C7 (counterexample).  From the same state, a turn with a gold discovery
    and a turn without random event end with different gold totals, different
    turn events and different states. *)
Lemma nextTurn_depends_on_random_draws :
  gold (gs_player (nextTurn sampleState quietDraws)) = 328 ∧
  gold (gs_player (nextTurn sampleState discoveryDraws)) = 528 ∧
  length (turnEvents (nextTurn sampleState quietDraws)) = 1%nat ∧
  length (turnEvents (nextTurn sampleState discoveryDraws)) = 2%nat ∧
  nextTurn sampleState quietDraws ≠ nextTurn sampleState discoveryDraws.
Proof.
  repeat split; try (vm_compute; reflexivity).
  intros H. apply (f_equal (λ s, gold (gs_player s))) in H.
  vm_compute in H. discriminate H.
Qed.

Lemma nextTurn_deterministic_sample :
  (0.23 <= randomChance quietDraws)%Q ∧
  (0.23 <= randomChance otherQuietDraws)%Q ∧
  nextTurn sampleState quietDraws = nextTurn sampleState otherQuietDraws.
Proof.
  assert (H1 : (0.23 <= randomChance quietDraws)%Q) by (vm_compute; discriminate).
  assert (H2 : (0.23 <= randomChance otherQuietDraws)%Q) by (vm_compute; discriminate).
  split; [exact H1|]. split; [exact H2|].
  exact (nextTurn_deterministic_without_random_events sampleState _ _ H1 H2).
Defined.

Lemma resources_sample :
  nonNegative (gs_player (run (initialState allGrass)
                            (longReign ++ [Place 5 6 house]))) ∧
  ∃ cost, BUILDING_COSTS house = Some cost ∧
          cost_gold cost ≤ gold (gs_player sampleState).
Proof.
  destruct (resources_never_negative allGrass (longReign ++ [Place 5 6 house]))
    as (_ & Hrun & _ & Hplace).
  split; [exact Hrun|].
  destruct (Hplace sampleState 5 6 house
              (stateAfter sampleState (placeBuilding sampleState 5 6 house)))
    as (cost & Hcost & Hgold & _); [vm_compute; reflexivity|].
  exists cost. auto.
Defined.

Lemma reveal_sample :
  let s' := stateAfter sampleState (placeBuilding sampleState 5 6 house) in
  (∃ c, cellAt (grid s') 4 7 = Some c ∧ isRevealed c = true) ∧
  territoryControlPercentage sampleState ≤ territoryControlPercentage s'.
Proof.
  cbv zeta. destruct reveal_is_monotone as (_ & Hplace & Hrun). split.
  - apply (Hplace sampleState 5 6 house); [exact sampleState_wellFormed| | |];
      vm_compute; first [reflexivity | discriminate].
  - exact (proj2 (proj2 (Hrun allGrass [] [Place 5 6 house]))).
Defined.

End EmpireFacts.

(** * Properties of the gallery's loading strategy *)

Module GalleryFacts.
Import Gallery.

Lemma updateViewportInfo_strategy b st :
  loadingStrategy (updateViewportInfo b st) =
  if innerWidth b <? innerHeight b then pagination
  else match detectedSpeed (navigator b) with
       | fast => infinite_scroll
       | slow => load_more
       end.
Proof.
  unfold updateViewportInfo, detectConnectionSpeed. cbn [loadingStrategy].
  destruct (innerWidth b <? innerHeight b), (detectedSpeed (navigator b));
    reflexivity.
Qed.

(** C8.  The loading strategy selected by [updateViewportInfo] is determined by
    the orientation and the detected connection speed alone: landscape with a
    fast connection selects infinite scroll, landscape with a slow connection
    selects the load-more button, and portrait selects pagination whatever the
    connection speed. *)
Theorem loading_strategy_by_orientation_and_speed (b : Browser) (st : LayoutState) :
  let st' := updateViewportInfo b st in
  isPortrait st' = (innerWidth b <? innerHeight b) ∧
  connectionSpeed st' = detectedSpeed (navigator b) ∧
  (isPortrait st' = false → connectionSpeed st' = fast →
     loadingStrategy st' = infinite_scroll) ∧
  (isPortrait st' = false → connectionSpeed st' = slow →
     loadingStrategy st' = load_more) ∧
  (isPortrait st' = true → loadingStrategy st' = pagination).
Proof.
  cbv zeta. rewrite updateViewportInfo_strategy.
  assert (Hp : isPortrait (updateViewportInfo b st) = (innerWidth b <? innerHeight b))
    by reflexivity.
  assert (Hs : connectionSpeed (updateViewportInfo b st) = detectedSpeed (navigator b))
    by reflexivity.
  rewrite Hp, Hs.
  destruct (innerWidth b <? innerHeight b), (detectedSpeed (navigator b));
    repeat split; congruence.
Qed.

(** A [change] event of the connection runs [detectConnectionSpeed] alone:
    the recorded speed follows the connection, the strategy stays as selected
    by the last [updateViewportInfo]. *)
Example connection_change_keeps_strategy :
  let st := updateViewportInfo desktopFast (initialLayout desktopFast) in
  let st' := (detectConnectionSpeed (navigator desktopSlow) st).1 in
  connectionSpeed st' = slow ∧ isPortrait st' = false ∧
  loadingStrategy st' = infinite_scroll.
Proof. repeat split; reflexivity. Qed.

Lemma loading_strategy_samples :
  loadingStrategy (updateViewportInfo desktopFast (initialLayout desktopFast))
    = infinite_scroll ∧
  loadingStrategy (updateViewportInfo desktopSlow (initialLayout desktopSlow))
    = load_more ∧
  loadingStrategy (updateViewportInfo phone (initialLayout phone)) = pagination.
Proof.
  split; [|split].
  - apply (loading_strategy_by_orientation_and_speed desktopFast); reflexivity.
  - apply (loading_strategy_by_orientation_and_speed desktopSlow); reflexivity.
  - apply (loading_strategy_by_orientation_and_speed phone); reflexivity.
Defined.

End GalleryFacts.

(** * Further properties of the rules engine *)

Module EmpireExtras.
Import Empire EmpireFacts.

(** ** Distances *)

(** X1.  [calculateDistance] is the Chebyshev metric: it is never negative,
    zero exactly between a point and itself, symmetric, and satisfies the
    triangle inequality. *)
Theorem calculateDistance_is_a_metric (x1 y1 x2 y2 x3 y3 : Z) :
  0 ≤ calculateDistance x1 y1 x2 y2 ∧
  (calculateDistance x1 y1 x2 y2 = 0 ↔ x1 = x2 ∧ y1 = y2) ∧
  calculateDistance x1 y1 x2 y2 = calculateDistance x2 y2 x1 y1 ∧
  calculateDistance x1 y1 x3 y3
    ≤ calculateDistance x1 y1 x2 y2 + calculateDistance x2 y2 x3 y3.
Proof. unfold calculateDistance. repeat split; lia. Qed.

Lemma fold_left_pointwise {A B} (f f' : A → B → A) (l : list B) (a : A) :
  (∀ a b, f a b = f' a b) → fold_left f l a = fold_left f' l a.
Proof.
  intros Hff. revert a. induction l as [|b l IH]; intros a; [reflexivity|].
  cbn [fold_left]. rewrite Hff. apply IH.
Qed.

(** A running minimum over the selected elements of a list. *)
Lemma running_minimum {A} (sel : A → bool) (dist : A → Z) (l : list A) (m : option Z) :
  match fold_left (λ acc c, if sel c then minInf acc (dist c) else acc) l m with
  | None => m = None ∧ ∀ c, c ∈ l → sel c = false
  | Some d =>
      (m = Some d ∨ ∃ c, c ∈ l ∧ sel c = true ∧ d = dist c) ∧
      (∀ m', m = Some m' → d ≤ m') ∧
      (∀ c, c ∈ l → sel c = true → d ≤ dist c)
  end.
Proof.
  revert m. induction l as [|c l IH]; intros m; cbn [fold_left].
  - destruct m as [d|].
    + split; [by left|]. split; [intros ? [= <-]; lia|].
      intros c Hc. by apply elem_of_nil in Hc.
    + split; [reflexivity|]. intros c Hc. by apply elem_of_nil in Hc.
  - destruct (sel c) eqn:Hsel.
    + specialize (IH (minInf m (dist c))).
      destruct (fold_left _ l _) as [d|].
      * destruct IH as (Hwit & Hle & Hall). split; [|split].
        -- destruct Hwit as [Hm|(c' & Hc' & Hp' & Hd)].
           ++ destruct m as [m'|]; cbn in Hm; injection Hm as Hm.
              ** destruct (Z.min_spec m' (dist c)) as [[_ Hmin]|[_ Hmin]];
                   rewrite Hmin in Hm.
                 --- left. congruence.
                 --- right. exists c. split; [apply elem_of_cons; by left|]. auto.
              ** right. exists c. split; [apply elem_of_cons; by left|]. auto.
           ++ right. exists c'. split; [apply elem_of_cons; by right|]. auto.
        -- intros m' ->. cbn in Hle. specialize (Hle _ eq_refl). lia.
        -- intros c' Hc' Hp'. apply elem_of_cons in Hc' as [->|Hc']; [|by apply Hall].
           destruct m as [m'|]; cbn in Hle; specialize (Hle _ eq_refl); lia.
      * destruct IH as [Hm _]. destruct m; discriminate.
    + specialize (IH m). destruct (fold_left _ l m) as [d|].
      * destruct IH as (Hwit & Hle & Hall). split; [|split]; [|exact Hle|].
        -- destruct Hwit as [Hm|(c' & Hc' & Hp' & Hd)]; [by left|].
           right. exists c'. split; [apply elem_of_cons; by right|]. auto.
        -- intros c' Hc' Hp'. apply elem_of_cons in Hc' as [->|Hc']; [congruence|].
           by apply Hall.
      * destruct IH as [Hm Hall]. split; [exact Hm|].
        intros c' Hc'. apply elem_of_cons in Hc' as [->|Hc']; [exact Hsel|by apply Hall].
Qed.

Lemma findNearestBuilding_fold g x y bt :
  findNearestBuilding g x y bt =
  fold_left (λ acc c, if countsFor bt c
                      then minInf acc (calculateDistance x y (cell_x c) (cell_y c))
                      else acc) (flat g) None.
Proof.
  unfold findNearestBuilding. apply fold_left_pointwise. intros acc c.
  unfold countsFor. destruct (playerBuilding c); reflexivity.
Qed.

(** X2.  [findNearestBuilding(x, y, buildingType)] returns [null] exactly when
    no player-owned building (of the requested type, when one is given) is on
    the grid; otherwise it returns the smallest Chebyshev distance from
    [(x, y)] to such a building, which some building attains. *)
Theorem findNearestBuilding_is_minimum
    (g : Grid) (x y : Z) (bt : option BuildingType) :
  (findNearestBuilding g x y bt = None ↔ ∀ c, c ∈ flat g → countsFor bt c = false) ∧
  (∀ d, findNearestBuilding g x y bt = Some d ↔
        (∃ c, c ∈ flat g ∧ countsFor bt c = true
              ∧ d = calculateDistance x y (cell_x c) (cell_y c)) ∧
        (∀ c, c ∈ flat g → countsFor bt c = true →
              d ≤ calculateDistance x y (cell_x c) (cell_y c))).
Proof.
  rewrite findNearestBuilding_fold.
  pose proof (running_minimum (countsFor bt)
                (λ c, calculateDistance x y (cell_x c) (cell_y c)) (flat g) None) as H.
  cbv beta in H.
  destruct (fold_left _ (flat g) None) as [d'|].
  - destruct H as ([?|(c0 & Hc0 & Hs0 & Hd0)] & _ & Hall); [discriminate|].
    split.
    + split; [discriminate|]. intros Hnone. rewrite (Hnone c0 Hc0) in Hs0. discriminate.
    + intros d. split.
      * intros [= <-]. eauto.
      * intros [(c & Hc & Hs & Hd) Hmin]. f_equal.
        specialize (Hall c Hc Hs). specialize (Hmin c0 Hc0 Hs0). lia.
  - destruct H as [_ Hnone]. split; [tauto|].
    intros d. split; [discriminate|].
    intros [(c & Hc & Hs & _) _]. rewrite (Hnone c Hc) in Hs. discriminate.
Qed.

(** ** Buildings stay where they are *)

Lemma elem_of_flat (g : Grid) c : c ∈ flat g ↔ ∃ x y, cellAt g x y = Some c.
Proof.
  unfold flat. rewrite list_elem_of_In, in_concat. split.
  - intros (row & Hrow%list_elem_of_In & Hc%list_elem_of_In).
    apply list_elem_of_lookup in Hrow as [i Hi].
    apply list_elem_of_lookup in Hc as [j Hj].
    exists (Z.of_nat j), (Z.of_nat i). unfold cellAt, cellObj.
    replace ((0 <=? Z.of_nat j) && (0 <=? Z.of_nat i)) with true
      by (symmetry; apply andb_true_iff; split; apply Z.leb_le; lia).
    cbn [fst snd]. rewrite !Nat2Z.id, Hi. exact Hj.
  - intros (x & y & Hc). unfold cellAt in Hc.
    destruct ((0 <=? x) && (0 <=? y)); [|discriminate].
    unfold cellObj in Hc. cbn [fst snd] in Hc.
    destruct (g !! Z.to_nat y) as [row|] eqn:Hrow; [|discriminate].
    exists row. split; apply list_elem_of_In; eapply list_elem_of_lookup_2; eauto.
Qed.

Lemma playerTypeAt_reveal x y g x' y' :
  playerTypeAt (revealAdjacentCells x y g) x' y' = playerTypeAt g x' y'.
Proof.
  unfold revealAdjacentCells.
  apply (fold_offsets_invariant
           (λ g', playerTypeAt g' x' y' = playerTypeAt g x' y')); [|reflexivity].
  intros dy g' dx Hg'. unfold revealStep.
  destruct (inBounds (x + dx) (y + dy)); [|exact Hg'].
  rewrite <- Hg'. unfold playerTypeAt. rewrite cellAt_updCell.
  destruct (decide _); [|reflexivity].
  destruct (cellAt g' x' y'); reflexivity.
Qed.

(** The building layout after the updater of [placeBuilding]. *)
Lemma playerTypeAt_placedGrid g x y t bonus x' y' :
  is_Some (cellAt g x y) →
  playerTypeAt (placedGrid g x y t bonus) x' y' =
  if decide (x = x' ∧ y = y') then Some t else playerTypeAt g x' y'.
Proof.
  intros Hcell. unfold placedGrid. rewrite playerTypeAt_refresh.
  destruct (decide (x = x' ∧ y = y')) as [[<- <-]|Hne].
  - unfold playerTypeAt. rewrite cellAt_updCell, decide_True by auto.
    destruct (cellAt_reveal_is_Some x y g x y Hcell) as [c1 ->]. reflexivity.
  - rewrite <- (playerTypeAt_reveal x y g x' y'). unfold playerTypeAt.
    rewrite cellAt_updCell, decide_False by exact Hne. reflexivity.
Qed.

Lemma isValidPlacement_cell g x y t :
  isValidPlacement g x y t = Some true →
  ∃ cell, cellAt g x y = Some cell ∧ isRevealed cell = true ∧ building cell = None.
Proof.
  intros (cell & ? & ? & ? & _)%isValidPlacement_true. eauto.
Qed.

Lemma placeBuilding_layout s x y t s' :
  placeBuilding s x y t = Placed s' →
  playerTypeAt (grid s) x y = None ∧
  ∀ x' y', playerTypeAt (grid s') x' y' =
           if decide (x = x' ∧ y = y') then Some t else playerTypeAt (grid s) x' y'.
Proof.
  intros H. apply placeBuilding_Placed in H as (cost & Hvalid & _ & _ & -> & _).
  apply isValidPlacement_cell in Hvalid as (cell & Hcell & _ & Hnone).
  split.
  - unfold playerTypeAt, playerBuilding. rewrite Hcell. cbn. by rewrite Hnone.
  - intros x' y'. apply playerTypeAt_placedGrid. by rewrite Hcell.
Qed.

Lemma playerTypeAt_step s a x y t :
  playerTypeAt (grid s) x y = Some t → playerTypeAt (grid (step s a)) x y = Some t.
Proof.
  intros Ht. destruct a as [px py pt|d]; cbn [step]; [|exact Ht].
  destruct (placeBuilding s px py pt) as [s'| |] eqn:Hplace; cbn [stateAfter];
    [|exact Ht..].
  apply placeBuilding_layout in Hplace as [Hnone Hlayout].
  rewrite Hlayout. destruct (decide (px = x ∧ py = y)) as [[-> ->]|_]; [|exact Ht].
  congruence.
Qed.

(** X3.  A successful placement changes the layout of player buildings at the
    target cell only, which was empty and now holds the new type; and no
    operation ever removes or replaces a player building. *)
Theorem buildings_are_permanent :
  (∀ s x y t s', placeBuilding s x y t = Placed s' →
     playerTypeAt (grid s) x y = None ∧
     ∀ x' y', playerTypeAt (grid s') x' y' =
              if decide (x = x' ∧ y = y') then Some t
              else playerTypeAt (grid s) x' y') ∧
  (∀ s actions x y t,
     playerTypeAt (grid s) x y = Some t →
     playerTypeAt (grid (run s actions)) x y = Some t).
Proof.
  split; [apply placeBuilding_layout|].
  intros s actions. revert s.
  induction actions as [|a actions IH]; intros s x y t Ht; [exact Ht|].
  cbn [run fold_left]. apply IH, playerTypeAt_step, Ht.
Qed.

(** ** The revealed area hugs the buildings *)

Lemma fold_offsets_bounded {A} (P : A → Prop) (f : Z → A → Z → A) (a : A) :
  (∀ dy a' dx, -1 ≤ dy ≤ 1 → -1 ≤ dx ≤ 1 → P a' → P (f dy a' dx)) →
  P a → P (fold_left (λ a' dy, fold_left (f dy) offsets a') offsets a).
Proof. intros Hf Ha. cbn. repeat (apply Hf; [lia|lia|]). exact Ha. Qed.

(** [revealAdjacentCells] reveals nothing outside the 3 x 3 block. *)
Lemma revealAdjacentCells_only_block x y g nx ny c :
  cellAt (revealAdjacentCells x y g) nx ny = Some c → isRevealed c = true →
  (∃ c0, cellAt g nx ny = Some c0 ∧ isRevealed c0 = true)
  ∨ calculateDistance x y nx ny ≤ 1.
Proof.
  unfold revealAdjacentCells. revert c.
  apply (fold_offsets_bounded
           (λ g', ∀ c, cellAt g' nx ny = Some c → isRevealed c = true →
                       (∃ c0, cellAt g nx ny = Some c0 ∧ isRevealed c0 = true)
                       ∨ calculateDistance x y nx ny ≤ 1)).
  - intros dy g' dx Hdy Hdx Hg' c. unfold revealStep.
    destruct (inBounds (x + dx) (y + dy)); [|apply Hg'].
    rewrite cellAt_updCell.
    destruct (decide (x + dx = nx ∧ y + dy = ny)) as [[<- <-]|_]; [|apply Hg'].
    intros _ _. right. unfold calculateDistance. lia.
  - intros c Hc Hrev. left. eauto.
Qed.

Lemma initialGrid_castle rnd : playerTypeAt (initialGrid rnd) 6 6 = Some castle.
Proof. reflexivity. Qed.

Lemma initialGrid_buildings rnd x y t :
  playerTypeAt (initialGrid rnd) x y = Some t → t = castle ∧ x = 6 ∧ y = 6.
Proof.
  unfold initialGrid. rewrite playerTypeAt_reveal. unfold playerTypeAt.
  rewrite cellAt_updCell. change (GRID_SIZE / 2) with 6.
  destruct (decide (6 = x ∧ 6 = y)) as [[<- <-]|_].
  - destruct (cellAt _ 6 6); cbn; [|discriminate]. by intros [= <-].
  - unfold cellAt, cellObj. destruct ((0 <=? x) && (0 <=? y)); [|discriminate].
    cbn [fst snd]. rewrite list_lookup_fmap.
    destruct (seq 0 (Z.to_nat GRID_SIZE) !! Z.to_nat y); [cbn|discriminate].
    rewrite list_lookup_fmap.
    destruct (seq 0 (Z.to_nat GRID_SIZE) !! Z.to_nat x); discriminate.
Qed.

Lemma initialGrid_revealed rnd x y c :
  cellAt (initialGrid rnd) x y = Some c → isRevealed c = true →
  calculateDistance 6 6 x y ≤ 1.
Proof.
  unfold initialGrid. change (GRID_SIZE / 2) with 6. intros Hc Hrev.
  destruct (revealAdjacentCells_only_block _ _ _ _ _ _ Hc Hrev)
    as [(c0 & Hc0 & Hrev0)|Hd]; [|exact Hd].
  exfalso. rewrite cellAt_updCell in Hc0.
  assert (Hbase : ∀ c1,
            cellAt ((λ y0, (λ x0, initialCell rnd y0 x0) <$> seq 0 (Z.to_nat GRID_SIZE))
                      <$> seq 0 (Z.to_nat GRID_SIZE)) x y = Some c1 →
            isRevealed c1 = false).
  { intros c1. unfold cellAt, cellObj.
    destruct ((0 <=? x) && (0 <=? y)); [|discriminate].
    cbn [fst snd]. rewrite list_lookup_fmap.
    destruct (seq 0 (Z.to_nat GRID_SIZE) !! Z.to_nat y); [cbn|discriminate].
    rewrite list_lookup_fmap.
    destruct (seq 0 (Z.to_nat GRID_SIZE) !! Z.to_nat x); [cbn|discriminate].
    by intros [= <-]. }
  destruct (decide (6 = x ∧ 6 = y)).
  - apply fmap_Some in Hc0 as (c1 & Hc1 & ->). cbn in Hrev0.
    rewrite (Hbase c1 Hc1) in Hrev0. discriminate.
  - rewrite (Hbase c0 Hc0) in Hrev0. discriminate.
Qed.

Lemma revealedNearBuildings_initial rnd : revealedNearBuildings (initialGrid rnd).
Proof.
  intros x y c Hc Hrev. exists 6, 6. split.
  - rewrite initialGrid_castle. eauto.
  - pose proof (initialGrid_revealed rnd x y c Hc Hrev) as H.
    unfold calculateDistance in *. lia.
Qed.

Lemma isRevealed_placedGrid g x y t bonus nx ny c :
  cellAt (placedGrid g x y t bonus) nx ny = Some c → isRevealed c = true →
  ∃ c1, cellAt (revealAdjacentCells x y g) nx ny = Some c1 ∧ isRevealed c1 = true.
Proof.
  unfold placedGrid. rewrite updateAllAdjacencyBonuses_map, cellAt_fmap, cellAt_updCell.
  destruct (cellAt (revealAdjacentCells x y g) nx ny) as [c1|];
    [|by destruct (decide _)].
  intros Hc Hrev. exists c1. split; [reflexivity|].
  destruct (decide _); cbn in Hc; injection Hc as <-;
    rewrite (proj2 (proj2 (refreshCell_fields _ _))) in Hrev; exact Hrev.
Qed.

Lemma revealedNearBuildings_placed s x y t s' :
  placeBuilding s x y t = Placed s' →
  revealedNearBuildings (grid s) → revealedNearBuildings (grid s').
Proof.
  intros Hplace Hinv nx ny c Hc Hrev.
  pose proof (placeBuilding_layout _ _ _ _ _ Hplace) as [Hnone Hlayout].
  apply placeBuilding_Placed in Hplace as (cost & _ & _ & _ & Hgrid & _).
  rewrite Hgrid in Hc.
  apply isRevealed_placedGrid in Hc as (c1 & Hc1 & Hrev1); [|exact Hrev].
  destruct (revealAdjacentCells_only_block _ _ _ _ _ _ Hc1 Hrev1)
    as [(c0 & Hc0 & Hrev0)|Hd].
  - destruct (Hinv nx ny c0 Hc0 Hrev0) as (bx & by' & [t0 Ht0] & Hdist).
    exists bx, by'. split; [|exact Hdist].
    rewrite Hlayout. destruct (decide _); eauto.
  - exists x, y. split.
    + rewrite Hlayout, decide_True by auto. eauto.
    + unfold calculateDistance in *. lia.
Qed.

Lemma revealedNearBuildings_step s a :
  revealedNearBuildings (grid s) → revealedNearBuildings (grid (step s a)).
Proof.
  intros Hs. destruct a as [x y t|d]; cbn [step]; [|exact Hs].
  destruct (placeBuilding s x y t) as [s'| |] eqn:Hplace; cbn [stateAfter];
    [|exact Hs..].
  by eapply revealedNearBuildings_placed.
Qed.

Lemma revealedNearBuildings_run s actions :
  revealedNearBuildings (grid s) → revealedNearBuildings (grid (run s actions)).
Proof.
  revert s. induction actions as [|a actions IH]; intros s Hs; [exact Hs|].
  cbn [run fold_left]. apply IH, revealedNearBuildings_step, Hs.
Qed.

(** X4.  In every state reached from the initial state, each revealed cell
    has a player-owned building on it or next to it (Chebyshev distance at
    most 1): the revealed area is exactly what the buildings have
    uncovered. *)
Theorem revealed_cells_touch_a_building (rnd : nat → nat → Q * Q) (actions : list Action) :
  revealedNearBuildings (grid (run (initialState rnd) actions)).
Proof.
  apply (revealedNearBuildings_run (initialState rnd)), revealedNearBuildings_initial.
Qed.

(** ** Barracks *)

(** On a well-formed grid whose revealed cells all touch a building, the
    distance rule of the barracks (at least 2 from the nearest building)
    cannot be met. *)
Lemma barracks_rejected s x y s' :
  wellFormed (grid s) → revealedNearBuildings (grid s) →
  placeBuilding s x y barracks ≠ Placed s'.
Proof.
  intros Hwf Hnear Hplace.
  apply placeBuilding_Placed in Hplace as (cost & Hvalid & _).
  apply isValidPlacement_true in Hvalid
    as (cell & Hcell & Hrev & _ & _ & _ & Hdist).
  destruct (Hdist ltac:(discriminate)) as (d & [_ Hmin] & Hrange & _).
  cbn in Hrange.
  destruct (Hnear x y cell Hcell Hrev) as (bx & by' & [t Ht] & Hclose).
  unfold playerTypeAt in Ht.
  destruct (cellAt (grid s) bx by') as [cb|] eqn:Hcb; [cbn in Ht|discriminate].
  destruct (playerBuilding cb) as [b|] eqn:Hb; [|discriminate].
  destruct (wellFormed_coords _ _ _ _ Hwf Hcb) as [Hx Hy].
  specialize (Hmin cb).
  rewrite Hx, Hy in Hmin. unfold calculateDistance in Hclose.
  assert (d ≤ 1); [|lia].
  etrans; [apply Hmin|exact Hclose].
  - apply elem_of_flat. eauto.
  - apply isPlayerCell_true. eauto.
Qed.

Lemma no_barracks_step s a :
  wellFormed (grid s) → revealedNearBuildings (grid s) →
  (∀ x y, playerTypeAt (grid s) x y ≠ Some barracks) →
  ∀ x y, playerTypeAt (grid (step s a)) x y ≠ Some barracks.
Proof.
  intros Hwf Hnear Hnone. destruct a as [px py t|d]; cbn [step]; [|exact Hnone].
  destruct (placeBuilding s px py t) as [s'| |] eqn:Hplace; cbn [stateAfter];
    [|exact Hnone..].
  intros x y. rewrite (proj2 (placeBuilding_layout _ _ _ _ _ Hplace)).
  destruct (decide _); [|apply Hnone].
  intros [= ->]. by eapply barracks_rejected.
Qed.

Lemma no_barracks_run s actions :
  wellFormed (grid s) → revealedNearBuildings (grid s) →
  (∀ x y, playerTypeAt (grid s) x y ≠ Some barracks) →
  ∀ x y, playerTypeAt (grid (run s actions)) x y ≠ Some barracks.
Proof.
  revert s. induction actions as [|a actions IH]; intros s Hwf Hnear Hnone;
    [exact Hnone|].
  cbn [run fold_left].
  apply IH; [by apply wellFormed_step|by apply revealedNearBuildings_step|].
  by apply no_barracks_step.
Qed.

Lemma hasBuilt_playerTypeAt g t :
  hasBuilt g t ↔ ∃ x y, playerTypeAt g x y = Some t.
Proof.
  unfold hasBuilt, playerTypeAt. split.
  - intros (c & b & (x & y & Hc)%elem_of_flat & Hb & <-).
    exists x, y. rewrite Hc. cbn. by rewrite Hb.
  - intros (x & y & H).
    destruct (cellAt g x y) as [c|] eqn:Hc; [cbn in H|discriminate].
    destruct (playerBuilding c) as [b|] eqn:Hb; [|discriminate].
    injection H as <-. exists c, b. split; [|auto].
    apply elem_of_flat. eauto.
Qed.

Lemma buildings_victory_needs_flag s :
  vtype (checkVictoryConditions s) = Some buildings → allBuildingsUnlocked s.
Proof.
  rewrite allBuildingsUnlocked_bool. unfold checkVictoryConditions.
  destruct (60 <=? territoryControlPercentage s); [discriminate|].
  destruct (_ && _); [discriminate|].
  destruct (find _ (achievements s)) as [a|]; [|discriminate].
  destruct (unlocked a); [reflexivity|discriminate].
Qed.

Lemma barracks_never_built rnd actions :
  ¬ hasBuilt (grid (run (initialState rnd) actions)) barracks.
Proof.
  rewrite hasBuilt_playerTypeAt. intros (x & y & H). revert H.
  apply (no_barracks_run (initialState rnd));
    [apply wellFormed_initialGrid|apply revealedNearBuildings_initial|].
  intros x0 y0 H0. by apply initialGrid_buildings in H0 as [? _].
Qed.

Lemma all_buildings_never_unlocked rnd actions :
  ¬ allBuildingsUnlocked (run (initialState rnd) actions).
Proof.
  intros (a & Ha & Hu).
  destruct (architectInSync_run _ actions (architectInSync_initial rnd))
    as (a' & Ha' & Hu').
  assert (a' = a) as -> by congruence.
  rewrite Hu in Hu'. symmetry in Hu'. apply Z.leb_le in Hu'.
  apply (barracks_never_built rnd actions). by apply all_types_built.
Qed.

(** X5.  In no state reached from the initial state can a barracks be placed:
    it must stand at distance 2 or more from the nearest building, while every
    revealed cell is within distance 1 of one.  So the player never owns a
    barracks, the [all_buildings] achievement is never unlocked, and the
    victory evaluator never reports a victory of type buildings. *)
Theorem barracks_can_never_be_placed (rnd : nat → nat → Q * Q) (actions : list Action) :
  let s := run (initialState rnd) actions in
  (∀ x y s', placeBuilding s x y barracks ≠ Placed s') ∧
  ¬ hasBuilt (grid s) barracks ∧
  ¬ allBuildingsUnlocked s ∧
  vtype (checkVictoryConditions s) ≠ Some buildings.
Proof.
  cbv zeta.
  pose proof (wellFormed_run (initialState rnd) actions (wellFormed_initialGrid rnd)) as Hwf.
  pose proof (revealedNearBuildings_run (initialState rnd) actions
                (revealedNearBuildings_initial rnd))
    as Hnear.
  pose proof (all_buildings_never_unlocked rnd actions) as Hflag.
  split; [intros x y s'; by apply barracks_rejected|].
  split; [apply barracks_never_built|]. split; [exact Hflag|].
  intros H. by apply Hflag, buildings_victory_needs_flag.
Qed.

(** ** Bounds on the territory percentage *)

Lemma length_flat_wellFormed g : wellFormed g → length (flat g) = 144%nat.
Proof.
  intros (Hlen & Hrows & _). unfold flat.
  assert (H : ∀ l : Grid, Forall (λ row, length row = Z.to_nat GRID_SIZE) l →
                length (concat l) = (length l * Z.to_nat GRID_SIZE)%nat).
  { induction 1 as [|row l Hrow _ IH]; [reflexivity|].
    cbn [concat]. rewrite length_app, IH, Hrow. cbn [length]. lia. }
  rewrite (H g Hrows), Hlen. reflexivity.
Qed.

Lemma revealedCount_bounds g : wellFormed g → 0 ≤ revealedCount g ≤ 144.
Proof.
  intros Hwf. unfold revealedCount.
  pose proof (length_filter (λ c : Cell, isRevealed c = true) (flat g)) as H.
  rewrite (length_flat_wellFormed g Hwf) in H. lia.
Qed.

(** X11.  In every state reached from the initial state the territory control
    percentage lies between 6 and 100, and the territory victory threshold of
    60 is met exactly when at least 86 of the 144 cells are revealed. *)
Theorem territory_percentage_bounds (rnd : nat → nat → Q * Q) (actions : list Action) :
  let s := run (initialState rnd) actions in
  6 ≤ territoryControlPercentage s ≤ 100 ∧
  (territoryVictory s ↔ 86 ≤ revealedCount (grid s)).
Proof.
  cbv zeta.
  pose proof (wellFormed_run (initialState rnd) actions (wellFormed_initialGrid rnd)) as Hwf.
  pose proof (territory_in_sync_run _ actions (territory_in_sync_initial rnd))
    as Hsync.
  pose proof (calculateTerritoryControl_mono _ _
                (revealedLe_run (initialState rnd) actions)) as Hmono.
  rewrite <- Hsync in Hmono.
  change (calculateTerritoryControl (grid (initialState rnd))) with 6 in Hmono.
  pose proof (revealedCount_bounds _ Hwf) as Hcount.
  unfold territoryVictory. rewrite Hsync in *.
  rewrite calculateTerritoryControl_Z in *.
  set (n := revealedCount (grid (run (initialState rnd) actions))) in *.
  assert (Hup : (n * 200 + 144) / 288 ≤ (144 * 200 + 144) / 288)
    by (apply Z.div_le_mono; lia).
  change ((144 * 200 + 144) / 288) with 100 in Hup.
  split; [lia|]. split.
  - intros H60. apply Z.nlt_ge. intros Hlt.
    assert (H59 : (n * 200 + 144) / 288 ≤ (85 * 200 + 144) / 288)
      by (apply Z.div_le_mono; lia).
    change ((85 * 200 + 144) / 288) with 59 in H59. lia.
  - intros H86.
    assert (Hge : (86 * 200 + 144) / 288 ≤ (n * 200 + 144) / 288)
      by (apply Z.div_le_mono; lia).
    change ((86 * 200 + 144) / 288) with 60 in Hge. exact Hge.
Qed.

(** ** Achievement progress *)

Lemma uniqueBuildings_at_most_7 g : (length (uniqueBuildings g) ≤ 7)%nat.
Proof.
  pose (allTypes := [castle; house; farm; mine; barracks; tower; market]).
  assert (Hsub : uniqueBuildings g ⊆+ allTypes).
  { apply NoDup_submseteq; [apply NoDup_remove_dups|].
    intros [] _; apply (bool_decide_unpack _); vm_compute; exact I. }
  apply submseteq_length in Hsub. exact Hsub.
Qed.

Lemma updateAchievement_catalogue g p pct a :
  id (updateAchievement g p pct a) = id a ∧
  maxProgress (updateAchievement g p pct a) = maxProgress a ∧
  name (updateAchievement g p pct a) = name a ∧
  reward (updateAchievement g p pct a) = reward a.
Proof.
  unfold updateAchievement.
  repeat match goal with |- context [if ?b then _ else _] => destruct b end;
    auto.
Qed.

Lemma updateAchievement_progress g p pct a :
  (id a, maxProgress a) ∈ (λ a, (id a, maxProgress a)) <$> INITIAL_ACHIEVEMENTS →
  progress (updateAchievement g p pct a) ≤ maxProgress a ∧
  (unlocked (updateAchievement g p pct a) = true
   ↔ progress (updateAchievement g p pct a) = maxProgress a).
Proof.
  intros Hin. pose proof (uniqueBuildings_at_most_7 g) as H7.
  assert (Hcount : 0 ≤ playerBuildingCount g) by (unfold playerBuildingCount; lia).
  cbn in Hin.
  repeat (apply elem_of_cons in Hin as [Hin|Hin]); try by apply elem_of_nil in Hin.
  all: injection Hin as Hid Hmax; unfold updateAchievement; rewrite Hid, Hmax;
    cbn [String.eqb Ascii.eqb Bool.eqb andb]; cbn [progress unlocked setProgress];
    rewrite Z.leb_le; lia.
Qed.

(** X6.  On a list with the identifiers and targets of [INITIAL_ACHIEVEMENTS],
    [updateAchievements] keeps the identifiers, the targets and the order, and
    leaves every achievement with a progress that does not exceed its target
    and with [unlocked] set exactly when the progress equals the target. *)
Theorem achievement_progress_within_target
    (g : Grid) (p : Player) (pct : Z) (achs : list Achievement) :
  sameCatalogue achs →
  sameCatalogue (updateAchievements g p pct achs) ∧
  ∀ a, a ∈ updateAchievements g p pct achs →
    progress a ≤ maxProgress a ∧ (unlocked a = true ↔ progress a = maxProgress a).
Proof.
  intros Hcat. split.
  - unfold sameCatalogue, updateAchievements in *. rewrite <- Hcat, <- list_fmap_compose.
    apply list_fmap_ext. intros _ a _. cbn.
    destruct (updateAchievement_catalogue g p pct a) as (-> & -> & _). reflexivity.
  - intros a' (a & -> & Ha)%list_elem_of_fmap.
    destruct (updateAchievement_catalogue g p pct a) as (_ & -> & _).
    apply updateAchievement_progress.
    unfold sameCatalogue in Hcat. rewrite <- Hcat.
    apply list_elem_of_fmap. eauto.
Qed.

Lemma achievement_progress_sample :
  sameCatalogue INITIAL_ACHIEVEMENTS ∧
  ∀ a, a ∈ updateAchievements (grid sampleState) (gs_player sampleState) 6
             INITIAL_ACHIEVEMENTS →
    progress a ≤ maxProgress a ∧ (unlocked a = true ↔ progress a = maxProgress a).
Proof.
  split; [reflexivity|].
  exact (proj2 (achievement_progress_within_target (grid sampleState)
                  (gs_player sampleState) 6 INITIAL_ACHIEVEMENTS eq_refl)).
Defined.

(** ** The castle *)

Lemma castle_stays rnd actions :
  playerTypeAt (grid (run (initialState rnd) actions)) 6 6 = Some castle.
Proof.
  revert actions.
  assert (H : ∀ actions s, playerTypeAt (grid s) 6 6 = Some castle →
                playerTypeAt (grid (run s actions)) 6 6 = Some castle).
  { induction actions as [|a actions IH]; intros s Hs; [exact Hs|].
    cbn [run fold_left]. apply IH, playerTypeAt_step, Hs. }
  intros actions. apply H, initialGrid_castle.
Qed.

Lemma playerBuildingCount_positive g x y t :
  playerTypeAt g x y = Some t → 1 ≤ playerBuildingCount g.
Proof.
  intros H. unfold playerTypeAt in H.
  destruct (cellAt g x y) as [c|] eqn:Hc; [cbn in H|discriminate].
  destruct (playerBuilding c) as [b|] eqn:Hb; [|discriminate].
  assert (Hin : c ∈ filter (λ c, isPlayerCell c = true) (flat g)).
  { apply list_elem_of_filter. split; [|apply elem_of_flat; eauto].
    apply isPlayerCell_true. eauto. }
  unfold playerBuildingCount.
  destruct (filter _ (flat g)); [by apply elem_of_nil in Hin|cbn; lia].
Qed.

Lemma first_building_entry_step s a :
  is_Some (find (λ a, String.eqb (id a) "first_building") (achievements s)) →
  is_Some (find (λ a, String.eqb (id a) "first_building") (achievements (step s a))).
Proof.
  intros Hs. destruct a as [x y t|d]; cbn [step].
  - destruct (placeBuilding s x y t) as [s'| |] eqn:Hplace; cbn [stateAfter];
      [|exact Hs..].
    apply placeBuilding_Placed in Hplace
      as (cost & _ & _ & _ & _ & _ & _ & -> & _).
    rewrite find_updateAchievements. by apply fmap_is_Some.
  - change (achievements (nextTurn s d)) with
      (updateAchievements (grid (nextTurn s d)) (gs_player (nextTurn s d))
         (territoryControlPercentage (nextTurn s d)) (achievements s)).
    rewrite find_updateAchievements. by apply fmap_is_Some.
Qed.

Lemma first_building_entry_run s actions :
  is_Some (find (λ a, String.eqb (id a) "first_building") (achievements s)) →
  is_Some (find (λ a, String.eqb (id a) "first_building")
             (achievements (run s actions))).
Proof.
  revert s. induction actions as [|a actions IH]; intros s Hs; [exact Hs|].
  cbn [run fold_left]. apply IH, first_building_entry_step, Hs.
Qed.

Lemma firstBuildingUnlocked_update g p pct achs s' :
  is_Some (find (λ a, String.eqb (id a) "first_building") achs) →
  1 ≤ playerBuildingCount g →
  achievements s' = updateAchievements g p pct achs →
  firstBuildingUnlocked s'.
Proof.
  intros [a Ha] Hcount Hachs. unfold firstBuildingUnlocked.
  rewrite Hachs, find_updateAchievements, Ha. cbn.
  eexists. split; [reflexivity|].
  apply find_some in Ha as [_ Hid]. unfold updateAchievement. rewrite Hid.
  cbn [progress unlocked setProgress]. rewrite Z.leb_le. lia.
Qed.

(** X7.  The castle placed by the initialiser is never removed, and it counts
    as a player building: in every state reached from the initial state, the
    next turn advance or successful placement leaves the [first_building]
    achievement unlocked, whether or not the player has built anything. *)
Theorem first_building_unlocks_with_the_castle
    (rnd : nat → nat → Q * Q) (actions : list Action) :
  let s := run (initialState rnd) actions in
  playerTypeAt (grid s) 6 6 = Some castle ∧
  (∀ d, firstBuildingUnlocked (nextTurn s d)) ∧
  (∀ x y t s', placeBuilding s x y t = Placed s' → firstBuildingUnlocked s').
Proof.
  cbv zeta. pose proof (castle_stays rnd actions) as Hcastle.
  assert (Hentry : is_Some (find (λ a, String.eqb (id a) "first_building")
                              (achievements (run (initialState rnd) actions))))
    by (apply first_building_entry_run; cbn; eauto).
  split; [exact Hcastle|]. split.
  - intros d.
    eapply (firstBuildingUnlocked_update (grid (run (initialState rnd) actions)));
      [exact Hentry| |reflexivity].
    by eapply playerBuildingCount_positive.
  - intros x y t s' Hplace.
    pose proof (placeBuilding_layout _ _ _ _ _ Hplace) as [_ Hlayout].
    apply placeBuilding_Placed in Hplace
      as (cost & _ & _ & _ & _ & _ & _ & Hachs & _).
    eapply firstBuildingUnlocked_update; [exact Hentry| |exact Hachs].
    apply (playerBuildingCount_positive _ 6 6
             (if decide (x = 6 ∧ y = 6) then t else castle)).
    rewrite Hlayout, Hcastle. by destruct (decide _).
Qed.

(** ** Turn counter and daylight *)

Lemma run_turn_and_time s actions :
  turn (run s actions) = (turn s + endTurns actions)%nat ∧
  timeOfDay (run s actions)
  = if Nat.even (endTurns actions) then timeOfDay s else otherTime (timeOfDay s).
Proof.
  revert s. induction actions as [|a actions IH]; intros s.
  - cbn. split; [lia|reflexivity].
  - change (run s (a :: actions)) with (run (step s a) actions).
    destruct (IH (step s a)) as [Hturn Htime]. rewrite Hturn, Htime.
    destruct a as [x y t|d]; cbn [step endTurns].
    + destruct (placeBuilding s x y t) as [s'| |] eqn:Hplace; cbn [stateAfter];
        [|split; reflexivity..].
      unfold placeBuilding in Hplace.
      destruct (isValidPlacement (grid s) x y t) as [[]|]; try discriminate.
      destruct (canAffordBuilding (gs_player s) t) as [[]|]; try discriminate.
      destruct (BUILDING_COSTS t); try discriminate.
      injection Hplace as <-. split; reflexivity.
    + change (turn (nextTurn s d)) with (turn s + 1)%nat.
      change (timeOfDay (nextTurn s d)) with (otherTime (timeOfDay s)).
      split; [lia|].
      rewrite Nat.even_succ, <- Nat.negb_even.
      destruct (Nat.even (endTurns actions)), (timeOfDay s); reflexivity.
Qed.

(** X8.  Placements leave the turn counter and the time of day alone and each
    turn advance adds one turn and flips day and night: after any sequence of
    operations from the initial state the turn number is one more than the
    number of turn advances, and it is day exactly on odd turns. *)
Theorem turn_counter_and_daylight (rnd : nat → nat → Q * Q) (actions : list Action) :
  let s := run (initialState rnd) actions in
  turn s = (1 + endTurns actions)%nat ∧
  (timeOfDay s = day ↔ Nat.Odd (turn s)).
Proof.
  cbv zeta. destruct (run_turn_and_time (initialState rnd) actions) as [Hturn Htime].
  change (turn (initialState rnd)) with 1%nat in Hturn.
  change (timeOfDay (initialState rnd)) with day in Htime.
  split; [exact Hturn|]. rewrite Hturn, Htime.
  change (1 + endTurns actions)%nat with (S (endTurns actions)).
  rewrite Nat.Odd_succ, <- Nat.even_spec.
  destruct (Nat.even (endTurns actions)); cbn; split; congruence.
Qed.

(** ** Events *)

Lemma pickEvent_type t table r : ev_type (pickEvent t table r) = t.
Proof.
  unfold pickEvent.
  destruct (if 0 <=? _ then _ else _) as [[[m ic] sv]|]; reflexivity.
Qed.

Lemma elem_of_if_single {A} (c : bool) (e x : A) :
  x ∈ (if c then [e] else []) ↔ c = true ∧ x = e.
Proof.
  destruct c.
  - rewrite list_elem_of_singleton. tauto.
  - split; [intros H; by apply elem_of_nil in H|intros [? _]; discriminate].
Qed.

Lemma generateTurnEvents_types rc n e :
  e ∈ generateTurnEvents rc n →
  ev_type e = population_growth ∨ ev_type e = trade_success ∨
  ev_type e = military_training ∨ ev_type e = resource_bonus.
Proof.
  unfold generateTurnEvents. rewrite !elem_of_app, !elem_of_if_single.
  intros [[_ ->]|[[_ ->]|[[_ ->]|[[_ ->]|[_ ->]]]]]; cbn; auto.
Qed.

Lemma generateRandomEvents_seasonal turn season d e :
  e ∈ generateRandomEvents turn season d → ev_type e = seasonal_change →
  (turn mod 4 = 0)%nat ∧ (1 < turn)%nat ∧
  icon e = season_icon (seasonAt (((turn - 1) / 4) mod 4)).
Proof.
  unfold generateRandomEvents. cbv zeta.
  rewrite !elem_of_app, !elem_of_if_single.
  intros [[_ ->]|[[_ ->]|[[_ ->]|[Hc ->]]]]; rewrite ?pickEvent_type; cbn [ev_type];
    try discriminate.
  intros _. apply andb_true_iff in Hc as [H4%Nat.eqb_eq H1%Nat.ltb_lt].
  cbn [icon]. auto.
Qed.

Lemma generateRandomEvents_seasonal_fires turn season d :
  (turn mod 4 = 0)%nat → (1 < turn)%nat →
  hasEvent seasonal_change (generateRandomEvents turn season d).
Proof.
  intros H4 H1. unfold generateRandomEvents, hasEvent. cbv zeta.
  eexists. rewrite !elem_of_app, !elem_of_if_single. split.
  - right. right. right. split; [|reflexivity].
    apply andb_true_iff. split; [by apply Nat.eqb_eq|by apply Nat.ltb_lt].
  - reflexivity.
Qed.

Ltac divmod4 :=
  repeat match goal with
  | |- context [(?n `div` 4)%nat] =>
      lazymatch goal with
      | _ : n = (4 * (n `div` 4) + n `mod` 4)%nat |- _ => fail
      | _ => pose proof (Nat.div_mod_eq n 4);
             pose proof (Nat.mod_upper_bound n 4 ltac:(lia))
      end
  | |- context [(?n `mod` 4)%nat] =>
      lazymatch goal with
      | _ : n = (4 * (n `div` 4) + n `mod` 4)%nat |- _ => fail
      | _ => pose proof (Nat.div_mod_eq n 4);
             pose proof (Nat.mod_upper_bound n 4 ltac:(lia))
      end
  | H : context [(?n `mod` 4)%nat] |- _ =>
      lazymatch goal with
      | _ : n = (4 * (n `div` 4) + n `mod` 4)%nat |- _ => fail
      | _ => pose proof (Nat.div_mod_eq n 4);
             pose proof (Nat.mod_upper_bound n 4 ltac:(lia))
      end
  end.

Lemma seasonIndex_unchanged n :
  (1 ≤ n)%nat → (n mod 4 ≠ 0)%nat → seasonIndex n = seasonIndex (n - 1).
Proof.
  intros H1 H4. unfold seasonIndex.
  assert (Hdiv : (n / 4 = (n - 1) / 4)%nat) by (divmod4; lia).
  by rewrite Hdiv.
Qed.

Lemma seasonAt_changes n :
  (1 ≤ n)%nat → (n mod 4 = 0)%nat →
  seasonAt (seasonIndex n) ≠ seasonAt (seasonIndex (n - 1)).
Proof.
  intros H1 H4. unfold seasonIndex.
  assert (Hdiv : (n / 4 = S ((n - 1) / 4))%nat) by (divmod4; lia).
  rewrite Hdiv. generalize ((n - 1) / 4)%nat as k. intros k.
  assert (Hk : (S k mod 4 = S (k mod 4) ∧ k mod 4 < 3
                ∨ S k mod 4 = 0 ∧ k mod 4 = 3)%nat) by (divmod4; lia).
  destruct Hk as [[-> Hlt]|[-> ->]]; [|discriminate].
  destruct (k mod 4)%nat as [|[|[|?]]]; try discriminate. lia.
Qed.

Lemma placeBuilding_keeps s x y t s' :
  placeBuilding s x y t = Placed s' →
  turn s' = turn s ∧ timeOfDay s' = timeOfDay s ∧
  currentSeason s' = currentSeason s ∧ selectedCell s' = selectedCell s ∧
  turnEvents s' = turnEvents s ∧ resourceChanges s' = resourceChanges s.
Proof.
  unfold placeBuilding.
  destruct (isValidPlacement (grid s) x y t) as [[]|]; try discriminate.
  destruct (canAffordBuilding (gs_player s) t) as [[]|]; try discriminate.
  destruct (BUILDING_COSTS t); try discriminate.
  intros [= <-]. repeat split; reflexivity.
Qed.

Lemma season_in_step s a :
  (1 ≤ turn s)%nat ∧ currentSeason s = seasonAt (seasonIndex (turn s - 1)) →
  (1 ≤ turn (step s a))%nat ∧
  currentSeason (step s a) = seasonAt (seasonIndex (turn (step s a) - 1)).
Proof.
  intros [H1 Hs]. destruct a as [x y t|d]; cbn [step].
  - destruct (placeBuilding s x y t) as [s'| |] eqn:Hplace; cbn [stateAfter]; auto.
    apply placeBuilding_keeps in Hplace as (-> & _ & -> & _). auto.
  - change (turn (nextTurn s d)) with (turn s + 1)%nat.
    change (currentSeason (nextTurn s d)) with (seasonAt (seasonIndex (turn s))).
    split; [lia|]. by replace (turn s + 1 - 1)%nat with (turn s) by lia.
Qed.

Lemma season_in_run s actions :
  (1 ≤ turn s)%nat ∧ currentSeason s = seasonAt (seasonIndex (turn s - 1)) →
  (1 ≤ turn (run s actions))%nat ∧
  currentSeason (run s actions) = seasonAt (seasonIndex (turn (run s actions) - 1)).
Proof.
  revert s. induction actions as [|a actions IH]; intros s Hs; [exact Hs|].
  change (run s (a :: actions)) with (run (step s a) actions).
  apply IH, season_in_step, Hs.
Qed.

(** X9.  In a turn advance from a state reached from the initial state, a
    [seasonal_change] event is reported exactly when the new turn number is a
    multiple of 4, whereas the active season changes exactly when the new
    turn number is one more than a multiple of 4: every reported
    [seasonal_change] carries the icon of the season that was already active
    and comes with no change of season. *)
Theorem seasonal_event_comes_without_change
    (rnd : nat → nat → Q * Q) (actions : list Action) (d : Draws) :
  let s := run (initialState rnd) actions in
  let s' := nextTurn s d in
  (hasEvent seasonal_change (turnEvents s') ↔ (turn s' mod 4 = 0)%nat) ∧
  (currentSeason s' ≠ currentSeason s ↔ (turn s' mod 4 = 1)%nat) ∧
  (∀ e, e ∈ turnEvents s' → ev_type e = seasonal_change →
        icon e = season_icon (currentSeason s) ∧ currentSeason s' = currentSeason s).
Proof.
  cbv zeta.
  destruct (season_in_run (initialState rnd) actions) as [H1 Hseason];
    [split; [cbn; lia|reflexivity]|].
  set (s := run (initialState rnd) actions) in *.
  change (turn (nextTurn s d)) with (turn s + 1)%nat.
  change (currentSeason (nextTurn s d)) with (seasonAt (seasonIndex (turn s))).
  change (turnEvents (nextTurn s d)) with
    (generateTurnEvents
       (adjustedResourceChanges (calculateTurnResources (grid s))
          (seasonAt (seasonIndex (turn s))))
       (playerBuildingCount (grid s))
     ++ generateRandomEvents (turn s + 1) (seasonAt (seasonIndex (turn s))) d).
  assert (Hevent : ∀ e,
            e ∈ generateTurnEvents
                  (adjustedResourceChanges (calculateTurnResources (grid s))
                     (seasonAt (seasonIndex (turn s))))
                  (playerBuildingCount (grid s))
                ++ generateRandomEvents (turn s + 1)
                     (seasonAt (seasonIndex (turn s))) d →
            ev_type e = seasonal_change →
            ((turn s + 1) mod 4 = 0)%nat ∧
            icon e = season_icon (seasonAt (seasonIndex (turn s)))).
  { intros e [He|He]%elem_of_app Htype.
    - apply generateTurnEvents_types in He. rewrite Htype in He.
      destruct He as [?|[?|[?|?]]]; discriminate.
    - destruct (generateRandomEvents_seasonal _ _ _ _ He Htype) as (H4 & _ & Hicon).
      split; [exact H4|].
      by replace (turn s + 1 - 1)%nat with (turn s) in Hicon by lia. }
  split; [|split].
  - split.
    + intros (e & He & Htype). by apply (Hevent e He Htype).
    + intros H4.
      destruct (generateRandomEvents_seasonal_fires (turn s + 1)
                  (seasonAt (seasonIndex (turn s))) d H4 ltac:(lia))
        as (e & He & Htype).
      exists e. split; [apply elem_of_app; by right|exact Htype].
  - rewrite Hseason. split.
    + intros Hne. destruct (decide (turn s mod 4 = 0)%nat) as [H0|H0].
      * divmod4. lia.
      * destruct Hne. by rewrite <- seasonIndex_unchanged.
    + intros H1'. apply seasonAt_changes; [exact H1|]. divmod4. lia.
  - intros e He Htype. destruct (Hevent e He Htype) as [H4 Hicon].
    assert (Hsame : seasonIndex (turn s) = seasonIndex (turn s - 1)).
    { apply seasonIndex_unchanged; [exact H1|]. divmod4. lia. }
    rewrite Hseason, <- Hsame. auto.
Qed.

(** ** What a random event adds *)

Lemma Qltb_true a b : Qltb a b = true → (a < b)%Q.
Proof.
  unfold Qltb. intros H%negb_true_iff. apply Qnot_le_lt. intros Hle.
  apply Qle_bool_iff in Hle. congruence.
Qed.

Lemma Qltb_false a b : Qltb a b = false → (b <= a)%Q.
Proof. unfold Qltb. intros H%negb_false_iff. by apply Qle_bool_iff. Qed.

Lemma seasonal_part_adds_nothing (c : bool) e acc :
  ev_type e = seasonal_change →
  fold_left eventBonusStep (if c then [e] else []) acc = acc.
Proof.
  intros He. destruct c; [|reflexivity]. cbn [fold_left].
  unfold eventBonusStep. by rewrite He.
Qed.

Lemma pick_index (r : Q) :
  (0 <= r)%Q → (r < 1)%Q → 0 ≤ Qfloor (r * 3) ≤ 2.
Proof.
  intros H0 H1. split.
  - change 0 with (Qfloor 0). apply Qfloor_resp_le. lra.
  - assert (H : Qfloor (r * 3) < 3); [|lia].
    rewrite Zlt_Qlt. eapply Qle_lt_trans; [apply Qfloor_le|].
    change (inject_Z 3) with 3%Q. lra.
Qed.

Lemma discovery_adds (r : Q) :
  (0 <= r)%Q → (r < 1)%Q →
  eventBonusStep (mkRC 0 0 0 0)
    (pickEvent resource_discovery
       [ ("Miners discovered a rich gold vein! +200 gold bonus.", "⛏️", positive);
         ("Fertile lands discovered! +50 food production.", "🌾", positive);
         ("Ancient ruins found! +20 population joins your empire.", "🏛️", positive) ]
       r)
  = match js_floor (r * 3)%Q with
    | 0 => mkRC 200 0 0 0
    | 1 => mkRC 0 0 50 0
    | _ => mkRC 0 20 0 0
    end.
Proof.
  intros H0 H1. pose proof (pick_index r H0 H1) as Hi.
  unfold pickEvent, js_floor. cbn [length].
  change (inject_Z (Z.of_nat 3)) with 3%Q.
  assert (Hcases : Qfloor (r * 3) = 0 ∨ Qfloor (r * 3) = 1 ∨ Qfloor (r * 3) = 2)
    by lia.
  destruct Hcases as [->|[->| ->]]; vm_compute; reflexivity.
Qed.

Lemma randomBonus_of_events turn season d :
  (0 <= pick d)%Q → (pick d < 1)%Q →
  fold_left eventBonusStep (generateRandomEvents turn season d) (mkRC 0 0 0 0)
  = randomBonus d.
Proof.
  intros H0 H1. unfold generateRandomEvents, randomBonus. cbv zeta.
  rewrite !fold_left_app.
  rewrite seasonal_part_adds_nothing by reflexivity.
  destruct (Qltb (randomChance d) 0.1) eqn:Hw;
  destruct (Qltb 0.1 (randomChance d)) eqn:Ha;
  destruct (Qltb (randomChance d) 0.18) eqn:Hb;
  destruct (Qltb 0.18 (randomChance d)) eqn:Hc;
  destruct (Qltb (randomChance d) 0.23) eqn:He;
  cbn [andb fold_left];
  try (exfalso;
       repeat match goal with
              | H : Qltb _ _ = true |- _ => apply Qltb_true in H
              | H : Qltb _ _ = false |- _ => apply Qltb_false in H
              end; lra);
  try reflexivity;
  try (unfold eventBonusStep at 1; rewrite pickEvent_type; reflexivity).
  all: by apply discovery_adds.
Qed.

(** X10.  With the draws of [Math.random] in their range, the random events
    of a turn change the resources by exactly one of: nothing, +200 gold,
    +50 food, +20 population, or the bandits' -50 gold, -20 food and
    +5 military.  A weather event (first draw below 0.1) changes no resource,
    whatever its message announces, and the seasonal event changes none
    either. *)
Theorem random_events_add_one_bonus
    (s : GameState) (d : Draws) :
  (0 <= pick d)%Q → (pick d < 1)%Q →
  let adjusted :=
    adjustedResourceChanges (calculateTurnResources (grid s))
      (seasonAt (seasonIndex (turn s))) in
  let bonus := randomBonus d in
  resourceChanges (nextTurn s d) =
    mkRC (rc_gold adjusted + rc_gold bonus) (rc_population adjusted + rc_population bonus)
         (rc_food adjusted + rc_food bonus) (rc_military adjusted + rc_military bonus) ∧
  (bonus = mkRC 0 0 0 0 ∨ bonus = mkRC 200 0 0 0 ∨ bonus = mkRC 0 0 50 0 ∨
   bonus = mkRC 0 20 0 0 ∨ bonus = mkRC (-50) 0 (-20) 5) ∧
  ((randomChance d < 0.1)%Q →
     bonus = mkRC 0 0 0 0 ∧ hasEvent weather_effect (turnEvents (nextTurn s d))).
Proof.
  intros H0 H1. cbv zeta. split; [|split].
  - change (resourceChanges (nextTurn s d)) with
      (finalResourceChanges
         (adjustedResourceChanges (calculateTurnResources (grid s))
            (seasonAt (seasonIndex (turn s))))
         (generateRandomEvents (turn s + 1) (seasonAt (seasonIndex (turn s))) d)).
    unfold finalResourceChanges. cbv zeta.
    by rewrite (randomBonus_of_events _ _ d H0 H1).
  - unfold randomBonus, js_floor. pose proof (pick_index (pick d) H0 H1) as Hi.
    destruct (_ && _).
    + assert (Hcases : Qfloor (pick d * 3) = 0 ∨ Qfloor (pick d * 3) = 1
                       ∨ Qfloor (pick d * 3) = 2) by lia.
      destruct Hcases as [->|[->| ->]]; auto.
    + destruct (_ && _); auto 6.
  - intros Hw. split.
    + unfold randomBonus.
      replace (Qltb 0.1 (randomChance d)) with false; [cbn [andb]|].
      * replace (Qltb 0.18 (randomChance d)) with false; [reflexivity|].
        symmetry. apply Qltb_false_of_le. lra.
      * symmetry. apply Qltb_false_of_le. lra.
    + assert (Hwb : Qltb (randomChance d) 0.1 = true).
      { unfold Qltb. apply negb_true_iff. destruct (Qle_bool _ _) eqn:Hle; [|reflexivity].
        apply Qle_bool_iff in Hle. lra. }
      change (turnEvents (nextTurn s d)) with
        (generateTurnEvents
           (adjustedResourceChanges (calculateTurnResources (grid s))
              (seasonAt (seasonIndex (turn s))))
           (playerBuildingCount (grid s))
         ++ generateRandomEvents (turn s + 1) (seasonAt (seasonIndex (turn s))) d).
      unfold generateRandomEvents, hasEvent. cbv zeta. rewrite Hwb.
      eexists. split.
      * apply elem_of_app. right. apply elem_of_app. left.
        apply list_elem_of_singleton. reflexivity.
      * apply pickEvent_type.
Qed.

Lemma random_events_sample :
  resourceChanges (nextTurn sampleState discoveryDraws) = mkRC 228 3 (-8) 5 ∧
  randomBonus discoveryDraws = mkRC 200 0 0 0.
Proof.
  assert (H0 : (0 <= pick discoveryDraws)%Q) by (vm_compute; discriminate).
  assert (H1 : (pick discoveryDraws < 1)%Q) by reflexivity.
  split; [|reflexivity].
  rewrite (proj1 (random_events_add_one_bonus sampleState discoveryDraws H0 H1)).
  vm_compute. reflexivity.
Defined.

(** ** Highlights, clicks and drops *)

Lemma validAndAffordable_true s x y t :
  validAndAffordable s x y t = Some true ↔ ∃ s', placeBuilding s x y t = Placed s'.
Proof.
  rewrite placeBuilding_Placed_iff. unfold validAndAffordable.
  destruct (isValidPlacement (grid s) x y t) as [[]|]; split;
    try tauto; try (intros [? ?]; discriminate); try discriminate.
Qed.

Lemma validAndAffordable_step s x y t :
  stateAfter s (placeBuilding s x y t) =
  match validAndAffordable s x y t with
  | Some true => stateAfter s (placeBuilding s x y t)
  | _ => s
  end.
Proof.
  unfold validAndAffordable, placeBuilding.
  destruct (isValidPlacement (grid s) x y t) as [[]|]; try reflexivity.
  destruct (canAffordBuilding (gs_player s) t) as [[]|]; reflexivity.
Qed.

Lemma isValidPlacement_blocked g cell t :
  cellAt g (cell_x cell) (cell_y cell) = Some cell →
  negb (isRevealed cell) || bool_decide (is_Some (building cell))
    || isWater (terrain cell) = true →
  isValidPlacement g (cell_x cell) (cell_y cell) t = Some false.
Proof. intros Hc Hb. unfold isValidPlacement. by rewrite Hc, Hb. Qed.

Ltac case_over :=
  destruct (dragOverCell (dragState _)) as [[? ?]|];
  [destruct ((_ =? _) && (_ =? _))|].

(** X12.  While a building is dragged, the highlight of a grid cell tells
    what dropping there does: a green highlight means that the drop places
    the building, any other highlight (red or none) that the drop changes
    nothing but the drag state, and the highlight computation throws exactly
    when the drop handler does. *)
Theorem highlight_predicts_the_drop (u : Ui) (cell : Cell) (t : BuildingType) :
  draggedBuilding (dragState u) = Some t →
  isDragging (dragState u) = true →
  cellAt (grid (ui_game u)) (cell_x cell) (cell_y cell) = Some cell →
  let dropped := handleDrop t (cell_x cell) (cell_y cell) u in
  let idle := mkDrag false None None in
  (getPlacementFeedback u cell = None ↔ dropped = None) ∧
  (∀ classes, getPlacementFeedback u cell = Some classes →
     if decide (isGreen classes)
     then ∃ s', placeBuilding (ui_game u) (cell_x cell) (cell_y cell) t = Placed s' ∧
                dropped = Some (mkUi s' (placingBuilding u) idle)
     else dropped = Some (mkUi (ui_game u) (placingBuilding u) idle)).
Proof.
  intros Ht Hdrag Hcell. cbv zeta.
  unfold getPlacementFeedback, handleDrop. rewrite Ht, Hdrag.
  destruct (negb (isRevealed cell) || bool_decide (is_Some (building cell))
            || isWater (terrain cell)) eqn:Hblocked.
  - pose proof (isValidPlacement_blocked _ _ t Hcell Hblocked) as Hv.
    unfold validAndAffordable. rewrite Hv. split; [split; discriminate|].
    intros classes [= <-]. destruct (decide _) as [[H|H]|_]; [discriminate H..|].
    reflexivity.
  - rewrite orb_true_r.
    destruct (validAndAffordable (ui_game u) (cell_x cell) (cell_y cell) t)
      as [[]|] eqn:Hva.
    + apply validAndAffordable_true in Hva as [s' Hs'].
      split; [split; [case_over|]; discriminate|].
      intros classes Hcls.
      assert (Hgreen : isGreen classes).
      { case_over; injection Hcls as <-;
          first [by left|by right]. }
      destruct (decide _) as [_|[]]; [|exact Hgreen].
      exists s'. rewrite Hs'. auto.
    + split; [split; [case_over|]; discriminate|].
      intros classes Hcls.
      destruct (decide _) as [Hgreen|_]; [|reflexivity].
      case_over; injection Hcls as <-;
        destruct Hgreen; discriminate.
    + split; [tauto|discriminate].
Qed.

(** ** Sequences of events *)




Lemma handleDrop_game t x y u :
  ui_game (default u (handleDrop t x y u)) =
  stateAfter (ui_game u) (placeBuilding (ui_game u) x y t).
Proof.
  rewrite validAndAffordable_step. unfold handleDrop.
  destruct (validAndAffordable (ui_game u) x y t) as [[]|]; reflexivity.
Qed.

Lemma handleCellClick_idle x y u :
  placingBuilding u = None →
  default u (handleCellClick x y u) = u ∨
  ∃ c, cellAt (grid (ui_game u)) x y = Some c ∧ isRevealed c = true ∧
       default u (handleCellClick x y u) =
       mkUi (selectCell (ui_game u) x y) None (dragState u).
Proof.
  intros Hp. unfold handleCellClick. rewrite Hp.
  destruct (cellAt (grid (ui_game u)) x y) as [c|]; [|by left].
  destruct (isRevealed c) eqn:Hrev; [|by left].
  right. exists c. auto.
Qed.

Lemma handleCellClick_placing x y u t :
  placingBuilding u = Some t →
  ui_game (default u (handleCellClick x y u)) =
  stateAfter (ui_game u) (placeBuilding (ui_game u) x y t).
Proof.
  intros Hp. rewrite validAndAffordable_step. unfold handleCellClick. rewrite Hp.
  destruct (validAndAffordable (ui_game u) x y t) as [[]|]; reflexivity.
Qed.

Lemma idle_step u e :
  placingBuilding u = None ∧ dragConsistent (dragState u) →
  placingBuilding (uiStep u e) = None ∧ dragConsistent (dragState (uiStep u e)).
Proof.
  intros [Hp Hd]. destruct e; cbn [uiStep].
  - destruct (handleCellClick_idle x y u Hp) as [->|(c & _ & _ & ->)]; auto.
  - destruct (canAffordBuilding _ t) as [[]|]; auto.
    split; [exact Hp|]. unfold dragConsistent. cbn. split; eauto.
  - split; [exact Hp|]. unfold dragConsistent. cbn.
    split; [discriminate|intros [? ?]; discriminate].
  - auto.
  - auto.
  - unfold handleDrop. destruct (validAndAffordable _ x y t); [|auto].
    split; [exact Hp|]. unfold dragConsistent. cbn.
    split; [discriminate|intros [? ?]; discriminate].
  - auto.
  - auto.
  - auto.
  - auto.
  - auto.
Qed.

Lemma idle_run u events :
  placingBuilding u = None ∧ dragConsistent (dragState u) →
  placingBuilding (uiRun u events) = None ∧
  dragConsistent (dragState (uiRun u events)).
Proof.
  revert u. induction events as [|e events IH]; intros u Hu; [exact Hu|].
  change (uiRun u (e :: events)) with (uiRun (uiStep u e) events).
  apply IH, idle_step, Hu.
Qed.

Lemma idle_initial rnd :
  placingBuilding (initialUi rnd) = None ∧ dragConsistent (dragState (initialUi rnd)).
Proof.
  split; [reflexivity|]. unfold dragConsistent. cbn.
  split; [discriminate|intros [? ?]; discriminate].
Qed.

Lemma highlight_sample :
  getPlacementFeedback draggingHouse westOfCastle
  = Some "bg-green-400 bg-opacity-40" ∧
  ∃ s', placeBuilding sampleState 5 6 house = Placed s' ∧
        handleDrop house 5 6 draggingHouse
        = Some (mkUi s' None (mkDrag false None None)).
Proof.
  destruct (highlight_predicts_the_drop draggingHouse westOfCastle house) as [_ H];
    [vm_compute; reflexivity..|].
  split; [vm_compute; reflexivity|].
  specialize (H _ ltac:(vm_compute; reflexivity)).
  destruct (decide _) as [_|Hn]; [exact H|destruct Hn; by right].
Defined.

(** X13.  No handler ever sets [placingBuilding] to a building type: after
    any sequence of events from the initial page it is still [null].  So a
    click on a cell never places a building (it changes at most the
    selection), a cell is highlighted only while a building is dragged, and
    [isDragging] holds exactly when a dragged building is recorded. *)
Theorem placement_mode_is_never_entered
    (rnd : nat → nat → Q * Q) (events : list UiEvent) :
  let u := uiRun (initialUi rnd) events in
  placingBuilding u = None ∧
  dragConsistent (dragState u) ∧
  (∀ x y, placingBuilding (uiStep u (CellClick x y)) = None ∧
          dragState (uiStep u (CellClick x y)) = dragState u ∧
          forgetUi (ui_game (uiStep u (CellClick x y))) = forgetUi (ui_game u)) ∧
  (∀ cell classes, getPlacementFeedback u cell = Some classes →
                   classes ≠ EmptyString → isDragging (dragState u) = true).
Proof.
  cbv zeta. destruct (idle_run (initialUi rnd) events (idle_initial rnd)) as [Hp Hd].
  set (u := uiRun (initialUi rnd) events) in *.
  repeat split; try apply Hd; try exact Hp.
  - cbn [uiStep].
    destruct (handleCellClick_idle x y u Hp) as [->|(c & _ & _ & ->)]; auto.
  - cbn [uiStep].
    destruct (handleCellClick_idle x y u Hp) as [->|(c & _ & _ & ->)]; auto.
  - cbn [uiStep].
    destruct (handleCellClick_idle x y u Hp) as [->|(c & _ & _ & ->)]; auto.
  - intros cell classes Hcls Hne. apply Hd.
    unfold getPlacementFeedback in Hcls. rewrite Hp in Hcls.
    destruct (draggedBuilding (dragState u)) as [t|]; [eauto|].
    injection Hcls as <-. by destruct Hne.
Qed.

Lemma uiStep_selection u e :
  (selectedCell (ui_game (uiStep u e)) = selectedCell (ui_game u) ∧
   revealedLe (grid (ui_game u)) (grid (ui_game (uiStep u e)))) ∨
  (∃ x y c, ui_game (uiStep u e) = selectCell (ui_game u) x y ∧
            cellAt (grid (ui_game u)) x y = Some c ∧ isRevealed c = true).
Proof.
  assert (Hrefl : revealedLe (grid (ui_game u)) (grid (ui_game u)))
    by (apply Forall2_grid_refl; auto).
  assert (Hplace : ∀ x y t,
            selectedCell (stateAfter (ui_game u) (placeBuilding (ui_game u) x y t))
            = selectedCell (ui_game u) ∧
            revealedLe (grid (ui_game u))
              (grid (stateAfter (ui_game u) (placeBuilding (ui_game u) x y t)))).
  { intros x y t. split; [|apply (revealedLe_step _ (Place x y t))].
    destruct (placeBuilding (ui_game u) x y t) as [s'| |] eqn:Hs';
      cbn [stateAfter]; try reflexivity.
    by apply placeBuilding_keeps in Hs' as (_ & _ & _ & -> & _). }
  destruct e; cbn [uiStep]; try (left; split; [reflexivity|exact Hrefl]).
  - destruct (placingBuilding u) as [t|] eqn:Hp.
    + left. rewrite (handleCellClick_placing x y u t Hp). apply Hplace.
    + destruct (handleCellClick_idle x y u Hp) as [->|(c & Hc & Hrev & ->)].
      * left. auto.
      * right. exists x, y, c. auto.
  - left. destruct (canAffordBuilding _ t) as [[]|]; auto.
  - left. rewrite handleDrop_game. apply Hplace.
Qed.

Lemma selection_step u e :
  selectionRevealed (ui_game u) → selectionRevealed (ui_game (uiStep u e)).
Proof.
  intros Hu x y Hsel.
  destruct (uiStep_selection u e) as [[Hsame Hle]|(x' & y' & c & Hgame & Hc & Hrev)].
  - rewrite Hsame in Hsel. destruct (Hu x y Hsel) as (c & Hc & Hrev).
    eapply revealedLe_cellAt; eauto.
  - rewrite Hgame in *. cbn in Hsel. injection Hsel as -> ->. eauto.
Qed.

(** X14.  After any sequence of events from the initial page, the selected
    cell, if there is one, is a revealed cell of the grid. *)
Theorem selected_cell_is_revealed
    (rnd : nat → nat → Q * Q) (events : list UiEvent) (x y : Z) :
  selectedCell (ui_game (uiRun (initialUi rnd) events)) = Some (x, y) →
  ∃ c, cellAt (grid (ui_game (uiRun (initialUi rnd) events))) x y = Some c ∧
       isRevealed c = true.
Proof.
  assert (H : ∀ u, selectionRevealed (ui_game u) →
                   selectionRevealed (ui_game (uiRun u events))).
  { induction events as [|e events IH]; intros u Hu; [exact Hu|].
    change (uiRun u (e :: events)) with (uiRun (uiStep u e) events).
    apply IH, selection_step, Hu. }
  apply H. intros x' y' Hsel. discriminate Hsel.
Qed.

Lemma selection_sample :
  ∃ c, cellAt (grid (ui_game (uiRun (initialUi allGrass) [CellClick 5 7]))) 5 7
       = Some c ∧ isRevealed c = true.
Proof.
  apply (selected_cell_is_revealed allGrass [CellClick 5 7] 5 7).
  vm_compute. reflexivity.
Defined.




(** ** Victory *)

Lemma placeBuilding_victory_fields s x y t s' :
  placeBuilding s x y t = Placed s' →
  gamePhase s' = gamePhase s ∧ gameWon s' = gameWon s ∧
  victoryType s' = victoryType s ∧ showVictoryScreen s' = showVictoryScreen s.
Proof.
  unfold placeBuilding.
  destruct (isValidPlacement (grid s) x y t) as [[]|]; try discriminate.
  destruct (canAffordBuilding (gs_player s) t) as [[]|]; try discriminate.
  destruct (BUILDING_COSTS t); try discriminate.
  intros [= <-]. repeat split; reflexivity.
Qed.

Lemma won_has_type s :
  won (checkVictoryConditions s) = true ↔ is_Some (vtype (checkVictoryConditions s)).
Proof.
  unfold checkVictoryConditions.
  destruct (60 <=? _); [cbn; split; eauto|].
  destruct (_ && _); [cbn; split; eauto|].
  destruct (find _ _) as [a|]; [destruct (unlocked a)|]; cbn;
    split; eauto; try discriminate; intros [? ?]; discriminate.
Qed.

Lemma victory_step s a :
  victoryFlagsAgree s →
  victoryFlagsAgree (step s a) ∧ (gameWon s = true → gameWon (step s a) = true).
Proof.
  intros Hs. destruct a as [x y t|d]; cbn [step].
  - destruct (placeBuilding s x y t) as [s'| |] eqn:Hplace; cbn [stateAfter]; auto.
    apply placeBuilding_victory_fields in Hplace as (Hp & Hw & Ht & Hv).
    unfold victoryFlagsAgree. rewrite Hp, Hw, Ht, Hv. auto.
  - unfold victoryFlagsAgree, nextTurn. cbv zeta.
    cbn [gameWon showVictoryScreen gamePhase victoryType].
    pose proof (won_has_type s) as Htype.
    destruct (won (checkVictoryConditions s)); [|auto].
    split; [|auto]. repeat split; auto; try discriminate.
    by apply Htype.
Qed.

Lemma victory_run s actions :
  victoryFlagsAgree s →
  victoryFlagsAgree (run s actions) ∧
  (gameWon s = true → gameWon (run s actions) = true).
Proof.
  revert s. induction actions as [|a actions IH]; intros s Hs; [auto|].
  change (run s (a :: actions)) with (run (step s a) actions).
  destruct (victory_step s a Hs) as [Hs' Hwon].
  destruct (IH _ Hs') as [Hrun Hwon']. auto.
Qed.

Lemma victoryFlagsAgree_initial rnd : victoryFlagsAgree (initialState rnd).
Proof.
  unfold victoryFlagsAgree. cbn. repeat split; auto; try discriminate.
  intros [? ?]; discriminate.
Qed.

(** X20.  In every state reached from the initial state the four records of
    a victory agree: [gameWon], [showVictoryScreen], phase [victory] and a
    victory type are set together, and the phase is [placement] otherwise.
    A victory, once declared, is never taken back by later placements or
    turns, and its type is never buildings. *)
Theorem victory_is_permanent
    (rnd : nat → nat → Q * Q) (actions more : list Action) :
  let s := run (initialState rnd) actions in
  victoryFlagsAgree s ∧
  victoryType s ≠ Some buildings ∧
  (gameWon s = true → gameWon (run s more) = true).
Proof.
  cbv zeta.
  destruct (victory_run (initialState rnd) actions (victoryFlagsAgree_initial rnd))
    as [Hagree _].
  split; [exact Hagree|]. split; [|by apply victory_run].
  clear Hagree. induction actions as [|a actions IH] using rev_ind; [discriminate|].
  unfold run. rewrite fold_left_app. cbn [fold_left].
  fold (run (initialState rnd) actions).
  pose proof (all_buildings_never_unlocked rnd actions) as Hflag.
  set (s := run (initialState rnd) actions) in *.
  destruct a as [x y t|d]; cbn [step].
  - destruct (placeBuilding s x y t) as [s'| |] eqn:Hplace; cbn [stateAfter]; auto.
    apply placeBuilding_victory_fields in Hplace as (_ & _ & -> & _). exact IH.
  - unfold nextTurn. cbv zeta. cbn [victoryType].
    destruct (won (checkVictoryConditions s)); [|exact IH].
    intros H. by apply Hflag, buildings_victory_needs_flag.
Qed.

End EmpireExtras.

(** * Further properties of the photo gallery *)

Module GalleryExtras.

Import Gallery GalleryFacts.

(** ** Viewport detection *)

Lemma columnsFor_range w : 1 ≤ columnsFor w ≤ 6.
Proof. unfold columnsFor. repeat case_match; lia. Qed.

(** X16.  After [updateViewportInfo] the layout state is consistent: portrait
    means narrower than high, [isSlowConnection] says what [connectionSpeed]
    says, the strategy is load-more exactly on a slow landscape page and
    infinite scroll exactly on a fast one, the column count is between 1 and
    6 when the container could be measured and unchanged otherwise; and
    running the detection again on the same browser changes nothing. *)
Theorem viewport_state_is_consistent (b : Browser) (st : LayoutState) :
  let st' := updateViewportInfo b st in
  (isPortrait st' = true ↔ innerWidth b < innerHeight b) ∧
  (isSlowConnection st' = true ↔ connectionSpeed st' = slow) ∧
  (loadingStrategy st' = load_more ↔
     isPortrait st' = false ∧ isSlowConnection st' = true) ∧
  (loadingStrategy st' = infinite_scroll ↔
     isPortrait st' = false ∧ isSlowConnection st' = false) ∧
  match containerWidth b with
  | Some _ => 1 ≤ columnCount st' ≤ 6
  | None => columnCount st' = columnCount st
  end ∧
  updateViewportInfo b st' = st'.
Proof.
  cbv zeta. unfold updateViewportInfo, detectConnectionSpeed.
  cbn [isPortrait columnCount viewportWidth viewportHeight connectionSpeed
       isSlowConnection loadingStrategy].
  split; [apply Z.ltb_lt|].
  split; [destruct (detectedSpeed (navigator b)); split; congruence|].
  split; [destruct (innerWidth b <? innerHeight b), (detectedSpeed (navigator b));
          cbn; split; (congruence || tauto || (intros [? ?]; congruence))|].
  split; [destruct (innerWidth b <? innerHeight b), (detectedSpeed (navigator b));
          cbn; split; (congruence || tauto || (intros [? ?]; congruence))|].
  split; [destruct (containerWidth b); [apply columnsFor_range|reflexivity]|].
  destruct (containerWidth b); reflexivity.
Qed.

(** ** Paging *)

Lemma length_slice_page {A} (a : Z) (l : list A) :
  (length (slice a (a + 20) l) ≤ 20)%nat.
Proof.
  unfold slice. rewrite length_take.
  destruct (a <? 0) eqn:Ha, (a + 20 <? 0) eqn:Hb; lia.
Qed.

Lemma loadPage_inRange server p st :
  isLoading st = false → 1 ≤ p →
  inRange (loadPage server p st) ∧ currentPage (loadPage server p st) = p ∧
  totalPages (loadPage server p st) = Z.max (totalPages st) (p + 2).
Proof.
  intros Hl Hp. unfold loadPage, inRange. rewrite Hl. cbv zeta.
  unfold ITEMS_PER_PAGE.
  destruct (_ <? _); cbn [isLoading currentPage totalPages photos];
    (repeat split; [lia..|apply length_slice_page]).
Qed.

Lemma pagerStep_cases st c :
  inRange st →
  pagerStep st c = st ∨
  (∃ server p, 1 ≤ p ∧ pagerStep st c = loadPage server p st) ∨
  (∃ photoId, pagerStep st c = handleImageLoad pagination photoId st).
Proof.
  intros (Hl & Hcp & Hlen). destruct c as [server|server|page server|photoId];
    cbn [pagerStep].
  - unfold goToNextPage. destruct (_ <? _); [|by left].
    right. left. exists server, (currentPage st + 1). split; [lia|reflexivity].
  - unfold goToPreviousPage. destruct (1 <? currentPage st) eqn:H1; [|by left].
    apply Z.ltb_lt in H1.
    right. left. exists server, (currentPage st - 1). split; [lia|reflexivity].
  - unfold goToPage. destruct (1 <=? page) eqn:H1; cbn [andb]; [|by left].
    destruct (page <=? totalPages st); [|by left]. apply Z.leb_le in H1.
    right. left. eauto.
  - right. right. eauto.
Qed.

Lemma inRange_step st c :
  inRange st →
  inRange (pagerStep st c) ∧ totalPages st ≤ totalPages (pagerStep st c) ∧
  (currentPage st + 2 ≤ totalPages st →
   currentPage (pagerStep st c) + 2 ≤ totalPages (pagerStep st c)).
Proof.
  intros Hst.
  destruct (pagerStep_cases st c Hst) as [->|[(server & p & Hp & ->)|(photoId & ->)]].
  - split; [exact Hst|]. split; [lia|auto].
  - destruct Hst as (Hl & Hcp & Hlen).
    destruct (loadPage_inRange server p st Hl Hp) as (Hin & -> & ->).
    split; [exact Hin|]. lia.
  - destruct Hst as (Hl & Hcp & Hlen). unfold inRange, handleImageLoad.
    cbn [isLoading currentPage totalPages photos]. rewrite length_fmap.
    repeat split; (lia || auto).
Qed.

Lemma elem_of_pageNumbers st i :
  i ∈ pageNumbers st ↔
  1 ≤ i ≤ totalPages st ∧ currentPage st - 2 ≤ i ≤ currentPage st + 2.
Proof. unfold pageNumbers. cbv zeta. rewrite elem_of_seqZ. lia. Qed.

(** X17.  Paging keeps the page number among the pages: from a settled state
    with [1 <= currentPage <= totalPages], any sequence of next, previous,
    go-to-page and image-load calls leaves the state settled and in range
    with at most 20 photos shown, never lowers [totalPages], and once two
    more pages are announced beyond the current one this stays so, so that
    the next button never runs out.  The numbered buttons include the current
    page, and each of them loads exactly its page. *)
Theorem pager_stays_in_range (st : Pager) (calls : list PagerCall) :
  inRange st →
  let st' := pagerRun st calls in
  inRange st' ∧ totalPages st ≤ totalPages st' ∧
  (currentPage st + 2 ≤ totalPages st → currentPage st' + 2 ≤ totalPages st') ∧
  currentPage st' ∈ pageNumbers st' ∧
  (∀ i server, i ∈ pageNumbers st' →
     goToPage server i st' = loadPage server i st' ∧
     currentPage (goToPage server i st') = i ∧
     currentPage (goToPage server i st') + 2 ≤ totalPages (goToPage server i st')).
Proof.
  intros Hst. cbv zeta.
  assert (Hrun : inRange (pagerRun st calls) ∧
                 totalPages st ≤ totalPages (pagerRun st calls) ∧
                 (currentPage st + 2 ≤ totalPages st →
                  currentPage (pagerRun st calls) + 2 ≤ totalPages (pagerRun st calls))).
  { revert st Hst. induction calls as [|c calls IH]; intros st Hst.
    - split; [exact Hst|]. split; [cbn; lia|auto].
    - change (pagerRun st (c :: calls)) with (pagerRun (pagerStep st c) calls).
      destruct (inRange_step st c Hst) as (Hin & Htp & Hnext).
      destruct (IH _ Hin) as (Hin' & Htp' & Hnext').
      split; [exact Hin'|]. split; [lia|auto]. }
  destruct Hrun as (Hin & Htp & Hnext). split; [exact Hin|].
  split; [exact Htp|]. split; [exact Hnext|].
  set (st' := pagerRun st calls) in *. destruct Hin as (Hl & Hcp & Hlen).
  split; [apply elem_of_pageNumbers; lia|].
  intros i server [Hi _]%elem_of_pageNumbers.
  assert (Hgo : goToPage server i st' = loadPage server i st').
  { unfold goToPage. destruct (1 <=? i) eqn:H1; [|lia].
    destruct (i <=? totalPages st') eqn:H2; [reflexivity|lia]. }
  rewrite Hgo.
  destruct (loadPage_inRange server i st' Hl ltac:(lia)) as (_ & -> & ->).
  split; [reflexivity|]. lia.
Qed.

Lemma pager_sample :
  let st' := pagerRun initialPager
               [GoToPage 1 sampleServer; NextPage sampleServer;
                GoToPage 4 sampleServer; PreviousPage sampleServer] in
  inRange st' ∧ currentPage st' ∈ pageNumbers st' ∧
  currentPage st' = 3 ∧ totalPages st' = 6.
Proof.
  assert (Hin : inRange initialPager) by (unfold inRange; cbn; lia).
  destruct (pager_stays_in_range initialPager
              [GoToPage 1 sampleServer; NextPage sampleServer;
               GoToPage 4 sampleServer; PreviousPage sampleServer] Hin)
    as (H1 & _ & _ & H2 & _).
  split; [exact H1|]. split; [exact H2|]. vm_compute. auto.
Defined.

(** ** The pages shown *)

Lemma ids_app l1 l2 : ids (l1 ++ l2) = ids l1 ++ ids l2.
Proof. apply fmap_app. Qed.

Lemma ids_concat ls : ids (concat ls) = concat (ids <$> ls).
Proof.
  induction ls as [|l ls IH]; [reflexivity|].
  cbn [concat]. rewrite ids_app, IH. reflexivity.
Qed.

Lemma slice_fmap {A B} (f : A → B) a b (l : list A) :
  f <$> slice a b l = slice a b (f <$> l).
Proof. unfold slice. by rewrite fmap_take, fmap_drop, length_fmap. Qed.

Lemma ids_updateLoadedFlag photoId l : ids (updateLoadedFlag photoId <$> l) = ids l.
Proof.
  unfold ids. rewrite <- list_fmap_compose. apply list_fmap_ext.
  intros i p _. unfold updateLoadedFlag. cbn. by destruct (bool_decide _).
Qed.

Section Pages.

Context {B : Type} (f : Z → list B).
Hypothesis full : ∀ i, 1 ≤ i → length (f i) = 20%nat.

Lemma length_pages m (n : nat) :
  1 ≤ m → length (concat (f <$> seqZ m (Z.of_nat n))) = (20 * n)%nat.
Proof.
  intros Hm. induction n as [|n IH]; [reflexivity|].
  rewrite seqZ_S, fmap_app, concat_app, length_app, IH. cbn [fmap list_fmap concat].
  rewrite app_nil_r, full by lia. lia.
Qed.

Lemma slice_pages k p :
  1 ≤ p ≤ k →
  slice ((p - 1) * 20) ((p - 1) * 20 + 20) (concat (f <$> seqZ 1 k)) = f p.
Proof.
  intros Hp.
  replace k with ((p - 1) + (1 + (k - p))) by lia.
  rewrite seqZ_app, fmap_app, concat_app by lia.
  rewrite (seqZ_app _ 1) by lia.
  replace (1 + (p - 1)) with p by lia.
  rewrite fmap_app, concat_app.
  rewrite (seqZ_cons p 1) by lia. rewrite (seqZ_nil _ (Z.pred 1)) by lia.
  cbn [fmap list_fmap concat]. rewrite app_nil_r.
  set (before := concat (f <$> seqZ 1 (p - 1))).
  set (after := concat (f <$> seqZ (p + 1) (k - p))).
  assert (Hbefore : length before = Z.to_nat ((p - 1) * 20)).
  { unfold before. replace (p - 1) with (Z.of_nat (Z.to_nat (p - 1))) at 1 by lia.
    rewrite length_pages by lia. lia. }
  pose proof (full p ltac:(lia)) as Hpage.
  unfold slice. rewrite !length_app, Hbefore, Hpage.
  destruct ((p - 1) * 20 <? 0) eqn:H1; [lia|].
  destruct ((p - 1) * 20 + 20 <? 0) eqn:H2; [lia|].
  rewrite drop_app_length' by lia.
  apply take_app_length'. lia.
Qed.

End Pages.

Lemma answer_ext server server' p :
  (∀ q, server' q = server q) → answer server' p = answer server p.
Proof. intros H. unfold answer, generatePhotos. by rewrite H. Qed.

Lemma fullPages_length server i :
  fullPages server → 1 ≤ i → length (ids (answer server i)) = 20%nat.
Proof.
  intros Hfull Hi. destruct (Hfull i Hi) as (l & Hl & Hlen).
  unfold ids, answer, generatePhotos. by rewrite length_fmap, Hl.
Qed.

Lemma loadPage_holdsPages server server' k p st :
  fullPages server → (∀ q, server' q = server q) →
  isLoading st = false → 0 ≤ k → 1 ≤ p →
  ids (allPhotos st) = ids (concat (answer server <$> seqZ 1 k)) →
  holdsPages server (Z.max k p) (loadPage server' p st).
Proof.
  intros Hfull Hext Hl Hk Hp Hall.
  pose proof (fullPages_length server) as Hlen.
  assert (Hsize : Z.of_nat (length (allPhotos st)) = 20 * k).
  { rewrite <- (length_fmap photo_id). fold (ids (allPhotos st)).
    rewrite Hall, ids_concat, <- list_fmap_compose.
    replace k with (Z.of_nat (Z.to_nat k)) at 1 by lia.
    rewrite (length_pages (λ i, ids (answer server i))) by (auto || lia). lia. }
  unfold loadPage, holdsPages. rewrite Hl. cbv zeta. unfold ITEMS_PER_PAGE.
  rewrite Hsize.
  destruct (20 * k <? (p - 1) * 20 + 20) eqn:Hlt;
    cbn [isLoading currentPage allPhotos photos].
  - apply Z.ltb_lt in Hlt.
    rewrite (Z.mul_comm 20 k), Z.div_mul by lia.
    assert (Hnew : ids (allPhotos st ++
                        concat ((generatePhotos server' <$> seqZ (k + 1) (p - k)).*1))
                   = ids (concat (answer server <$> seqZ 1 (Z.max k p)))).
    { replace (Z.max k p) with (k + (p - k)) by lia.
      rewrite (seqZ_app 1) by lia. rewrite fmap_app, concat_app, !ids_app, Hall.
      f_equal. replace (1 + k) with (k + 1) by lia. f_equal. f_equal.
      rewrite <- list_fmap_compose. apply list_fmap_ext.
      intros i q _. apply (answer_ext server server' q Hext). }
    split; [reflexivity|]. split; [lia|]. split; [exact Hnew|].
    unfold ids at 1. rewrite slice_fmap.
    fold (ids (allPhotos st ++
                 concat ((generatePhotos server' <$> seqZ (k + 1) (p - k)).*1))).
    rewrite Hnew, ids_concat, <- list_fmap_compose.
    apply (slice_pages (λ i, ids (answer server i))); [auto|lia].
  - apply Z.ltb_ge in Hlt. replace (Z.max k p) with k by lia.
    split; [reflexivity|]. split; [lia|]. split; [exact Hall|].
    unfold ids at 1. rewrite slice_fmap. fold (ids (allPhotos st)).
    rewrite Hall, ids_concat, <- list_fmap_compose.
    apply (slice_pages (λ i, ids (answer server i))); [auto|lia].
Qed.

Lemma holdsPages_step server k st c :
  fullPages server → asks server c → holdsPages server k st →
  ∃ k', holdsPages server k' (pagerStep st c).
Proof.
  intros Hfull Hasks (Hl & Hcp & Hall & Hshown).
  assert (Hload : ∀ server' p, (∀ q, server' q = server q) → 1 ≤ p →
                    ∃ k', holdsPages server k' (loadPage server' p st)).
  { intros server' p Hext Hp. exists (Z.max k p).
    apply loadPage_holdsPages; auto. lia. }
  assert (Hsame : ∃ k', holdsPages server k' st) by (exists k; repeat split; auto; lia).
  destruct c as [server'|server'|page server'|photoId]; cbn [pagerStep].
  - unfold goToNextPage. destruct (_ <? _); [|exact Hsame].
    apply Hload; [by apply Hasks|lia].
  - unfold goToPreviousPage. destruct (1 <? currentPage st) eqn:H1; [|exact Hsame].
    apply Z.ltb_lt in H1. apply Hload; [by apply Hasks|lia].
  - unfold goToPage. destruct (1 <=? page) eqn:H1; cbn [andb]; [|exact Hsame].
    destruct (page <=? totalPages st); [|exact Hsame]. apply Z.leb_le in H1.
    apply Hload; [by apply Hasks|lia].
  - exists k. unfold holdsPages, handleImageLoad.
    cbn [isLoading currentPage allPhotos photos].
    rewrite !ids_updateLoadedFlag. repeat split; auto; lia.
Qed.

(** X18.  With a photo service that answers every page with 20 photos, after
    the first page has been loaded from the initial state and then any
    sequence of next, previous, go-to-page and image-load calls, the photos
    shown are those of the answer for the current page, 20 of them, and
    [allPhotos] holds the answers for the pages 1 to [k] in order, for some
    [k] not below the current page (photos compared by identifier). *)
Theorem pages_show_the_answers (server : Server) (calls : list PagerCall) :
  fullPages server → Forall (asks server) calls →
  let st := pagerRun (loadPage server 1 initialPager) calls in
  ids (photos st) = ids (answer server (currentPage st)) ∧
  length (photos st) = 20%nat ∧
  ∃ k, currentPage st ≤ k ∧
       ids (allPhotos st) = ids (concat (answer server <$> seqZ 1 k)).
Proof.
  intros Hfull Hcalls. cbv zeta.
  assert (Hfirst : ∃ k, holdsPages server k (loadPage server 1 initialPager)).
  { exists (Z.max 0 1). apply loadPage_holdsPages; auto; lia. }
  assert (Hrun : ∃ k, holdsPages server k
                        (pagerRun (loadPage server 1 initialPager) calls)).
  { revert Hfirst. generalize (loadPage server 1 initialPager) as st.
    induction Hcalls as [|c calls Hc Hcalls IH]; intros st [k Hst]; [eauto|].
    change (pagerRun st (c :: calls)) with (pagerRun (pagerStep st c) calls).
    apply IH. by apply (holdsPages_step server k). }
  destruct Hrun as (k & Hl & Hcp & Hall & Hshown).
  split; [exact Hshown|]. split.
  - rewrite <- (length_fmap photo_id).
    fold (ids (photos (pagerRun (loadPage server 1 initialPager) calls))).
    rewrite Hshown. apply fullPages_length; [exact Hfull|lia].
  - exists k. split; [lia|exact Hall].
Qed.

Lemma endlessServer_fullPages : fullPages endlessServer.
Proof.
  intros p _. eexists. split; [reflexivity|].
  by rewrite length_fmap, length_seqZ.
Qed.

Lemma pages_sample :
  let st := pagerRun (loadPage endlessServer 1 initialPager)
              [NextPage endlessServer; GoToPage 3 endlessServer;
               ImageLoaded "41"; PreviousPage endlessServer] in
  currentPage st = 2 ∧ ids (photos st) = ids (answer endlessServer 2).
Proof.
  split; [vm_compute; reflexivity|].
  apply (pages_show_the_answers endlessServer
           [NextPage endlessServer; GoToPage 3 endlessServer;
            ImageLoaded "41"; PreviousPage endlessServer]).
  - exact endlessServer_fullPages.
  - repeat constructor; intros s [= <-] q; reflexivity.
Defined.

(** ** Loading more *)

Lemma loadMorePhotos_settled server st :
  isLoading st = false →
  loadMorePhotos server st =
  mkPager (photos st ++ answer server (currentPage st)) (currentPage st + 1) false
    (bool_decide (server (currentPage st) = None)) (totalPages st) (allPhotos st).
Proof.
  intros Hl. unfold loadMorePhotos, answer, generatePhotos. rewrite Hl.
  destruct (server (currentPage st)); reflexivity.
Qed.

(** X19.  Calls of [loadMorePhotos] on a settled state request the pages
    [currentPage], [currentPage + 1], ... once each, in order, and append
    what they get: the page number advances with every call, also with one
    whose request failed, so that a failed page is skipped and never asked
    again; [allPhotos] and [totalPages] are not touched. *)
Theorem load_more_walks_the_pages (servers : list Server) (st : Pager) :
  isLoading st = false →
  let st' := loadMoreRun st servers in
  isLoading st' = false ∧
  currentPage st' = currentPage st + Z.of_nat (length servers) ∧
  photos st' =
    photos st ++ concat (imap (λ i server, answer server (currentPage st + Z.of_nat i))
                           servers) ∧
  allPhotos st' = allPhotos st ∧ totalPages st' = totalPages st.
Proof.
  cbv zeta. revert st. induction servers as [|server servers IH]; intros st Hl.
  - cbn. rewrite app_nil_r, Z.add_0_r. auto.
  - change (loadMoreRun st (server :: servers))
      with (loadMoreRun (loadMorePhotos server st) servers).
    rewrite (loadMorePhotos_settled server st Hl).
    match goal with |- context [loadMoreRun ?s servers] =>
      destruct (IH s eq_refl) as (H1 & H2 & H3 & H4 & H5) end.
    cbn [isLoading currentPage photos allPhotos totalPages] in *.
    rewrite H1, H2, H3, H4, H5. repeat split; [cbn [length]; lia|].
    rewrite <- app_assoc. f_equal. cbn [imap concat].
    rewrite Z.add_0_r. f_equal. f_equal. apply imap_ext.
    intros i s _. cbn. f_equal. lia.
Qed.

Lemma load_more_sample :
  let st' := loadMoreRun initialPager (replicate 5 sampleServer) in
  currentPage st' = 6 ∧ length (photos st') = 60%nat.
Proof.
  destruct (load_more_walks_the_pages (replicate 5 sampleServer) initialPager eq_refl)
    as (_ & H & _).
  split; [exact H|vm_compute; reflexivity].
Defined.

End GalleryExtras.
